(** * The streaming chat controller of [useChat] (src/components/chat.tsx)

    A shallow embedding of the hook's submission routine: the message
    store kept in SWR, the [messagesRef] mirror, the abort slot, the
    per-request routine [getStreamedResponse], the function-call loop of
    the mutation fetcher and the public operations [append], [reload],
    [stop] and [setMessages]; with them the form handlers of the hook
    and the panel that calls it (src/components/chat-panel.tsx).

    The outside world of a run (how each fetch ends, the chunks each
    read delivers, when the user calls [stop], what [nanoid()] and
    [new Date()] return) is a script handed to the routines, and what the
    controller does is recorded as a history of events next to the
    cells it writes.

    Layout: JavaScript values and [JSON.parse]; the data model; a small
    state-and-exception monad over the hook's mutable cells; the
    routines, written in the order of the source; the vocabulary of the
    statements and the example data; then the facts: about [JSON.parse],
    about one request, about the loop, and the properties of the
    controller with their instances on the example data; further
    properties follow, on how a submission ends, on function calls, on
    every submission, and on the form handlers and the panel. *)

From Stdlib Require Import String Ascii List Bool Arith ZArith NArith Lia.
Import ListNotations.
Local Open Scope string_scope.
Local Open Scope list_scope.
Set Warnings "-register-all".

(* ===================================================================== *)
(** * JavaScript values and [JSON.parse] *)
(* ===================================================================== *)

Module Json.

(** A JavaScript string is kept as the bytes of its UTF-8 form.  The
    double quote character cannot be written inside a literal here, so
    texts are written with an apostrophe in its place and passed through
    [unq]. *)
Definition dquote : ascii := Eval cbv in ascii_of_nat 34.
Definition backslash : ascii := Eval cbv in ascii_of_nat 92.

Fixpoint unq (s : string) : string :=
  match s with
  | EmptyString => EmptyString
  | String c r => String (if Ascii.eqb c "'" then dquote else c) (unq r)
  end.

(** The values [JSON.parse] produces.  A number keeps its lexeme: the
    controller never computes with one.  An object keeps its members in
    source order; property access ([get_prop]) takes the last binding of
    a key, as a JavaScript object does on duplicate keys. *)
Inductive JValue : Type :=
| JNull
| JBool (b : bool)
| JNumber (lexeme : string)
| JString (s : string)
| JArray (items : list JValue)
| JObject (members : list (string * JValue)).

Fixpoint assoc_last (k : string) (l : list (string * JValue)) : option JValue :=
  match l with
  | [] => None
  | (k', v) :: l' =>
      match assoc_last k l' with
      | Some v' => Some v'
      | None => if String.eqb k k' then Some v else None
      end
  end.

(** [typeof v === 'string'] *)
Definition is_string (v : JValue) : bool :=
  match v with JString _ => true | _ => false end.

(** The outcome of a parsing step: a value and the unread text, a syntax
    error, or the recursion budget used up. *)
Inductive Parse (A : Type) : Type :=
| Parsed (a : A) (rest : string)
| SyntaxError
| OutOfFuel.
Arguments Parsed {A} a rest.
Arguments SyntaxError {A}.
Arguments OutOfFuel {A}.

Definition backspace : ascii := Eval cbv in ascii_of_nat 8.
Definition form_feed : ascii := Eval cbv in ascii_of_nat 12.
Definition tab : ascii := Eval cbv in ascii_of_nat 9.
Definition line_feed : ascii := Eval cbv in ascii_of_nat 10.
Definition carriage_return : ascii := Eval cbv in ascii_of_nat 13.

Definition is_ws (c : ascii) : bool :=
  Ascii.eqb c " " || Ascii.eqb c tab || Ascii.eqb c line_feed
  || Ascii.eqb c carriage_return.

(** A control character, which a string literal may not hold raw. *)
Definition is_control (c : ascii) : bool := (N_of_ascii c <? 32)%N.

Fixpoint skip_ws (s : string) : string :=
  match s with
  | String c r => if is_ws c then skip_ws r else s
  | EmptyString => s
  end.

Definition is_digit (c : ascii) : bool :=
  (48 <=? N_of_ascii c)%N && (N_of_ascii c <=? 57)%N.

Definition hex_val (c : ascii) : option N :=
  let n := N_of_ascii c in
  if ((48 <=? n) && (n <=? 57))%N then Some (n - 48)%N
  else if ((65 <=? n) && (n <=? 70))%N then Some (n - 55)%N
  else if ((97 <=? n) && (n <=? 102))%N then Some (n - 87)%N
  else None.

Definition hex4 (a b c d : ascii) : option N :=
  match hex_val a, hex_val b, hex_val c, hex_val d with
  | Some x, Some y, Some z, Some w => Some (((x * 16 + y) * 16 + z) * 16 + w)%N
  | _, _, _, _ => None
  end.

(** UTF-8 form of a code point below 0x110000 (a lone surrogate gets the
    three-byte form). *)
Definition utf8 (cp : N) : string :=
  let b (n : N) := ascii_of_N n in
  if (cp <? 128)%N then String (b cp) ""
  else if (cp <? 2048)%N then
    String (b (192 + cp / 64)%N) (String (b (128 + cp mod 64)%N) "")
  else if (cp <? 65536)%N then
    String (b (224 + cp / 4096)%N)
      (String (b (128 + (cp / 64) mod 64)%N) (String (b (128 + cp mod 64)%N) ""))
  else
    String (b (240 + cp / 262144)%N)
      (String (b (128 + (cp / 4096) mod 64)%N)
         (String (b (128 + (cp / 64) mod 64)%N)
            (String (b (128 + cp mod 64)%N) ""))).

Definition is_high_surrogate (u : N) : bool := ((55296 <=? u) && (u <=? 56319))%N.
Definition is_low_surrogate (u : N) : bool := ((56320 <=? u) && (u <=? 57343))%N.

Definition simple_escape (e : ascii) : option ascii :=
  if Ascii.eqb e dquote then Some dquote
  else if Ascii.eqb e backslash then Some backslash
  else if Ascii.eqb e "/" then Some "/"%char
  else if Ascii.eqb e "b" then Some backspace
  else if Ascii.eqb e "f" then Some form_feed
  else if Ascii.eqb e "n" then Some line_feed
  else if Ascii.eqb e "r" then Some carriage_return
  else if Ascii.eqb e "t" then Some tab
  else None.

Definition with_prefix (p : string) (r : option (string * string))
  : option (string * string) :=
  match r with
  | Some (s, rest) => Some ((p ++ s)%string, rest)
  | None => None
  end.

(** The characters of a string literal after its opening quote, up to and
    including the closing quote. *)
Fixpoint parse_string_chars (s : string) : option (string * string) :=
  match s with
  | EmptyString => None
  | String c r =>
      if Ascii.eqb c dquote then Some ("", r)
      else if Ascii.eqb c backslash then
        match r with
        | EmptyString => None
        | String e r1 =>
            if Ascii.eqb e "u" then
              match r1 with
              | String h1 (String h2 (String h3 (String h4 r2))) =>
                  match hex4 h1 h2 h3 h4 with
                  | None => None
                  | Some u =>
                      let alone := with_prefix (utf8 u) (parse_string_chars r2) in
                      if is_high_surrogate u then
                        match r2 with
                        | String b1 (String b2
                            (String l1 (String l2 (String l3 (String l4 r3))))) =>
                            if Ascii.eqb b1 backslash && Ascii.eqb b2 "u" then
                              match hex4 l1 l2 l3 l4 with
                              | Some v =>
                                  if is_low_surrogate v then
                                    with_prefix
                                      (utf8 (65536 + (u - 55296) * 1024 + (v - 56320))%N)
                                      (parse_string_chars r3)
                                  else alone
                              | None => alone
                              end
                            else alone
                        | _ => alone
                        end
                      else alone
                  end
              | _ => None
              end
            else
              match simple_escape e with
              | Some ch => with_prefix (String ch "") (parse_string_chars r1)
              | None => None
              end
        end
      else if is_control c then None
      else with_prefix (String c "") (parse_string_chars r)
  end.

Fixpoint take_digits (s : string) : string * string :=
  match s with
  | String c r =>
      if is_digit c then let (d, rest) := take_digits r in (String c d, rest)
      else ("", s)
  | EmptyString => ("", s)
  end.

(** The parts of a number: [-]? int frac? exp?.  Each returns its
    lexeme (empty when the optional part is absent) and the unread
    text. *)
Definition parse_sign (s : string) : string * string :=
  match s with
  | String c r => if Ascii.eqb c "-" then ("-", r) else ("", s)
  | EmptyString => ("", s)
  end.

Definition parse_frac (s : string) : option (string * string) :=
  match s with
  | String c r =>
      if Ascii.eqb c "." then
        let (d, rest) := take_digits r in
        match d with
        | EmptyString => None
        | _ => Some (("." ++ d)%string, rest)
        end
      else Some ("", s)
  | EmptyString => Some ("", s)
  end.

Definition parse_exp_sign (s : string) : string * string :=
  match s with
  | String c r =>
      if Ascii.eqb c "+" || Ascii.eqb c "-" then (String c "", r) else ("", s)
  | EmptyString => ("", s)
  end.

Definition parse_exp (s : string) : option (string * string) :=
  match s with
  | String c r =>
      if Ascii.eqb c "e" || Ascii.eqb c "E" then
        let (sg, r') := parse_exp_sign r in
        let (d, rest) := take_digits r' in
        match d with
        | EmptyString => None
        | _ => Some ((String c sg ++ d)%string, rest)
        end
      else Some ("", s)
  | EmptyString => Some ("", s)
  end.

(** The integer part has a digit and no leading zero. *)
Definition int_ok (int : string) : bool :=
  match int with
  | EmptyString => false
  | String c EmptyString => true
  | String c _ => negb (Ascii.eqb c "0")
  end.

(** A number, kept as its lexeme. *)
Definition parse_number (s : string) : option (string * string) :=
  let (sign, s1) := parse_sign s in
  let (int, s2) := take_digits s1 in
  if negb (int_ok int) then None
  else
    match parse_frac s2 with
    | None => None
    | Some (frac, s3) =>
        match parse_exp s3 with
        | None => None
        | Some (ex, s4) => Some ((sign ++ int ++ frac ++ ex)%string, s4)
        end
    end.

Fixpoint strip_prefix (p s : string) : option string :=
  match p with
  | EmptyString => Some s
  | String a p' =>
      match s with
      | String b s' => if Ascii.eqb a b then strip_prefix p' s' else None
      | EmptyString => None
      end
  end.

(** One JSON value, leading white space allowed; arrays and objects
    collect their parts in [parse_elements] and [parse_members]. *)
Fixpoint parse_value (fuel : nat) (s : string) : Parse JValue :=
  match fuel with
  | O => OutOfFuel
  | S fuel' =>
      match skip_ws s with
      | EmptyString => SyntaxError
      | String c r =>
          if Ascii.eqb c "{" then
            match skip_ws r with
            | String c' r' =>
                if Ascii.eqb c' "}" then Parsed (JObject []) r'
                else parse_members fuel' r []
            | EmptyString => SyntaxError
            end
          else if Ascii.eqb c "[" then
            match skip_ws r with
            | String c' r' =>
                if Ascii.eqb c' "]" then Parsed (JArray []) r'
                else parse_elements fuel' r []
            | EmptyString => SyntaxError
            end
          else if Ascii.eqb c dquote then
            match parse_string_chars r with
            | Some (str, rest) => Parsed (JString str) rest
            | None => SyntaxError
            end
          else if Ascii.eqb c "t" then
            match strip_prefix "rue" r with
            | Some rest => Parsed (JBool true) rest
            | None => SyntaxError
            end
          else if Ascii.eqb c "f" then
            match strip_prefix "alse" r with
            | Some rest => Parsed (JBool false) rest
            | None => SyntaxError
            end
          else if Ascii.eqb c "n" then
            match strip_prefix "ull" r with
            | Some rest => Parsed JNull rest
            | None => SyntaxError
            end
          else
            match parse_number (String c r) with
            | Some (lexeme, rest) => Parsed (JNumber lexeme) rest
            | None => SyntaxError
            end
      end
  end

with parse_elements (fuel : nat) (s : string) (acc : list JValue) : Parse JValue :=
  match fuel with
  | O => OutOfFuel
  | S fuel' =>
      match parse_value fuel' s with
      | Parsed v r =>
          match skip_ws r with
          | String c r' =>
              if Ascii.eqb c "," then parse_elements fuel' r' (v :: acc)
              else if Ascii.eqb c "]" then Parsed (JArray (rev (v :: acc))) r'
              else SyntaxError
          | EmptyString => SyntaxError
          end
      | SyntaxError => SyntaxError
      | OutOfFuel => OutOfFuel
      end
  end

with parse_members (fuel : nat) (s : string) (acc : list (string * JValue))
  : Parse JValue :=
  match fuel with
  | O => OutOfFuel
  | S fuel' =>
      match skip_ws s with
      | String q r =>
          if Ascii.eqb q dquote then
            match parse_string_chars r with
            | Some (key, r1) =>
                match skip_ws r1 with
                | String colon r2 =>
                    if Ascii.eqb colon ":" then
                      match parse_value fuel' r2 with
                      | Parsed v r3 =>
                          match skip_ws r3 with
                          | String c r4 =>
                              if Ascii.eqb c ","
                              then parse_members fuel' r4 ((key, v) :: acc)
                              else if Ascii.eqb c "}"
                              then Parsed (JObject (rev ((key, v) :: acc))) r4
                              else SyntaxError
                          | EmptyString => SyntaxError
                          end
                      | SyntaxError => SyntaxError
                      | OutOfFuel => OutOfFuel
                      end
                    else SyntaxError
                | EmptyString => SyntaxError
                end
            | None => SyntaxError
            end
          else SyntaxError
      | EmptyString => SyntaxError
      end
  end.

(** [JSON.parse(text)]: one value, then nothing but white space.  [None]
    is the SyntaxError the call throws.  The budget is never the reason
    for [None] (lemma [JSON_parse_fuel] below). *)
Definition parse_fuel (s : string) : nat := 2 * String.length s + 1.

Definition JSON_parse (text : string) : option JValue :=
  match parse_value (parse_fuel text) text with
  | Parsed v rest =>
      match skip_ws rest with
      | EmptyString => Some v
      | String _ _ => None
      end
  | SyntaxError => None
  | OutOfFuel => None
  end.

(** A serialisation of a string: the quote and the backslash behind a
    backslash, a control character as a four-digit escape. *)
Definition hex_digit (n : N) : ascii :=
  if (n <? 10)%N then ascii_of_N (48 + n) else ascii_of_N (87 + n).

Definition escape_char (c : ascii) : string :=
  if Ascii.eqb c dquote then String backslash (String dquote "")
  else if Ascii.eqb c backslash then String backslash (String backslash "")
  else if is_control c then
    String backslash
      (String "u"
         (String "0"
            (String "0"
               (String (hex_digit (N_of_ascii c / 16))
                  (String (hex_digit (N_of_ascii c mod 16)) "")))))
  else String c "".

Fixpoint escape (s : string) : string :=
  match s with
  | EmptyString => EmptyString
  | String c r => (escape_char c ++ escape r)%string
  end.

(** The text of a function-call reply for a name and an arguments text:
    [{"function_call":{"name":"...","arguments":"..."}}]. *)
Definition envelope_open : string := Eval cbv in unq "{'function_call':{'name':'".
Definition envelope_mid : string := Eval cbv in unq "','arguments':'".
Definition envelope_close : string := Eval cbv in unq "'}}".

Definition envelope (name arguments : string) : string :=
  (envelope_open ++ escape name ++ envelope_mid ++ escape arguments
     ++ envelope_close)%string.

End Json.
Import Json.

(** [v.function_call] on the value [JSON.parse] returned: a member of an
    object, [undefined] ([None]) on any other value but [null], where the
    access throws a TypeError ([inl tt]). *)
Definition get_prop (v : JValue) (k : string) : unit + option JValue :=
  match v with
  | JNull => inl tt
  | JObject members => inr (assoc_last k members)
  | _ => inr None
  end.

(* ===================================================================== *)
(** * Data model *)
(* ===================================================================== *)

Inductive Role : Type := user | assistant | system | function.

Definition Role_eqb (a b : Role) : bool :=
  match a, b with
  | user, user | assistant, assistant | system, system | function, function => true
  | _, _ => false
  end.

(** [Message].  [function_call] is absent, the raw text while the reply
    streams (a [JString]), or the value parsed once the stream is over.
    [createdAt] is a [Date], kept as its epoch milliseconds. *)
Record Message : Type := {
  msg_id : string;
  msg_createdAt : option Z;
  msg_content : string;
  msg_role : Role;
  msg_name : option string;
  msg_function_call : option JValue
}.

(** [CreateMessage]: a [Message] whose [id] may be missing. *)
Record CreateMessage : Type := {
  cm_id : option string;
  cm_createdAt : option Z;
  cm_content : string;
  cm_role : Role;
  cm_name : option string;
  cm_function_call : option JValue
}.

(** [OpenAIChatRequest]. *)
Record ChatRequest : Type := {
  req_messages : list Message;
  req_functions : option (list JValue);
  req_function_call : option JValue
}.

(** A thrown value whose properties can be read, an object or a
    primitive other than [null] and [undefined]: its [name] (the empty
    string when it has none), its [message], and whether it is
    [instanceof Error]. *)
Record JsError : Type := {
  err_name : string;
  err_message : string;
  err_is_Error : bool
}.

(** [new Error(message)] *)
Definition new_Error (message : string) : JsError :=
  {| err_name := "Error"; err_message := message; err_is_Error := true |}.

(** What [JSON.parse] throws on malformed text, and what reading a
    property of [undefined] or [null] throws.  The message texts differ
    between engines; only the names matter below. *)
Definition JSON_SyntaxError : JsError :=
  {| err_name := "SyntaxError"; err_message := "JSON.parse"; err_is_Error := true |}.
Definition TypeError : JsError :=
  {| err_name := "TypeError"; err_message := "Cannot read properties of undefined";
     err_is_Error := true |}.

(** What a [throw] or a rejected promise carries: such a value, or
    [null] or [undefined], of which no property can be read. *)
Inductive Thrown : Type :=
| Object (e : JsError)
| Nullish.

Coercion Object : JsError >-> Thrown.

(** The message of the request body when [sendExtraMessageFields] is off:
    [{role, content, name?, function_call?}]. *)
Record PlainMessage : Type := {
  pm_role : Role;
  pm_content : string;
  pm_name : option string;
  pm_function_call : option JValue
}.

Inductive BodyMessages : Type :=
| FullMessages (l : list Message)
| PlainMessages (l : list PlainMessage).

(** The JSON body of the POST.  The caller's extra body fields and the
    headers are passed through by the source and are left out here. *)
Record RequestBody : Type := {
  body_messages : BodyMessages;
  body_functions : option (list JValue);
  body_function_call : option JValue
}.

(** What the controller does that an observer can see, in order. *)
Inductive Event : Type :=
| EvMutate (data : list Message) (revalidate : bool)
| EvFetch (body : RequestBody)
| EvAbort
| EvReaderCancel
| EvHandler (functionCall : JValue) (chatRequest : ChatRequest)
| EvOnFinish (message : option Message)
| EvOnError (err : JsError).

(** The mutable cells of the hook: the SWR cache entry of the chat, the
    [messagesRef] mirror, the abort slot ([true] while
    [abortControllerRef.current] holds a controller, [false] when it is
    [null]), and the observable history. *)
Record World : Type := {
  swr_data : list Message;
  messagesRef : list Message;
  abortControllerRef : bool;
  trace : list Event
}.

(* ===================================================================== *)
(** * A state-and-exception monad *)
(* ===================================================================== *)

(** How an async routine ends: it returns, it throws, or it is still
    waiting for a response the script of the outside world does not
    contain.  The cells keep what was written before a throw. *)
Inductive Completion (A : Type) : Type :=
| Return (a : A)
| Throw (e : Thrown)
| Suspended.
Arguments Return {A} a.
Arguments Throw {A} e.
Arguments Suspended {A}.

Definition M (A : Type) : Type := World -> Completion A * World.

Definition ret {A} (a : A) : M A := fun w => (Return a, w).

Definition bind {A B} (m : M A) (k : A -> M B) : M B :=
  fun w =>
    match m w with
    | (Return a, w') => k a w'
    | (Throw e, w') => (Throw e, w')
    | (Suspended, w') => (Suspended, w')
    end.

Definition throw {A} (e : Thrown) : M A := fun w => (Throw e, w).

Definition suspended {A} : M A := fun w => (Suspended, w).

Definition try_catch {A} (m : M A) (handler : Thrown -> M A) : M A :=
  fun w =>
    match m w with
    | (Throw e, w') => handler e w'
    | r => r
    end.

Definition gets {A} (f : World -> A) : M A := fun w => (Return (f w), w).

Definition modify (f : World -> World) : M unit := fun w => (Return tt, f w).

Declare Scope js_scope.
Delimit Scope js_scope with js.
Notation "x <- c ;; k" := (bind c (fun x => k))
  (at level 61, c at next level, right associativity) : js_scope.
Notation "c ;; k" := (bind c (fun _ => k))
  (at level 61, right associativity) : js_scope.
Local Open Scope js_scope.

Definition when (b : bool) (m : M unit) : M unit := if b then m else ret tt.

(* ===================================================================== *)
(** * The cells and their primitive operations *)
(* ===================================================================== *)

Definition emit (e : Event) : M unit :=
  modify (fun w =>
    {| swr_data := swr_data w; messagesRef := messagesRef w;
       abortControllerRef := abortControllerRef w; trace := trace w ++ [e] |}).

(** [mutate(data, revalidate)] of [useSWR]: the cache entry is replaced. *)
Definition mutate (data : list Message) (revalidate : bool) : M unit :=
  modify (fun w =>
    {| swr_data := data; messagesRef := messagesRef w;
       abortControllerRef := abortControllerRef w; trace := trace w |}) ;;
  emit (EvMutate data revalidate).

(** [useEffect(() => { messagesRef.current = messages }, [messages])]:
    the mirror follows the cache one render late.  A cache write
    schedules a render; React renders, commits and runs this effect
    before the async routine resumes from the [await] it is suspended
    on.  [await] stands for a suspension point of the routine: when the
    routine goes on, [messagesRef.current] is the cache value.  Between
    two suspension points the mirror keeps the value it had. *)
Definition render (w : World) : World :=
  {| swr_data := swr_data w; messagesRef := swr_data w;
     abortControllerRef := abortControllerRef w; trace := trace w |}.

Definition await : M unit := modify render.

Definition with_slot (b : bool) (w : World) : World :=
  {| swr_data := swr_data w; messagesRef := messagesRef w;
     abortControllerRef := b; trace := trace w |}.

Definition set_abortControllerRef (b : bool) : M unit := modify (with_slot b).

(** [stop]: abort the controller in the slot, if any, and clear the slot. *)
Definition stop : M unit :=
  slot <- gets abortControllerRef ;;
  if slot then emit EvAbort ;; set_abortControllerRef false else ret tt.

(** [setMessages] *)
Definition setMessages (messages : list Message) : M unit :=
  mutate messages false ;;
  modify (fun w =>
    {| swr_data := swr_data w; messagesRef := messages;
       abortControllerRef := abortControllerRef w; trace := trace w |}).

(** [messagesRef.current[messagesRef.current.length - 1]] followed by a
    property access, which throws on [undefined]. *)
Definition latest_message : M Message :=
  ref <- gets messagesRef ;;
  match rev ref with
  | m :: _ => ret m
  | [] => throw TypeError
  end.

(** The literal the accumulated text is tested against. *)
Definition function_call_marker : string := Eval cbv in unq "{'function_call':".

(* ===================================================================== *)
(** * The outside world of one request *)
(* ===================================================================== *)

Section Controller.

(** [decodeAIStreamChunk] is imported from the library's shared utilities
    and is not part of the sources at hand: it is a parameter, and so is
    the type of the chunks it decodes. *)
Variable Uint8Array : Type.
Variable decodeAIStreamChunk : Uint8Array -> string.

(** What [await reader.read()] meets, in order: a chunk, a rejection, or
    the user calling [stop] while the read is pending (the read then
    goes on to the next entry).  The end of the list is the read that
    reports [done]. *)
Inductive ReadEvent : Type :=
| Chunk (value : Uint8Array)
| ReadRejects (err : Thrown)
| StopCalled.

(** The [Response] of the fetch: [res.ok], what [res.text()] resolves
    to, and [res.body] ([None] when it is [null]) as the script of its
    reader. *)
Record Response : Type := {
  res_ok : bool;
  res_text : string;
  res_body : option (list ReadEvent)
}.

(** How [await fetch(...)] ends: the promise rejects, it resolves, or it
    is still pending when the script of the outside world ends. *)
Inductive FetchResult : Type :=
| FetchRejects (err : Thrown)
| FetchResolves (res : Response)
| FetchPending.

(** Everything the outside world decides during one call of
    [getStreamedResponse]: whether the user calls [stop] while the fetch
    is pending, how the fetch ends, and the values [new Date()] and
    [nanoid()] return.  [nanoid] is imported like [decodeAIStreamChunk]
    and is not part of the sources at hand: what it returns is taken
    from here, and [append] is given the id it would draw. *)
Record Exchange : Type := {
  x_stop_during_fetch : bool;
  x_fetch : FetchResult;
  x_now : Z;
  x_nanoid : string
}.

(** The options of the hook the routine reads.  [functionCallHandler]
    returns the next request or throws; [onResponse] may throw; of
    [onFinish] and [onError] only their presence matters. *)
Record UseChatOptions : Type := {
  sendExtraMessageFields : bool;
  functionCallHandler : option (JValue -> ChatRequest -> Thrown + ChatRequest);
  onResponse : option (Response -> option Thrown);
  onFinish : bool;
  onError : bool
}.

Variable opts : UseChatOptions.

(* ===================================================================== *)
(** * The per-request routine *)
(* ===================================================================== *)

Definition plain_message (m : Message) : PlainMessage :=
  {| pm_role := msg_role m; pm_content := msg_content m;
     pm_name := msg_name m; pm_function_call := msg_function_call m |}.

Definition request_body (r : ChatRequest) : RequestBody :=
  {| body_messages :=
       if sendExtraMessageFields opts then FullMessages (req_messages r)
       else PlainMessages (map plain_message (req_messages r));
     body_functions := req_functions r;
     body_function_call := req_function_call r |}.

(** The two shapes of the message rebuilt after each chunk: the reply is
    a function call still streaming, or it is plain content. *)
Definition pending_message (replyId : string) (createdAt : Z) (result : string)
  : Message :=
  {| msg_id := replyId; msg_createdAt := Some createdAt; msg_content := "";
     msg_role := assistant; msg_name := None;
     msg_function_call := Some (JString result) |}.

Definition content_message (replyId : string) (createdAt : Z) (result : string)
  : Message :=
  {| msg_id := replyId; msg_createdAt := Some createdAt; msg_content := result;
     msg_role := assistant; msg_name := None; msg_function_call := None |}.

Definition streaming_message (replyId : string) (createdAt : Z) (result : string)
  : Message :=
  if String.prefix function_call_marker result
  then pending_message replyId createdAt result
  else content_message replyId createdAt result.

(** The message written once the stream is over and the text parsed. *)
Definition parsed_message (replyId : string) (createdAt : Z)
  (parsedFunctionCall : option JValue) : Message :=
  {| msg_id := replyId; msg_createdAt := Some createdAt; msg_content := "";
     msg_role := assistant; msg_name := None;
     msg_function_call := parsedFunctionCall |}.

(** [while (true) { const { done, value } = await reader.read(); ... }] *)
Fixpoint read_loop (messages : list Message) (replyId : string) (createdAt : Z)
  (body : list ReadEvent) (result : string) (responseMessage : option Message)
  : M (string * option Message) :=
  await ;;
  match body with
  | [] => ret (result, responseMessage)
  | StopCalled :: body' =>
      stop ;; read_loop messages replyId createdAt body' result responseMessage
  | ReadRejects err :: _ => throw err
  | Chunk value :: body' =>
      let result := (result ++ decodeAIStreamChunk value)%string in
      let responseMessage := streaming_message replyId createdAt result in
      mutate (messages ++ [responseMessage]) false ;;
      slot <- gets abortControllerRef ;;
      if slot
      then read_loop messages replyId createdAt body' result (Some responseMessage)
      else emit EvReaderCancel ;; ret (result, Some responseMessage)
  end.

Definition getStreamedResponse (x : Exchange) (openAIChatRequest : ChatRequest)
  : M (option Message) :=
  previousMessages <- gets messagesRef ;;
  mutate (req_messages openAIChatRequest) false ;;
  emit (EvFetch (request_body openAIChatRequest)) ;;
  await ;;
  when (x_stop_during_fetch x) stop ;;
  match x_fetch x with
  | FetchPending => suspended
  | FetchRejects err =>
      mutate previousMessages false ;;
      await ;;
      throw err
  | FetchResolves res =>
      match onResponse opts with
      | Some callback =>
          match callback res with
          | Some err => throw err
          | None => ret tt
          end
      | None => ret tt
      end ;;
      if negb (res_ok res) then
        mutate previousMessages false ;;
        await ;;
        throw (new_Error
                 (match res_text res with
                  | EmptyString => "Failed to fetch the chat response."
                  | text => text
                  end))
      else
        match res_body res with
        | None => throw (new_Error "The response body is empty.")
        | Some body =>
            let createdAt := x_now x in
            let replyId := x_nanoid x in
            r <- read_loop (req_messages openAIChatRequest) replyId createdAt
                   body "" None ;;
            let (result, responseMessage) := r in
            (if String.prefix function_call_marker result then
               match JSON_parse result with
               | None => throw JSON_SyntaxError
               | Some document =>
                   match get_prop document "function_call" with
                   | inl _ => throw TypeError
                   | inr parsedFunctionCall =>
                       mutate (req_messages openAIChatRequest
                                 ++ [parsed_message replyId createdAt parsedFunctionCall])
                              true
                   end
               end
             else ret tt) ;;
            when (onFinish opts) (emit (EvOnFinish responseMessage)) ;;
            ret responseMessage
        end
  end.

(* ===================================================================== *)
(** * The function-call loop and the mutation fetcher *)
(* ===================================================================== *)

(** [latestMessage.function_call === undefined ||
     typeof latestMessage.function_call === 'string'] *)
Definition loop_breaks (latestMessage : Message) : bool :=
  match msg_function_call latestMessage with
  | None => true
  | Some v => is_string v
  end.

(** The exchange after the last scripted one: its fetch stays pending. *)
Definition unanswered : Exchange :=
  {| x_stop_during_fetch := false; x_fetch := FetchPending;
     x_now := 0%Z; x_nanoid := "" |}.

(** [while (true) { await getStreamedResponse(chatRequest); ... }], one
    scripted exchange per turn.  When the script has ended and the loop
    asks again, the request is sent and the routine stays suspended on
    its fetch. *)
Fixpoint function_call_loop (script : list Exchange) (chatRequest : ChatRequest)
  : M unit :=
  match script with
  | [] => getStreamedResponse unanswered chatRequest ;; suspended
  | x :: script' =>
      getStreamedResponse x chatRequest ;;
      await ;;
      latestMessage <- latest_message ;;
      if loop_breaks latestMessage then ret tt
      else
        match functionCallHandler opts, msg_function_call latestMessage with
        | Some handler, Some functionCall =>
            ref <- gets messagesRef ;;
            let argument :=
              {| req_messages := ref;
                 req_functions := req_functions chatRequest;
                 req_function_call := req_function_call chatRequest |} in
            emit (EvHandler functionCall argument) ;;
            await ;;
            match handler functionCall argument with
            | inl err => throw err
            | inr functionCallResponseMessage =>
                function_call_loop script' functionCallResponseMessage
            end
        | _, _ => function_call_loop script' chatRequest
        end
  end.

(** The fetcher handed to [useSWRMutation]; [trigger(chatRequest)] runs
    it.  [None] is [null].  The catch block reads [err.name] first: on a
    thrown [null] or [undefined] that read throws a TypeError out of the
    block, before [onError] is looked at. *)
Definition trigger (script : list Exchange) (initialChatRequest : ChatRequest)
  : M (option string) :=
  try_catch
    (set_abortControllerRef true ;;
     function_call_loop script initialChatRequest ;;
     set_abortControllerRef false ;;
     latestMessage <- latest_message ;;
     ret (Some (msg_content latestMessage)))
    (fun thrown =>
       match thrown with
       | Nullish => throw TypeError
       | Object err =>
           if String.eqb (err_name err) "AbortError" then
             set_abortControllerRef false ;;
             ret None
           else
             when (onError opts && err_is_Error err) (emit (EvOnError err)) ;;
             throw err
       end).

(* ===================================================================== *)
(** * The public operations *)
(* ===================================================================== *)

(** [!message.id]: the id is missing or the empty string. *)
Definition id_missing (message : CreateMessage) : bool :=
  match cm_id message with
  | None => true
  | Some EmptyString => true
  | Some _ => false
  end.

(** [if (!message.id) { message.id = nanoid() }] and the cast to
    [Message]; [drawn] is what [nanoid()] returns when it is called. *)
Definition with_id (drawn : string) (message : CreateMessage) : Message :=
  {| msg_id := if id_missing message then drawn
               else match cm_id message with Some i => i | None => drawn end;
     msg_createdAt := cm_createdAt message;
     msg_content := cm_content message;
     msg_role := cm_role message;
     msg_name := cm_name message;
     msg_function_call := cm_function_call message |}.

Definition append (drawn : string) (script : list Exchange)
  (message : CreateMessage) (functions : option (list JValue))
  (function_call : option JValue) : M (option string) :=
  ref <- gets messagesRef ;;
  let chatRequest :=
    {| req_messages := ref ++ [with_id drawn message];
       req_functions := functions;
       req_function_call := function_call |} in
  trigger script chatRequest.

Definition reload (script : list Exchange) (functions : option (list JValue))
  (function_call : option JValue) : M (option string) :=
  ref <- gets messagesRef ;;
  match rev ref with
  | [] => ret None
  | lastMessage :: _ =>
      if Role_eqb (msg_role lastMessage) assistant then
        trigger script
          {| req_messages := removelast ref;
             req_functions := functions;
             req_function_call := function_call |}
      else
        trigger script
          {| req_messages := ref;
             req_functions := functions;
             req_function_call := function_call |}
  end.

End Controller.

Arguments Chunk {Uint8Array} value.
Arguments ReadRejects {Uint8Array} err.
Arguments StopCalled {Uint8Array}.
Arguments FetchRejects {Uint8Array} err.
Arguments FetchResolves {Uint8Array} res.
Arguments FetchPending {Uint8Array}.
Arguments unanswered {Uint8Array}.
Arguments Build_Response {Uint8Array}.
Arguments Build_Exchange {Uint8Array}.
Arguments Build_UseChatOptions {Uint8Array}.
Arguments res_ok {Uint8Array}.
Arguments res_text {Uint8Array}.
Arguments res_body {Uint8Array}.
Arguments x_stop_during_fetch {Uint8Array}.
Arguments x_fetch {Uint8Array}.
Arguments x_now {Uint8Array}.
Arguments x_nanoid {Uint8Array}.
Arguments sendExtraMessageFields {Uint8Array}.
Arguments functionCallHandler {Uint8Array}.
Arguments onResponse {Uint8Array}.
Arguments onFinish {Uint8Array}.
Arguments onError {Uint8Array}.
Arguments request_body {Uint8Array}.
Arguments read_loop {Uint8Array}.
Arguments getStreamedResponse {Uint8Array}.
Arguments function_call_loop {Uint8Array}.
Arguments trigger {Uint8Array}.
Arguments append {Uint8Array}.
Arguments reload {Uint8Array}.



(* ===================================================================== *)
(** * The input state and the form handlers *)
(* ===================================================================== *)

(** A call whose promise nobody awaits: the caller goes on, and the
    cells end up as the routine leaves them, whichever way it ends (a
    rejection stays with the promise). *)
Definition floating {A} (m : M A) (w : World) : World := snd (m w).

(** The state of the hook as a component holds it: the cells of the
    controller and the [input] of [useState(initialInput)]. *)
Record Hook : Type := {
  cells : World;
  input : string
}.

Definition setInput (value : string) (h : Hook) : Hook :=
  {| cells := cells h; input := value |}.

(** [handleInputChange]: [setInput(e.target.value)]. *)
Definition handleInputChange (e_target_value : string) (h : Hook) : Hook :=
  setInput e_target_value h.

(** Of the form event only [preventDefault] is used. *)
Record FormEvent : Type := {
  defaultPrevented : bool
}.

Definition preventDefault (e : FormEvent) : FormEvent :=
  {| defaultPrevented := true |}.

Section Form.
Context {U : Type} (decode : U -> string) (opts : UseChatOptions U).

(** [handleSubmit(e, functions)].  [now] is what [new Date()] returns and
    [drawn] what [nanoid()] would; the promise of [append] is dropped. *)
Definition handleSubmit (now : Z) (drawn : string) (script : list (Exchange U))
  (e : FormEvent) (functions : option (list JValue)) (h : Hook)
  : FormEvent * Hook :=
  let e := preventDefault e in
  match input h with
  | EmptyString => (e, h)
  | _ =>
      let h :=
        {| cells :=
             floating
               (append decode opts drawn script
                  {| cm_id := None; cm_createdAt := Some now;
                     cm_content := input h; cm_role := user;
                     cm_name := None; cm_function_call := None |}
                  functions None)
               (cells h);
           input := input h |} in
      (e, setInput "" h)
  end.

End Form.

(* ===================================================================== *)
(** * The chat panel (src/components/chat-panel.tsx) *)
(* ===================================================================== *)

(** The panel as it is written for this hook, where [append] takes the
    function definitions as its second argument. *)
Module ChatPanel.

(** The function definitions the panel sends with every message. *)
Definition functions : list JValue :=
  [JObject
     [("name", JString "get_current_weather");
      ("description", JString "Get the current weather");
      ("parameters",
       JObject
         [("type", JString "object");
          ("properties",
           JObject
             [("location",
               JObject
                 [("type", JString "string");
                  ("description",
                   JString "The city and state, e.g. San Francisco, CA")]);
              ("format",
               JObject
                 [("type", JString "string");
                  ("enum", JArray [JString "celsius"; JString "fahrenheit"]);
                  ("description",
                   JString "The temperature unit to use. Infer this from the users location.")])]);
          ("required", JArray [JString "location"; JString "format"])])]].

(** The button above the prompt. *)
Inductive Button : Type := StopGenerating | RegenerateResponse.

(** [isLoading ? <stop> : messages?.length > 0 && <reload>] *)
Definition button (isLoading : bool) (messages : list Message) : option Button :=
  if isLoading then Some StopGenerating
  else if (0 <? List.length messages)%nat then Some RegenerateResponse
  else None.

Section Panel.
Context {U : Type} (decode : U -> string) (opts : UseChatOptions U).

(** [onClick]: [() => stop()] and [() => reload()]; the promise of
    [reload] is dropped. *)
Definition onClick (b : Button) (script : list (Exchange U)) (w : World) : World :=
  match b with
  | StopGenerating => floating stop w
  | RegenerateResponse => floating (reload decode opts script None None) w
  end.

(** [onSubmit] of the prompt form:
    [async value => { await append({id, content: value, role: 'user'}, functions) }],
    [id] being the id of the chat. *)
Definition onSubmit (id : option string) (drawn : string)
  (script : list (Exchange U)) (value : string) : M unit :=
  append decode opts drawn script
    {| cm_id := id; cm_createdAt := None; cm_content := value; cm_role := user;
       cm_name := None; cm_function_call := None |}
    (Some functions) None ;;
  ret tt.

End Panel.

End ChatPanel.

(* ===================================================================== *)
(** * The vocabulary of the statements *)
(* ===================================================================== *)

(** No cache write follows a call of [abort] in the history. *)
Definition no_replace_after_stop (history : list Event) : Prop :=
  forall before after, history = before ++ EvAbort :: after ->
  forall data revalidate, ~ In (EvMutate data revalidate) after.

(** The accumulated texts after each chunk, starting from [acc]. *)
Fixpoint running {U} (decode : U -> string) (acc : string) (chunks : list U)
  : list string :=
  match chunks with
  | [] => []
  | c :: chunks' =>
      let acc' := (acc ++ decode c)%string in
      acc' :: running decode acc' chunks'
  end.

(** The chunks decoded and joined. *)
Definition join (texts : list string) : string := fold_right String.append "" texts.

Section Vocabulary.
Context {U : Type} (decode : U -> string) (opts : UseChatOptions U).

(** The [onResponse] callback, when there is one, returns without
    throwing on this response. *)
Definition response_accepted (res : Response U) : Prop :=
  match onResponse opts with
  | Some callback => callback res = None
  | None => True
  end.

(** The events of one request up to the end of the per-chunk loop, for a
    body of chunks read with the abort slot untouched. *)
Definition streaming_events (x : Exchange U) (req : ChatRequest) (chunks : list U)
  : list Event :=
  EvMutate (req_messages req) false
  :: EvFetch (request_body opts req)
  :: map (fun t => EvMutate (req_messages req
                               ++ [streaming_message (x_nanoid x) (x_now x) t]) false)
       (running decode "" chunks).

(** The cache after the per-chunk loop. *)
Definition streamed_store (x : Exchange U) (req : ChatRequest) (chunks : list U)
  : list Message :=
  last (map (fun t => req_messages req
                        ++ [streaming_message (x_nanoid x) (x_now x) t])
          (running decode "" chunks))
       (req_messages req).

(** [responseMessage] after the per-chunk loop. *)
Definition streamed_message (x : Exchange U) (chunks : list U) : option Message :=
  last (map (fun t => Some (streaming_message (x_nanoid x) (x_now x) t))
          (running decode "" chunks))
       None.

(** The call of [onFinish], when the callback is there. *)
Definition finish_events (responseMessage : option Message) : list Event :=
  if onFinish opts then [EvOnFinish responseMessage] else [].

(** The part of [getStreamedResponse] after the per-chunk loop, set
    apart for the proofs (lemma [gsr_reads] ties it to the routine). *)
Definition finish_request (x : Exchange U) (req : ChatRequest)
  (r : string * option Message) : M (option Message) :=
  let (result, responseMessage) := r in
  (if String.prefix function_call_marker result then
     match JSON_parse result with
     | None => throw JSON_SyntaxError
     | Some document =>
         match get_prop document "function_call" with
         | inl _ => throw TypeError
         | inr parsedFunctionCall =>
             mutate (req_messages req
                       ++ [parsed_message (x_nanoid x) (x_now x) parsedFunctionCall])
                    true
         end
     end
   else ret tt) ;;
  when (onFinish opts) (emit (EvOnFinish responseMessage)) ;;
  ret responseMessage.

(** The error built from a response with a non-success status. *)
Definition status_error (res : Response U) : JsError :=
  new_Error (match res_text res with
             | EmptyString => "Failed to fetch the chat response."
             | text => text
             end).

(** The request fails in transport, or its response has a non-success
    status (and the [onResponse] callback let it through). *)
Definition request_fails (x : Exchange U) (err : JsError) : Prop :=
  x_fetch x = FetchRejects err
  \/ exists res, x_fetch x = FetchResolves res /\ res_ok res = false
                 /\ response_accepted res /\ err = status_error res.

End Vocabulary.

(** The sequences that hold the message of [append] where it put it:
    right after the sequence it found. *)
Definition holds_message (found : list Message) (m : Message) (data : list Message)
  : Prop :=
  exists more, data = found ++ m :: more.

(** The cache values [append] may write for its own request: the
    sequence it found, or that sequence, the message, and more. *)
Definition keeps_message (found : list Message) (m : Message) (data : list Message)
  : Prop :=
  data = found \/ exists more, data = found ++ m :: more.

(** Conditions on what a routine writes: a routine only adds to the
    history, every cache value it writes satisfies [good], and so do the
    cells when it is done; and, for a routine that returns, that the
    cache it leaves satisfies [good] if the cache it found did. *)
Section WriteConditions.
Variable good : list Message -> Prop.

Definition good_event (e : Event) : Prop :=
  match e with
  | EvMutate data _ => good data
  | _ => True
  end.

Definition good_cells (w : World) : Prop :=
  good (swr_data w) /\ good (messagesRef w).

Definition writes_good {A} (m : M A) (w : World) : Prop :=
  exists evs,
    trace (snd (m w)) = trace w ++ evs /\ Forall good_event evs
    /\ good_cells (snd (m w)).

Definition returns_good {A} (m : M A) (w : World) : Prop :=
  good (swr_data w) ->
  forall a w1, m w = (Return a, w1) -> good (swr_data w1).

End WriteConditions.

(** A function-call handler under which [good] lasts: the request it
    returns has it when the request it was given does. *)
Definition handler_keeps {U : Type} (opts : UseChatOptions U)
  (good : list Message -> Prop) : Prop :=
  forall handler functionCall given next,
    functionCallHandler opts = Some handler ->
    handler functionCall given = inr next ->
    good (req_messages given) -> good (req_messages next).

(** With no condition on the data, what is left is that the history
    only grows. *)
Definition anything (_ : list Message) : Prop := True.

Definition grows {A} (m : M A) (w : World) : Prop := writes_good anything m w.


(** Two messages that agree on what the request body keeps of a
    message. *)
Definition same_fields (a b : Message) : Prop :=
  msg_role a = msg_role b /\ msg_content a = msg_content b
  /\ msg_name a = msg_name b /\ msg_function_call a = msg_function_call b.


(** The events of a request: every event but the calls of the handler
    and of [onError]. *)
Definition request_event (e : Event) : Prop :=
  match e with
  | EvHandler _ _ | EvOnError _ => False
  | _ => True
  end.

(** An event other than a call of [onError]. *)
Definition quiet (e : Event) : Prop :=
  match e with
  | EvOnError _ => False
  | _ => True
  end.

(** The handler is called for a function call that is not a string and
    that the last message of the request it is given carries. *)
Definition for_the_last_message (functionCall : JValue) (chatRequest : ChatRequest)
  : Prop :=
  is_string functionCall = false
  /\ exists l m, req_messages chatRequest = l ++ [m]
                 /\ msg_function_call m = Some functionCall.

Definition handler_call_ok (e : Event) : Prop :=
  match e with
  | EvHandler functionCall chatRequest =>
      for_the_last_message functionCall chatRequest
  | _ => True
  end.

(** A routine only adds events that satisfy [P] to the history. *)
Definition only_emits (P : Event -> Prop) {A} (m : M A) (w : World) : Prop :=
  exists evs, trace (snd (m w)) = trace w ++ evs /\ Forall P evs.

(* ===================================================================== *)
(** * Example data *)
(* ===================================================================== *)

Module Examples.

(** Chunks given by the text they decode to. *)
Definition decode_text (chunk : string) : string := chunk.

Definition no_options : UseChatOptions string :=
  {| sendExtraMessageFields := false; functionCallHandler := None;
     onResponse := None; onFinish := false; onError := false |}.

Definition hello : Message :=
  {| msg_id := "u1"; msg_createdAt := Some 1000%Z; msg_content := "What time is it?";
     msg_role := user; msg_name := None; msg_function_call := None |}.

Definition hello_request : ChatRequest :=
  {| req_messages := [hello]; req_functions := None; req_function_call := None |}.

Definition idle : World :=
  {| swr_data := []; messagesRef := []; abortControllerRef := false; trace := [] |}.

Definition responds (res : Response string) : Exchange string :=
  {| x_stop_during_fetch := false; x_fetch := FetchResolves res;
     x_now := 2000%Z; x_nanoid := "r1" |}.

Definition streamed (body : list (ReadEvent string)) : Response string :=
  {| res_ok := true; res_text := ""; res_body := Some body |}.

Definition streams (body : list (ReadEvent string)) : Exchange string :=
  responds (streamed body).

Definition time_call_text : string :=
  Eval cbv in unq "{'function_call':{'name':'get_current_time','arguments':'{}'}}".

Definition time_call : JValue :=
  JObject [("name", JString "get_current_time"); ("arguments", JString "{}")].

(** The same text in two chunks. *)
Definition time_call_chunks : list string :=
  Eval cbv in [unq "{'function_call':{'name':'get_cur";
               unq "rent_time','arguments':'{}'}}"].

(** A handler in the manner of the chat component: it answers with the
    messages it was given and a function message. *)
Definition clock_text : string := Eval cbv in unq "{'time':'12:00:00'}".

Definition clock_message : Message :=
  {| msg_id := "f1"; msg_createdAt := None;
     msg_content := clock_text;
     msg_role := function; msg_name := Some "get_current_time";
     msg_function_call := None |}.

Definition clock_handler (functionCall : JValue) (chatRequest : ChatRequest)
  : Thrown + ChatRequest :=
  inr {| req_messages := req_messages chatRequest ++ [clock_message];
         req_functions := None; req_function_call := None |}.

Definition with_clock : UseChatOptions string :=
  {| sendExtraMessageFields := false; functionCallHandler := Some clock_handler;
     onResponse := None; onFinish := false; onError := false |}.

Definition answer : Message :=
  {| msg_id := "a1"; msg_createdAt := Some 1500%Z; msg_content := "It is noon.";
     msg_role := assistant; msg_name := None; msg_function_call := None |}.

(** A settled conversation of two messages. *)
Definition chatting : World :=
  {| swr_data := [hello; answer]; messagesRef := [hello; answer];
     abortControllerRef := false; trace := [] |}.

Definition question : CreateMessage :=
  {| cm_id := None; cm_createdAt := Some 3000%Z; cm_content := "And now?";
     cm_role := user; cm_name := None; cm_function_call := None |}.

Definition question_with_id (i : string) : CreateMessage :=
  {| cm_id := Some i; cm_createdAt := Some 3000%Z; cm_content := "And now?";
     cm_role := user; cm_name := None; cm_function_call := None |}.

Definition server_error : Response string :=
  {| res_ok := false; res_text := "Internal Server Error"; res_body := None |}.

Definition no_body : Response string :=
  {| res_ok := true; res_text := ""; res_body := None |}.

Definition AbortError : JsError :=
  {| err_name := "AbortError"; err_message := "The user aborted a request.";
     err_is_Error := true |}.

End Examples.

(* ===================================================================== *)
(** * More example data *)
(* ===================================================================== *)

Module Sessions.
Import Examples.

(** The user stops while the fetch is pending, and the fetch rejects. *)
Definition aborted : Exchange string :=
  {| x_stop_during_fetch := true; x_fetch := FetchRejects AbortError;
     x_now := 2000%Z; x_nanoid := "r1" |}.

Definition unauthorized : JsError := new_Error "Unauthorized".

(** An [onResponse] callback that lets no response through. *)
Definition guarded : UseChatOptions string :=
  {| sendExtraMessageFields := false; functionCallHandler := None;
     onResponse := Some (fun _ => Some (Object unauthorized));
     onFinish := false; onError := true |}.

Definition no_clock : JsError := new_Error "No clock here.".

Definition broken_clock_handler (functionCall : JValue) (chatRequest : ChatRequest)
  : Thrown + ChatRequest :=
  inl (Object no_clock).

Definition with_broken_clock : UseChatOptions string :=
  {| sendExtraMessageFields := false;
     functionCallHandler := Some broken_clock_handler;
     onResponse := None; onFinish := false; onError := true |}.

(** A reply whose [function_call] is a string. *)
Definition none_call_text : string := Eval cbv in unq "{'function_call':'none'}".

(** What follows the opening brace in that reply. *)
Definition none_call_rest : string := Eval cbv in unq "'function_call':'none'}".

(** The time call cut off in the middle of its arguments. *)
Definition cut_off : string := Eval cbv in unq "rent_time','argu".

Definition connection_lost : JsError :=
  {| err_name := "TypeError"; err_message := "network error";
     err_is_Error := true |}.

(** The message of [hello] with its function call, as the handler sees
    it. *)
Definition called : Message := parsed_message "r1" 2000 (Some time_call).

Definition clock_request : ChatRequest :=
  {| req_messages := [hello; called; clock_message];
     req_functions := None; req_function_call := None |}.

(** A conversation begun from the panel of the chat [c1]. *)
Definition asked : Message :=
  {| msg_id := "c1"; msg_createdAt := None; msg_content := "What time is it?";
     msg_role := user; msg_name := None; msg_function_call := None |}.

Definition in_panel : World :=
  {| swr_data := [asked; answer]; messagesRef := [asked; answer];
     abortControllerRef := false; trace := [] |}.

(** The user has typed a text into the form of a settled conversation. *)
Definition typing (text : string) : Hook := {| cells := chatting; input := text |}.

Definition submit : FormEvent := {| defaultPrevented := false |}.

(** The same message under another id and date. *)
Definition hello_again : Message :=
  {| msg_id := "u9"; msg_createdAt := None; msg_content := "What time is it?";
     msg_role := user; msg_name := None; msg_function_call := None |}.

(** A conversation whose first message the caller sent under an id of
    their own. *)
Definition sent_before : Message := with_id "u2" (question_with_id "Vx3kQ9a").

Definition resumed : World :=
  {| swr_data := [sent_before; answer]; messagesRef := [sent_before; answer];
     abortControllerRef := false; trace := [] |}.

(** A handler that answers with copies of the messages it was given,
    each under an id of its own, and a function message. *)
Definition copied (m : Message) : Message :=
  {| msg_id := ("copy of " ++ msg_id m)%string; msg_createdAt := msg_createdAt m;
     msg_content := msg_content m; msg_role := msg_role m;
     msg_name := msg_name m; msg_function_call := msg_function_call m |}.

Definition copying_handler (functionCall : JValue) (chatRequest : ChatRequest)
  : Thrown + ChatRequest :=
  inr {| req_messages := map copied (req_messages chatRequest) ++ [clock_message];
         req_functions := None; req_function_call := None |}.

Definition with_copying_clock : UseChatOptions string :=
  {| sendExtraMessageFields := false;
     functionCallHandler := Some copying_handler;
     onResponse := None; onFinish := false; onError := false |}.

Definition with_onFinish : UseChatOptions string :=
  {| sendExtraMessageFields := false; functionCallHandler := None;
     onResponse := None; onFinish := true; onError := false |}.

(** The cells when [onFinish] is called for the function-call reply to
    [hello]: the parsed message has just been written to the cache and
    no render has brought it to the mirror yet. *)
Definition at_onFinish : World :=
  snd (getStreamedResponse decode_text with_onFinish
         (streams (map Chunk time_call_chunks)) hello_request (with_slot true idle)).

End Sessions.

(* ===================================================================== *)
(** * Facts about [JSON.parse] *)
(* ===================================================================== *)

Lemma append_nil_r (s : string) : (s ++ "")%string = s.
Proof. induction s as [|c s IH]; simpl; [|rewrite IH]; reflexivity. Qed.

Lemma append_assoc (a b c : string) : ((a ++ b) ++ c)%string = (a ++ b ++ c)%string.
Proof. induction a as [|x a IH]; simpl; [|rewrite IH]; reflexivity. Qed.

Module JsonFacts.

Lemma skip_ws_length s : String.length (skip_ws s) <= String.length s.
Proof.
  induction s as [|c s IH]; cbn; [lia|].
  destruct (is_ws c); cbn; lia.
Qed.

Lemma skip_ws_cons s c r :
  skip_ws s = String c r -> String.length r < String.length s.
Proof.
  intros H. pose proof (skip_ws_length s) as Hl. rewrite H in Hl. cbn in Hl. lia.
Qed.

Lemma with_prefix_some p r s rest :
  with_prefix p r = Some (s, rest) -> exists s', r = Some (s', rest).
Proof.
  destruct r as [[s' rest']|]; cbn; [|discriminate].
  intros H. injection H as _ <-. now exists s'.
Qed.

Lemma parse_string_chars_length n : forall s str rest,
  String.length s <= n ->
  parse_string_chars s = Some (str, rest) ->
  String.length rest < String.length s.
Proof.
  induction n as [|n IH]; intros s str rest Hn H.
  - destruct s; [discriminate|cbn in Hn; lia].
  - destruct s as [|c r]; [discriminate|]. cbn [parse_string_chars] in H.
    cbn [String.length] in *.
    destruct (Ascii.eqb c dquote); [injection H as _ <-; lia|].
    destruct (Ascii.eqb c backslash).
    + destruct r as [|e r1]; [discriminate|]. cbn [String.length] in *.
      destruct (Ascii.eqb e "u").
      * destruct r1 as [|h1 [|h2 [|h3 [|h4 r2]]]]; try discriminate.
        cbn [String.length] in *.
        destruct (hex4 h1 h2 h3 h4) as [u|]; [|discriminate].
        assert (Halone : forall str', with_prefix (utf8 u) (parse_string_chars r2)
                                      = Some (str', rest) ->
                                      String.length rest < String.length r2).
        { intros str' H'. apply with_prefix_some in H' as (s' & H').
          eapply IH; [|exact H']. lia. }
        destruct (is_high_surrogate u); [|apply Halone in H; lia].
        destruct r2 as [|b1 [|b2 [|l1 [|l2 [|l3 [|l4 r3]]]]]];
          try (apply Halone in H; cbn [String.length] in *; lia).
        destruct (Ascii.eqb b1 backslash && Ascii.eqb b2 "u");
          [|apply Halone in H; cbn [String.length] in *; lia].
        destruct (hex4 l1 l2 l3 l4) as [v|];
          [|apply Halone in H; cbn [String.length] in *; lia].
        destruct (is_low_surrogate v);
          [|apply Halone in H; cbn [String.length] in *; lia].
        apply with_prefix_some in H as (s' & H').
        apply IH in H'; cbn [String.length] in *; lia.
      * destruct (simple_escape e); [|discriminate].
        apply with_prefix_some in H as (s' & H').
        apply IH in H'; lia.
    + destruct (is_control c); [discriminate|].
      apply with_prefix_some in H as (s' & H').
      apply IH in H'; lia.
Qed.

Lemma take_digits_length s : forall d rest,
  take_digits s = (d, rest) ->
  String.length rest + String.length d = String.length s.
Proof.
  induction s as [|c s IH]; intros d rest H; cbn in H.
  - injection H as <- <-. reflexivity.
  - destruct (is_digit c).
    + destruct (take_digits s) as [d' rest'] eqn:E. injection H as <- <-.
      cbn. rewrite <- (IH d' rest' eq_refl). lia.
    + injection H as <- <-. cbn. lia.
Qed.

Lemma parse_sign_length s sign rest :
  parse_sign s = (sign, rest) -> String.length rest <= String.length s.
Proof.
  unfold parse_sign. destruct s as [|c r]; [intros H; injection H as _ <-; lia|].
  destruct (Ascii.eqb c "-"); intros H; injection H as _ <-; cbn; lia.
Qed.

Lemma parse_frac_length s frac rest :
  parse_frac s = Some (frac, rest) -> String.length rest <= String.length s.
Proof.
  unfold parse_frac. destruct s as [|c r]; [intros H; injection H as _ <-; lia|].
  destruct (Ascii.eqb c "."); [|intros H; injection H as _ <-; lia].
  destruct (take_digits r) as [d rest0] eqn:E. apply take_digits_length in E.
  destruct d; [discriminate|]. intros H. injection H as _ <-.
  cbn [String.length]. lia.
Qed.

Lemma parse_exp_sign_length s sg rest :
  parse_exp_sign s = (sg, rest) -> String.length rest <= String.length s.
Proof.
  unfold parse_exp_sign.
  destruct s as [|c r]; [intros H; injection H as _ <-; lia|].
  destruct (Ascii.eqb c "+" || Ascii.eqb c "-");
    intros H; injection H as _ <-; cbn; lia.
Qed.

Lemma parse_exp_length s ex rest :
  parse_exp s = Some (ex, rest) -> String.length rest <= String.length s.
Proof.
  unfold parse_exp. destruct s as [|c r]; [intros H; injection H as _ <-; lia|].
  destruct (Ascii.eqb c "e" || Ascii.eqb c "E"); [|intros H; injection H as _ <-; lia].
  destruct (parse_exp_sign r) as [sg r'] eqn:Esg. apply parse_exp_sign_length in Esg.
  destruct (take_digits r') as [d rest0] eqn:E. apply take_digits_length in E.
  destruct d; [discriminate|]. intros H. injection H as _ <-.
  cbn [String.length]. lia.
Qed.

Lemma parse_number_length s lexeme rest :
  parse_number s = Some (lexeme, rest) ->
  String.length rest < String.length s.
Proof.
  unfold parse_number.
  destruct (parse_sign s) as [sign s1] eqn:Esign. apply parse_sign_length in Esign.
  destruct (take_digits s1) as [int s2] eqn:Eint. apply take_digits_length in Eint.
  destruct int as [|i0 int']; [discriminate|]. cbn [String.length] in Eint.
  destruct (negb (int_ok (String i0 int'))); [discriminate|].
  destruct (parse_frac s2) as [[frac s3]|] eqn:Efrac; [|discriminate].
  apply parse_frac_length in Efrac.
  destruct (parse_exp s3) as [[ex s4]|] eqn:Eexp; [|discriminate].
  apply parse_exp_length in Eexp. intros H. injection H as _ <-. lia.
Qed.

Lemma strip_prefix_length p : forall s rest,
  strip_prefix p s = Some rest -> String.length rest <= String.length s.
Proof.
  induction p as [|a p IH]; intros s rest H; cbn in H.
  - injection H as <-. lia.
  - destruct s as [|b s]; [discriminate|].
    destruct (Ascii.eqb a b); [|discriminate]. apply IH in H. cbn. lia.
Qed.

Lemma parse_string_chars_shorter s str rest :
  parse_string_chars s = Some (str, rest) ->
  String.length rest < String.length s.
Proof. apply (parse_string_chars_length (String.length s)). lia. Qed.

Ltac lengths :=
  repeat match goal with
  | H : skip_ws _ = String _ _ |- _ => apply skip_ws_cons in H
  | H : parse_string_chars _ = Some _ |- _ => apply parse_string_chars_shorter in H
  | H : strip_prefix _ _ = Some _ |- _ => apply strip_prefix_length in H
  | H : parse_number _ = Some _ |- _ => apply parse_number_length in H
  end.

Ltac split_match H :=
  repeat match type of H with
  | context [match ?x with _ => _ end] => destruct x eqn:?; try discriminate H
  | context [if ?b then _ else _] => destruct b eqn:?; try discriminate H
  end.

(** A value that parses leaves less text than it was given. *)
Lemma parse_consumes fuel :
  (forall s v r, parse_value fuel s = Parsed v r ->
                 String.length r < String.length s)
  /\ (forall s acc v r, parse_elements fuel s acc = Parsed v r ->
                        String.length r < String.length s)
  /\ (forall s acc v r, parse_members fuel s acc = Parsed v r ->
                        String.length r < String.length s).
Proof.
  induction fuel as [|fuel (IHv & IHe & IHm)];
    [repeat split; intros; discriminate|].
  split; [|split].
  - intros s v r H. cbn [parse_value] in H. split_match H;
      repeat match goal with
      | H' : parse_members fuel _ _ = Parsed _ _ |- _ => apply IHm in H'
      | H' : parse_elements fuel _ _ = Parsed _ _ |- _ => apply IHe in H'
      end;
      try (injection H as _ <-); lengths; cbn [String.length] in *; lia.
  - intros s acc v r H. cbn [parse_elements] in H.
    destruct (parse_value fuel s) as [v1 r1| |] eqn:E1; try discriminate.
    apply IHv in E1. split_match H;
      repeat match goal with
      | H' : parse_elements fuel _ _ = Parsed _ _ |- _ => apply IHe in H'
      end;
      try (injection H as _ <-); lengths; lia.
  - intros s acc v r H. cbn [parse_members] in H.
    destruct (skip_ws s) as [|q r0] eqn:E0; [discriminate|].
    destruct (Ascii.eqb q dquote); [|discriminate].
    destruct (parse_string_chars r0) as [[key r1]|] eqn:E1; [|discriminate].
    destruct (skip_ws r1) as [|colon r2] eqn:E2; [discriminate|].
    destruct (Ascii.eqb colon ":"); [|discriminate].
    destruct (parse_value fuel r2) as [v1 r3| |] eqn:E3; try discriminate.
    apply IHv in E3.
    destruct (skip_ws r3) as [|c r4] eqn:E4; [discriminate|].
    destruct (Ascii.eqb c ",").
    + apply IHm in H. lengths. lia.
    + destruct (Ascii.eqb c "}"); [|discriminate].
      injection H as _ <-. lengths. lia.
Qed.

(** With the budget [JSON_parse] hands out, the recursion never runs
    out: a [None] of [JSON_parse] is a syntax error. *)
Lemma parse_fuel_enough fuel :
  (forall s, 2 * String.length s + 1 <= fuel -> parse_value fuel s <> OutOfFuel)
  /\ (forall s acc, 2 * String.length s + 2 <= fuel ->
                    parse_elements fuel s acc <> OutOfFuel)
  /\ (forall s acc, 2 * String.length s + 2 <= fuel ->
                    parse_members fuel s acc <> OutOfFuel).
Proof.
  induction fuel as [|fuel (IHv & IHe & IHm)];
    [repeat split; intros; lia|].
  destruct (parse_consumes fuel) as (Cv & Ce & Cm).
  split; [|split].
  - intros s Hs. cbn [parse_value].
    destruct (skip_ws s) as [|c r0] eqn:E0; [discriminate|].
    apply skip_ws_cons in E0.
    destruct (Ascii.eqb c "{").
    { destruct (skip_ws r0) as [|c' r'] eqn:E1; [discriminate|].
      destruct (Ascii.eqb c' "}"); [discriminate|]. apply IHm. lia. }
    destruct (Ascii.eqb c "[").
    { destruct (skip_ws r0) as [|c' r'] eqn:E1; [discriminate|].
      destruct (Ascii.eqb c' "]"); [discriminate|]. apply IHe. lia. }
    destruct (Ascii.eqb c dquote);
      [destruct (parse_string_chars r0) as [[]|]; discriminate|].
    destruct (Ascii.eqb c "t"); [destruct (strip_prefix "rue" r0); discriminate|].
    destruct (Ascii.eqb c "f"); [destruct (strip_prefix "alse" r0); discriminate|].
    destruct (Ascii.eqb c "n"); [destruct (strip_prefix "ull" r0); discriminate|].
    destruct (parse_number (String c r0)) as [[]|]; discriminate.
  - intros s acc Hs. cbn [parse_elements].
    destruct (parse_value fuel s) as [v1 r1| |] eqn:E1;
      [|discriminate|exfalso; apply (IHv s); [lia|exact E1]].
    apply Cv in E1.
    destruct (skip_ws r1) as [|c r'] eqn:E2; [discriminate|].
    apply skip_ws_cons in E2.
    destruct (Ascii.eqb c ","); [apply IHe; lia|].
    destruct (Ascii.eqb c "]"); discriminate.
  - intros s acc Hs. cbn [parse_members].
    destruct (skip_ws s) as [|q r0] eqn:E0; [discriminate|].
    destruct (Ascii.eqb q dquote); [|discriminate].
    destruct (parse_string_chars r0) as [[key r1]|] eqn:E1; [|discriminate].
    destruct (skip_ws r1) as [|colon r2] eqn:E2; [discriminate|].
    destruct (Ascii.eqb colon ":"); [|discriminate].
    lengths.
    destruct (parse_value fuel r2) as [v1 r3| |] eqn:E3;
      [|discriminate|exfalso; apply (IHv r2); [lia|exact E3]].
    apply Cv in E3.
    destruct (skip_ws r3) as [|c r4] eqn:E4; [discriminate|].
    apply skip_ws_cons in E4.
    destruct (Ascii.eqb c ","); [apply IHm; lia|].
    destruct (Ascii.eqb c "}"); discriminate.
Qed.

Lemma JSON_parse_fuel (text : string) :
  parse_value (parse_fuel text) text <> OutOfFuel.
Proof. apply parse_fuel_enough. unfold parse_fuel. lia. Qed.

(** [JSON.parse] fails on a syntax error or on text left over. *)
Lemma JSON_parse_None (text : string) :
  JSON_parse text = None ->
  parse_value (parse_fuel text) text = SyntaxError
  \/ exists v rest,
       parse_value (parse_fuel text) text = Parsed v rest
       /\ skip_ws rest <> "".
Proof.
  unfold JSON_parse. pose proof (JSON_parse_fuel text) as Hfuel.
  destruct (parse_value (parse_fuel text) text) as [v rest| |];
    [|now left|congruence].
  destruct (skip_ws rest) as [|c rest'] eqn:E; [discriminate|]. intros _. right.
  exists v, rest. split; [reflexivity|]. now rewrite E.
Qed.

(** Reading back what [escape] wrote. *)
Lemma parse_escape (s : string) : forall rest,
  parse_string_chars (escape s ++ String dquote rest) = Some (s, rest).
Proof.
  induction s as [|c s IH]; intros rest; [reflexivity|].
  cbn [escape]. rewrite append_assoc. unfold dquote in *.
  destruct c as [[] [] [] [] [] [] [] []];
    cbn; rewrite IH; reflexivity.
Qed.

Lemma JSON_parse_envelope (name arguments : string) :
  JSON_parse (envelope name arguments)
  = Some (JObject [("function_call",
                    JObject [("name", JString name);
                             ("arguments", JString arguments)])]).
Proof.
  unfold JSON_parse.
  assert (Hfuel : exists k, parse_fuel (envelope name arguments) = 6 + k).
  { unfold parse_fuel, envelope, envelope_open. cbn [String.append String.length].
    eexists (_ : nat). cbn [Nat.mul Nat.add]. rewrite !Nat.add_succ_r.
    cbn [Nat.add]. reflexivity. }
  destruct Hfuel as (k & ->).
  unfold envelope, envelope_open, envelope_mid, envelope_close.
  cbn. rewrite parse_escape. cbn. rewrite parse_escape. reflexivity.
Qed.

End JsonFacts.

(* ===================================================================== *)
(** * Reading a stream of chunks *)
(* ===================================================================== *)

Lemma last_cons {A} (l : list A) : forall a d, last (a :: l) d = last l a.
Proof.
  induction l as [|b l IH]; intros a d; [reflexivity|].
  change (last (a :: b :: l) d) with (last (b :: l) d).
  rewrite (IH b d), (IH b a). reflexivity.
Qed.

Lemma last_map {A B} (f : A -> B) (l : list A) (d : A) :
  last (map f l) (f d) = f (last l d).
Proof.
  induction l as [|a l IH]; [reflexivity|].
  cbn [map]. rewrite !last_cons. clear IH. revert a.
  induction l as [|b l IH]; intros a; [reflexivity|].
  cbn [map]. rewrite !last_cons. apply IH.
Qed.

Lemma last_in {A} (l : list A) : forall a d, In (last (a :: l) d) (a :: l).
Proof.
  induction l as [|b l IH]; intros a d; [now left|].
  right. change (last (a :: b :: l) d) with (last (b :: l) d). apply IH.
Qed.

(** The text after the k-th chunk is the first k chunks joined. *)
Lemma running_firstn {U} (decode : U -> string) (chunks : list U) : forall acc,
  running decode acc chunks =
  map (fun k => (acc ++ join (map decode (firstn k chunks)))%string)
      (seq 1 (List.length chunks)).
Proof.
  induction chunks as [|c chunks IH]; intros acc; [reflexivity|].
  cbn [running List.length seq map]. f_equal.
  - cbn. now rewrite append_nil_r.
  - rewrite IH, <- (seq_shift (List.length chunks) 1), map_map. apply map_ext.
    intros k. cbn. now rewrite append_assoc.
Qed.

Lemma running_last {U} (decode : U -> string) (chunks : list U) : forall acc,
  last (running decode acc chunks) acc = (acc ++ join (map decode chunks))%string.
Proof.
  induction chunks as [|c chunks IH]; intros acc; cbn [running map join fold_right].
  - now rewrite append_nil_r.
  - rewrite last_cons, IH. apply append_assoc.
Qed.

Lemma running_joined {U} (decode : U -> string) (chunks : list U) :
  last (running decode "" chunks) "" = join (map decode chunks).
Proof. apply (running_last decode chunks ""). Qed.

Ltac run :=
  unfold bind, ret, throw, suspended, gets, modify, mutate, emit, await, when,
    stop, set_abortControllerRef, try_catch, latest_message;
  simpl.

Lemma bind_gets {A B} (f : World -> A) (k : A -> M B) w :
  bind (gets f) k w = k (f w) w.
Proof. reflexivity. Qed.

Lemma bind_mutate {B} data revalidate (k : unit -> M B) w :
  bind (mutate data revalidate) k w =
  k tt {| swr_data := data; messagesRef := messagesRef w;
          abortControllerRef := abortControllerRef w;
          trace := trace w ++ [EvMutate data revalidate] |}.
Proof. reflexivity. Qed.

Lemma bind_emit {B} e (k : unit -> M B) w :
  bind (emit e) k w =
  k tt {| swr_data := swr_data w; messagesRef := messagesRef w;
          abortControllerRef := abortControllerRef w;
          trace := trace w ++ [e] |}.
Proof. reflexivity. Qed.

Section Reading.
Context {U : Type} (decode : U -> string).
Variables (messages : list Message) (replyId : string) (createdAt : Z).

Local Abbreviation sm := (streaming_message replyId createdAt).
Local Abbreviation store_after := (fun t : string => messages ++ [sm t]).

(** Every turn of the loop starts at a suspension point, so what
    [messagesRef] holds on entry does not matter. *)
Lemma read_loop_await body acc rm w :
  read_loop decode messages replyId createdAt body acc rm w =
  read_loop decode messages replyId createdAt body acc rm (render w).
Proof. destruct body as [|[v|e|] body]; reflexivity. Qed.

(** A run of chunks read while the abort slot holds its controller: one
    cache write per chunk, then the loop goes on with what follows. *)
Lemma read_loop_chunks chunks : forall body acc rm w,
  abortControllerRef w = true ->
  read_loop decode messages replyId createdAt (map Chunk chunks ++ body) acc rm w =
  read_loop decode messages replyId createdAt body
    (last (running decode acc chunks) acc)
    (last (map (fun t => Some (sm t)) (running decode acc chunks)) rm)
    (let store := last (map store_after (running decode acc chunks)) (swr_data w) in
     {| swr_data := store; messagesRef := store; abortControllerRef := true;
        trace := trace w
                 ++ map (fun t => EvMutate (store_after t) false)
                      (running decode acc chunks) |}).
Proof.
  induction chunks as [|c chunks IH]; intros body acc rm w Hslot.
  - simpl. rewrite app_nil_r, <- Hslot. apply read_loop_await.
  - cbn [map app running]. rewrite !last_cons.
    cbn [read_loop]. run. rewrite Hslot.
    rewrite IH by reflexivity. cbn [swr_data trace].
    rewrite <- app_assoc. reflexivity.
Qed.

(** The whole body is chunks: the loop ends on the read that reports
    [done]. *)
Lemma read_loop_all_chunks chunks acc rm w :
  abortControllerRef w = true ->
  read_loop decode messages replyId createdAt (map Chunk chunks) acc rm w =
  (Return (last (running decode acc chunks) acc,
           last (map (fun t => Some (sm t)) (running decode acc chunks)) rm),
   let store := last (map store_after (running decode acc chunks)) (swr_data w) in
   {| swr_data := store; messagesRef := store; abortControllerRef := true;
      trace := trace w
               ++ map (fun t => EvMutate (store_after t) false)
                    (running decode acc chunks) |}).
Proof.
  intros Hslot.
  rewrite <- (app_nil_r (map Chunk chunks)).
  rewrite read_loop_chunks by assumption. reflexivity.
Qed.

(** [stop] is called while a read is pending, after a run of chunks. *)
Lemma read_loop_stop chunks body acc rm w :
  abortControllerRef w = true ->
  read_loop decode messages replyId createdAt
    (map Chunk chunks ++ StopCalled :: body) acc rm w =
  read_loop decode messages replyId createdAt body
    (last (running decode acc chunks) acc)
    (last (map (fun t => Some (sm t)) (running decode acc chunks)) rm)
    (let store := last (map store_after (running decode acc chunks)) (swr_data w) in
     {| swr_data := store; messagesRef := store; abortControllerRef := false;
        trace := trace w
                 ++ map (fun t => EvMutate (store_after t) false)
                      (running decode acc chunks)
                 ++ [EvAbort] |}).
Proof.
  intros Hslot. rewrite read_loop_chunks by assumption.
  cbn [read_loop]. run. now rewrite <- app_assoc.
Qed.

End Reading.

(* ===================================================================== *)
(** * One request whose body is read to its end *)
(* ===================================================================== *)

Section Requests.
Context {U : Type} (decode : U -> string) (opts : UseChatOptions U).

(** A request whose fetch resolves with a body: the routine is the
    per-chunk loop and [finish_request], run after the optimistic write
    and the fetch. *)
Lemma gsr_reads x res body req w :
  x_stop_during_fetch x = false ->
  x_fetch x = FetchResolves res ->
  res_ok res = true ->
  res_body res = Some body ->
  response_accepted opts res ->
  getStreamedResponse decode opts x req w =
  bind (read_loop decode (req_messages req) (x_nanoid x) (x_now x) body "" None)
       (finish_request opts x req)
       {| swr_data := req_messages req; messagesRef := req_messages req;
          abortControllerRef := abortControllerRef w;
          trace := trace w ++ [EvMutate (req_messages req) false;
                               EvFetch (request_body opts req)] |}.
Proof.
  intros Hstop Hfetch Hok Hbody Hacc.
  unfold getStreamedResponse. rewrite Hstop, Hfetch, Hok, Hbody.
  unfold response_accepted in Hacc.
  rewrite bind_gets, bind_mutate, bind_emit.
  unfold await at 1. unfold modify at 1. unfold bind at 1.
  unfold when at 1. unfold ret at 1. unfold bind at 1.
  destruct (onResponse opts) as [cb|]; [rewrite Hacc|];
    unfold ret at 1; unfold bind at 1; cbn [negb render swr_data messagesRef
      abortControllerRef trace]; rewrite <- app_assoc; reflexivity.
Qed.

Section OneRequest.
Variables (x : Exchange U) (res : Response U) (chunks : list U).
Variables (req : ChatRequest) (w : World).
Hypothesis Hslot : abortControllerRef w = true.
Hypothesis Hstop : x_stop_during_fetch x = false.
Hypothesis Hfetch : x_fetch x = FetchResolves res.
Hypothesis Hok : res_ok res = true.
Hypothesis Hbody : res_body res = Some (map Chunk chunks).
Hypothesis Haccepted : response_accepted opts res.

Local Abbreviation text := (last (running decode "" chunks) "").

Ltac enter :=
  unfold getStreamedResponse; rewrite Hstop, Hfetch, Hok, Hbody;
  pose proof Haccepted as Hacc; unfold response_accepted in Hacc; run;
  destruct (onResponse opts) as [cb|]; [rewrite Hacc|]; simpl;
  (rewrite read_loop_all_chunks by assumption);
  unfold streamed_store, streamed_message, streaming_events, finish_events.

(** Plain content. *)
Lemma gsr_content :
  String.prefix function_call_marker text = false ->
  getStreamedResponse decode opts x req w =
  (Return (streamed_message decode x chunks),
   {| swr_data := streamed_store decode x req chunks;
      messagesRef := streamed_store decode x req chunks;
      abortControllerRef := true;
      trace := trace w ++ streaming_events decode opts x req chunks
               ++ finish_events opts (streamed_message decode x chunks) |}).
Proof.
  intros Hplain. enter; rewrite Hplain; run;
    destruct (onFinish opts); run;
    rewrite <- ?app_assoc; simpl; rewrite ?app_nil_r; reflexivity.
Qed.

(** A function call whose text parses. *)
Lemma gsr_function_call document parsedFunctionCall :
  String.prefix function_call_marker text = true ->
  JSON_parse text = Some document ->
  get_prop document "function_call" = inr parsedFunctionCall ->
  getStreamedResponse decode opts x req w =
  (Return (streamed_message decode x chunks),
   {| swr_data := req_messages req
                  ++ [parsed_message (x_nanoid x) (x_now x) parsedFunctionCall];
      messagesRef := streamed_store decode x req chunks;
      abortControllerRef := true;
      trace := trace w ++ streaming_events decode opts x req chunks
               ++ EvMutate (req_messages req
                              ++ [parsed_message (x_nanoid x) (x_now x)
                                    parsedFunctionCall]) true
                  :: finish_events opts (streamed_message decode x chunks) |}).
Proof.
  intros Hcall Hparse Hprop. enter; rewrite Hcall, Hparse, Hprop; run;
    destruct (onFinish opts); run;
    rewrite <- ?app_assoc; simpl; rewrite <- ?app_assoc; reflexivity.
Qed.

(** A function call whose text does not parse. *)
Lemma gsr_malformed :
  String.prefix function_call_marker text = true ->
  JSON_parse text = None ->
  getStreamedResponse decode opts x req w =
  (Throw JSON_SyntaxError,
   {| swr_data := streamed_store decode x req chunks;
      messagesRef := streamed_store decode x req chunks;
      abortControllerRef := true;
      trace := trace w ++ streaming_events decode opts x req chunks |}).
Proof.
  intros Hcall Hparse. enter; rewrite Hcall, Hparse; run;
    rewrite <- ?app_assoc; reflexivity.
Qed.

End OneRequest.
End Requests.

(* ===================================================================== *)
(** * The loop after one request *)
(* ===================================================================== *)

Lemma bind_return {A B} (m : M A) (k : A -> M B) w a w' :
  m w = (Return a, w') -> bind m k w = k a w'.
Proof. intros H. unfold bind. now rewrite H. Qed.

Lemma bind_throw {A B} (m : M A) (k : A -> M B) w e w' :
  m w = (Throw e, w') -> bind m k w = (Throw e, w').
Proof. intros H. unfold bind. now rewrite H. Qed.

Section Loop.
Context {U : Type} (decode : U -> string) (opts : UseChatOptions U).

Lemma streamed_store_nonempty (x : Exchange U) req c chunks :
  streamed_store decode x req (c :: chunks) =
  req_messages req
    ++ [streaming_message (x_nanoid x) (x_now x)
          (join (map decode (c :: chunks)))].
Proof.
  unfold streamed_store.
  rewrite <- running_joined.
  cbn [running map]. rewrite !last_cons.
  apply (last_map (fun t => req_messages req
                              ++ [streaming_message (x_nanoid x) (x_now x) t])).
Qed.

Lemma streamed_message_nonempty (x : Exchange U) c chunks :
  streamed_message decode x (c :: chunks) =
  Some (streaming_message (x_nanoid x) (x_now x) (join (map decode (c :: chunks)))).
Proof.
  unfold streamed_message.
  rewrite <- running_joined.
  cbn [running map]. rewrite !last_cons.
  apply (last_map (fun t => Some (streaming_message (x_nanoid x) (x_now x) t))).
Qed.

Lemma latest_message_last (l : list Message) (m : Message) w :
  messagesRef w = l ++ [m] -> latest_message w = (Return m, w).
Proof. intros H. unfold latest_message. run. now rewrite H, rev_unit. Qed.

(** The request returned and the last message ends the loop. *)
Lemma loop_break x script req w r w1 l m :
  getStreamedResponse decode opts x req w = (Return r, w1) ->
  swr_data w1 = l ++ [m] ->
  loop_breaks m = true ->
  function_call_loop decode opts (x :: script) req w = (Return tt, render w1).
Proof.
  intros Hreq Hstore Hbreak. cbn [function_call_loop].
  rewrite (bind_return _ _ _ _ _ Hreq).
  unfold await at 1. unfold modify at 1. unfold bind at 1.
  rewrite (bind_return _ _ _ _ _ (latest_message_last l m (render w1) Hstore)).
  now rewrite Hbreak.
Qed.

Lemma loop_throw x script req w e w1 :
  getStreamedResponse decode opts x req w = (Throw e, w1) ->
  function_call_loop decode opts (x :: script) req w = (Throw e, w1).
Proof. intros Hreq. cbn [function_call_loop]. now apply bind_throw. Qed.

(** The fetcher around the loop: the three ways it ends. *)
Lemma trigger_return script req w w1 l m :
  function_call_loop decode opts script req (with_slot true w) = (Return tt, w1) ->
  messagesRef w1 = l ++ [m] ->
  trigger decode opts script req w
  = (Return (Some (msg_content m)), with_slot false w1).
Proof.
  intros Hloop Href. unfold trigger, try_catch.
  unfold set_abortControllerRef at 1. unfold modify at 1. unfold bind at 1.
  rewrite (bind_return _ _ _ _ _ Hloop).
  unfold set_abortControllerRef at 1. unfold modify at 1. unfold bind at 1.
  rewrite (bind_return _ _ _ _ _ (latest_message_last l m (with_slot false w1) Href)).
  reflexivity.
Qed.

Lemma trigger_throw script req w w1 (e : JsError) :
  function_call_loop decode opts script req (with_slot true w) = (Throw e, w1) ->
  String.eqb (err_name e) "AbortError" = false ->
  trigger decode opts script req w
  = (Throw e,
     {| swr_data := swr_data w1; messagesRef := messagesRef w1;
        abortControllerRef := abortControllerRef w1;
        trace := trace w1
                 ++ (if onError opts && err_is_Error e then [EvOnError e] else []) |}).
Proof.
  intros Hloop Hname. unfold trigger, try_catch.
  unfold set_abortControllerRef at 1. unfold modify at 1. unfold bind at 1.
  rewrite (bind_throw _ _ _ _ _ Hloop). cbv beta iota. rewrite Hname.
  destruct (onError opts && err_is_Error e); run; [reflexivity|].
  rewrite app_nil_r. now destruct w1.
Qed.

Lemma trigger_abort script req w w1 (e : JsError) :
  function_call_loop decode opts script req (with_slot true w) = (Throw e, w1) ->
  String.eqb (err_name e) "AbortError" = true ->
  trigger decode opts script req w = (Return None, with_slot false w1).
Proof.
  intros Hloop Hname. unfold trigger, try_catch.
  unfold set_abortControllerRef at 1. unfold modify at 1. unfold bind at 1.
  rewrite (bind_throw _ _ _ _ _ Hloop). cbv beta iota. now rewrite Hname.
Qed.

Lemma trigger_nullish script req w w1 :
  function_call_loop decode opts script req (with_slot true w) = (Throw Nullish, w1) ->
  trigger decode opts script req w = (Throw TypeError, w1).
Proof.
  intros Hloop. unfold trigger, try_catch.
  unfold set_abortControllerRef at 1. unfold modify at 1. unfold bind at 1.
  now rewrite (bind_throw _ _ _ _ _ Hloop).
Qed.

End Loop.

(* ===================================================================== *)
(** * What a routine writes *)
(* ===================================================================== *)

(** A routine only adds to the history, and every cache value it writes
    satisfies [good], as long as the cells did on entry. *)
Section Writes.
Context {U : Type} (decode : U -> string) (opts : UseChatOptions U).
Variable good : list Message -> Prop.

Lemma wg_stay {A} (c : Completion A) w :
  good_cells good w -> writes_good good (fun w => (c, w)) w.
Proof. intros H. exists []. cbn. now rewrite app_nil_r. Qed.

Lemma wg_bind {A B} (m : M A) (k : A -> M B) w :
  writes_good good m w ->
  (forall a w1, m w = (Return a, w1) -> good_cells good w1 ->
                writes_good good (k a) w1) ->
  writes_good good (bind m k) w.
Proof.
  intros (evs & Htr & Hev & Hc) Hk. unfold writes_good, bind.
  destruct (m w) as [[a|e|] w1] eqn:E; cbn [snd] in *.
  - destruct (Hk a w1 eq_refl Hc) as (evs' & Htr' & Hev' & Hc').
    exists (evs ++ evs'). rewrite Htr', Htr, app_assoc.
    repeat split; try apply Hc'. now apply Forall_app.
  - now exists evs.
  - now exists evs.
Qed.

Lemma wg_modify (f : World -> World) w :
  trace (f w) = trace w -> good_cells good (f w) -> writes_good good (modify f) w.
Proof. intros Htr Hc. exists []. cbn. now rewrite app_nil_r. Qed.

Lemma wg_emit e w : good_event good e -> good_cells good w -> writes_good good (emit e) w.
Proof. intros He Hc. exists [e]. cbn. repeat split; try apply Hc. now constructor. Qed.

Lemma wg_mutate data revalidate w :
  good data -> good (messagesRef w) -> writes_good good (mutate data revalidate) w.
Proof.
  intros Hd Hr. exists [EvMutate data revalidate]. cbn.
  repeat split; try assumption. now constructor.
Qed.

Lemma wg_await w : good (swr_data w) -> writes_good good await w.
Proof. intros H. apply wg_modify; [reflexivity|now split]. Qed.

Lemma wg_stop w : good_cells good w -> writes_good good stop w.
Proof.
  intros Hc. unfold stop. apply wg_bind; [now apply (wg_stay (Return _))|].
  intros slot w1 E Hc1. destruct slot; [|now apply (wg_stay (Return tt))].
  apply wg_bind; [now apply wg_emit|].
  intros _ w2 _ Hc2. now apply wg_modify.
Qed.

Lemma wg_when (b : bool) (m : M unit) w :
  good_cells good w -> (b = true -> writes_good good m w) -> writes_good good (when b m) w.
Proof.
  intros Hc Hm. destruct b; [now apply Hm|now apply (wg_stay (Return tt))].
Qed.

Section OfRequest.
Variable messages : list Message.
Hypothesis good_reply : forall m, good (messages ++ [m]).

Lemma read_loop_writes replyId createdAt body : forall acc rm w,
  good_cells good w ->
  writes_good good (read_loop decode messages replyId createdAt body acc rm) w.
Proof.
  induction body as [|[value|err|] body IH]; intros acc rm w Hc; cbn [read_loop].
  - apply wg_bind; [apply wg_await, Hc|]. intros _ w1 _ Hc1.
    now apply (wg_stay (Return _)).
  - apply wg_bind; [apply wg_await, Hc|]. intros _ w1 _ Hc1.
    apply wg_bind; [apply wg_mutate; [apply good_reply|apply Hc1]|].
    intros _ w2 _ Hc2.
    apply wg_bind; [now apply (wg_stay (Return _))|].
    intros slot w3 _ Hc3. destruct slot; [now apply IH|].
    apply wg_bind; [now apply wg_emit|]. intros _ w4 _ Hc4.
    now apply (wg_stay (Return _)).
  - apply wg_bind; [apply wg_await, Hc|]. intros _ w1 _ Hc1.
    now apply (wg_stay (Throw _)).
  - apply wg_bind; [apply wg_await, Hc|]. intros _ w1 _ Hc1.
    apply wg_bind; [now apply wg_stop|]. intros _ w2 _ Hc2. now apply IH.
Qed.

End OfRequest.

Lemma wg_gets_bind {A B} (f : World -> A) (k : A -> M B) w :
  writes_good good (k (f w)) w -> writes_good good (bind (gets f) k) w.
Proof. intros H. exact H. Qed.

Lemma wg_latest_message w : good_cells good w -> writes_good good latest_message w.
Proof.
  intros Hc. unfold latest_message. apply wg_gets_bind.
  destruct (rev (messagesRef w)); now apply wg_stay.
Qed.

(** One request: the optimistic write and the fetch come first; every
    later write is the snapshot or the request's messages and a reply. *)
Lemma getStreamedResponse_writes x req w :
  good (req_messages req) ->
  (forall m, good (req_messages req ++ [m])) ->
  good (messagesRef w) ->
  exists evs,
    trace (snd (getStreamedResponse decode opts x req w))
    = trace w ++ EvMutate (req_messages req) false
                 :: EvFetch (request_body opts req) :: evs
    /\ Forall (good_event good) evs
    /\ good_cells good (snd (getStreamedResponse decode opts x req w)).
Proof.
  intros Hreq Hreply Href. unfold getStreamedResponse.
  rewrite bind_gets, bind_mutate, bind_emit.
  match goal with
  | |- context [snd (?K ?w2)] => assert (Hrest : writes_good good K w2)
  end.
  { assert (Hc2 : good_cells good
                    {| swr_data := req_messages req; messagesRef := messagesRef w;
                       abortControllerRef := abortControllerRef w;
                       trace := (trace w ++ [EvMutate (req_messages req) false])
                                ++ [EvFetch (request_body opts req)] |})
      by now split.
    apply wg_bind; [apply wg_await, Hc2|]. intros _ w3 _ Hc3.
    apply wg_bind; [apply wg_when; [assumption|intros _; now apply wg_stop]|].
    intros _ w4 _ Hc4.
    destruct (x_fetch x) as [err|res|].
    - apply wg_bind; [apply wg_mutate; [assumption|apply Hc4]|].
      intros _ w5 _ Hc5.
      apply wg_bind; [apply wg_await, Hc5|]. intros _ w6 _ Hc6.
      now apply (wg_stay (Throw _)).
    - apply wg_bind.
      { destruct (onResponse opts) as [callback|];
          [destruct (callback res)|]; now apply wg_stay. }
      intros _ w5 _ Hc5. destruct (negb (res_ok res)).
      { apply wg_bind; [apply wg_mutate; [assumption|apply Hc5]|].
        intros _ w6 _ Hc6.
        apply wg_bind; [apply wg_await, Hc6|]. intros _ w7 _ Hc7.
        now apply (wg_stay (Throw _)). }
      destruct (res_body res) as [body|]; [|now apply (wg_stay (Throw _))].
      apply wg_bind; [now apply read_loop_writes|].
      intros [result responseMessage] w6 _ Hc6.
      apply wg_bind.
      { destruct (String.prefix function_call_marker result);
          [|now apply (wg_stay (Return _))].
        destruct (JSON_parse result) as [document|];
          [|now apply (wg_stay (Throw _))].
        destruct (get_prop document "function_call") as [|parsedFunctionCall];
          [now apply (wg_stay (Throw _))|].
        apply wg_mutate; [apply Hreply|apply Hc6]. }
      intros _ w7 _ Hc7.
      apply wg_bind; [apply wg_when; [assumption|intros _; now apply wg_emit]|].
      intros _ w8 _ Hc8. now apply (wg_stay (Return _)).
    - now apply (wg_stay Suspended). }
  destruct Hrest as (evs & Htr & Hev & Hc). exists evs.
  split; [|split; [exact Hev|exact Hc]].
  rewrite Htr. cbn [trace]. now rewrite <- !app_assoc.
Qed.

End Writes.

Lemma anything_cells w : good_cells anything w.
Proof. split; exact I. Qed.

Lemma anything_events evs : Forall (good_event anything) evs.
Proof. induction evs as [|[] evs IH]; constructor; try exact I; exact IH. Qed.

#[local] Hint Resolve anything_cells anything_events : core.

Section LoopWrites.
Context {U : Type} (decode : U -> string) (opts : UseChatOptions U).

Lemma getStreamedResponse_grows x req w :
  grows (getStreamedResponse decode opts x req) w.
Proof.
  destruct (getStreamedResponse_writes decode opts anything x req w I (fun _ => I) I)
    as (evs & Htr & _ & _).
  eexists. split; [exact Htr|]. split; auto.
Qed.

(** What follows [await getStreamedResponse(chatRequest)] in a turn of
    the loop, given that the later turns only add to the history. *)
Ltac loop_tail_grows later :=
  apply wg_bind; [apply wg_await; exact I|]; intros _ ? _ _;
  apply wg_bind; [apply wg_latest_message; auto|]; intros latest ? _ _;
  destruct (loop_breaks latest); [apply (wg_stay anything (Return tt)); auto|];
  destruct (functionCallHandler opts) as [handler|]; [|apply later];
  destruct (msg_function_call latest) as [functionCall|]; [|apply later];
  apply wg_gets_bind;
  apply wg_bind; [apply wg_emit; [exact I|auto]|]; intros _ ? _ _;
  apply wg_bind; [apply wg_await; exact I|]; intros _ ? _ _;
  destruct (handler functionCall _) as [err|next];
  [apply (wg_stay anything (Throw err)); auto|apply later].

Lemma function_call_loop_grows script : forall req w,
  grows (function_call_loop decode opts script req) w.
Proof.
  induction script as [|x script IH]; intros req w; cbn [function_call_loop].
  - apply wg_bind; [apply getStreamedResponse_grows|].
    intros _ w1 _ _. apply (wg_stay anything Suspended); auto.
  - apply wg_bind; [apply getStreamedResponse_grows|]. intros _ w1 _ _.
    loop_tail_grows IH.
Qed.

Lemma begins_bind {A B} (m : M A) (k : A -> M B) w pre :
  (exists evs, trace (snd (m w)) = trace w ++ pre ++ evs) ->
  (forall a w1, grows (k a) w1) ->
  exists evs, trace (snd (bind m k w)) = trace w ++ pre ++ evs.
Proof.
  intros (evs & Htr) Hk. unfold bind.
  destruct (m w) as [[a|e|] w1]; cbn [snd] in *; [|now exists evs..].
  destruct (Hk a w1) as (evs' & Htr' & _).
  exists (evs ++ evs'). now rewrite Htr', Htr, <- !app_assoc.
Qed.

(** Every turn of the loop starts with the optimistic write of its
    request and the fetch. *)
Lemma function_call_loop_begins script req w :
  exists evs,
    trace (snd (function_call_loop decode opts script req w))
    = trace w ++ [EvMutate (req_messages req) false;
                  EvFetch (request_body opts req)] ++ evs.
Proof.
  assert (Hreq : forall x, exists evs,
             trace (snd (getStreamedResponse decode opts x req w))
             = trace w ++ [EvMutate (req_messages req) false;
                           EvFetch (request_body opts req)] ++ evs).
  { intros x.
    destruct (getStreamedResponse_writes decode opts anything x req w
                I (fun _ => I) I) as (evs & Htr & _).
    now exists evs. }
  destruct script as [|x script]; cbn [function_call_loop];
    (apply begins_bind; [apply Hreq|]); intros _ w1.
  - apply (wg_stay anything Suspended); auto.
  - loop_tail_grows (function_call_loop_grows script).
Qed.

(** The catch block of the fetcher adds at most the [onError] call. *)
Lemma trigger_grows script req w :
  exists evs,
    trace (snd (trigger decode opts script req w))
    = trace (snd (function_call_loop decode opts script req (with_slot true w)))
      ++ evs
    /\ forall e, In e evs -> exists err, e = EvOnError err.
Proof.
  unfold trigger, try_catch.
  unfold set_abortControllerRef at 1. unfold modify at 1. unfold bind at 1.
  unfold bind at 1.
  destruct (function_call_loop decode opts script req (with_slot true w))
    as [[[]|[err|]|] w1]; cbn [snd].
  - unfold latest_message. run. destruct (rev (messagesRef w1)); cbn.
    + destruct (onError opts); cbn.
      * exists [EvOnError TypeError]. split; [reflexivity|].
        intros e [<-|[]]. now exists TypeError.
      * exists []. split; [now rewrite app_nil_r|intros e []].
    + exists []. split; [now rewrite app_nil_r|intros e []].
  - destruct (String.eqb (err_name err) "AbortError").
    + run. exists []. split; [now rewrite app_nil_r|intros e []].
    + destruct (onError opts && err_is_Error err); run.
      * exists [EvOnError err]. split; [reflexivity|].
        intros e [<-|[]]. now exists err.
      * exists []. split; [now rewrite app_nil_r|intros e []].
  - run. exists []. split; [now rewrite app_nil_r|intros e []].
  - exists []. split; [now rewrite app_nil_r|intros e []].
Qed.

Lemma trigger_begins script req w :
  exists evs,
    trace (snd (trigger decode opts script req w))
    = trace w ++ [EvMutate (req_messages req) false;
                  EvFetch (request_body opts req)] ++ evs.
Proof.
  destruct (trigger_grows script req w) as (evs' & Htr' & _).
  destruct (function_call_loop_begins script req (with_slot true w)) as (evs & Htr).
  exists (evs ++ evs'). rewrite Htr', Htr. cbn [trace with_slot].
  now rewrite <- !app_assoc.
Qed.

End LoopWrites.

(** The cache a routine leaves when it returns. *)
Section Returns.
Context {U : Type} (decode : U -> string) (opts : UseChatOptions U).
Variable good : list Message -> Prop.

Lemma rg_stay {A} (c : Completion A) w : returns_good good (fun w => (c, w)) w.
Proof. intros Hg a w1 H. now injection H as _ <-. Qed.

Lemma rg_bind {A B} (m : M A) (k : A -> M B) w :
  returns_good good m w ->
  (forall a w1, m w = (Return a, w1) -> returns_good good (k a) w1) ->
  returns_good good (bind m k) w.
Proof.
  intros Hm Hk Hg b w2. unfold bind.
  destruct (m w) as [[a|e|] w1] eqn:E; try discriminate.
  intros H. exact (Hk a w1 eq_refl (Hm Hg a w1 E) b w2 H).
Qed.

Lemma rg_modify (f : World -> World) w :
  swr_data (f w) = swr_data w -> returns_good good (modify f) w.
Proof. intros Hf Hg a w1 H. injection H as _ <-. now rewrite Hf. Qed.

Lemma rg_emit e w : returns_good good (emit e) w.
Proof. now apply rg_modify. Qed.

Lemma rg_mutate data revalidate w :
  good data -> returns_good good (mutate data revalidate) w.
Proof. intros Hd _ a w1 H. now injection H as _ <-. Qed.

Lemma rg_stop w : returns_good good stop w.
Proof.
  unfold stop. apply rg_bind; [apply (rg_stay (Return _))|].
  intros slot w1 _. destruct slot; [|apply (rg_stay (Return tt))].
  apply rg_bind; [apply rg_emit|]. intros _ w2 _. now apply rg_modify.
Qed.

Lemma rg_when (b : bool) (m : M unit) w :
  returns_good good m w -> returns_good good (when b m) w.
Proof. intros Hm. destruct b; [exact Hm|apply (rg_stay (Return tt))]. Qed.

Lemma read_loop_returns messages replyId createdAt body :
  (forall m, good (messages ++ [m])) ->
  forall acc rm w,
    returns_good good (read_loop decode messages replyId createdAt body acc rm) w.
Proof.
  intros Hreply.
  induction body as [|[value|err|] body IH]; intros acc rm w; cbn [read_loop];
    (apply rg_bind; [now apply rg_modify|]); intros _ w1 _.
  - apply (rg_stay (Return _)).
  - apply rg_bind; [apply rg_mutate, Hreply|]. intros _ w2 _.
    apply rg_bind; [apply (rg_stay (Return _))|]. intros slot w3 _.
    destruct slot; [apply IH|].
    apply rg_bind; [apply rg_emit|]. intros _ w4 _. apply (rg_stay (Return _)).
  - apply (rg_stay (Throw _)).
  - apply rg_bind; [apply rg_stop|]. intros _ w2 _. apply IH.
Qed.

(** A request that returns leaves the messages of the request in the
    cache, alone or followed by the message of the reply: the rollback
    is written on the ways out that throw. *)
Lemma getStreamedResponse_returns x req w r w1 :
  good (req_messages req) ->
  (forall m, good (req_messages req ++ [m])) ->
  getStreamedResponse decode opts x req w = (Return r, w1) ->
  good (swr_data w1).
Proof.
  intros Hreq Hreply. unfold getStreamedResponse.
  rewrite bind_gets, bind_mutate, bind_emit.
  match goal with
  | |- ?K ?w2 = _ -> _ => assert (Hrest : returns_good good K w2)
  end.
  { apply rg_bind; [now apply rg_modify|]. intros _ w3 _.
    apply rg_bind; [apply rg_when, rg_stop|]. intros _ w4 _.
    destruct (x_fetch x) as [err|res|].
    - intros _ a w5. run. discriminate.
    - apply rg_bind.
      { destruct (onResponse opts) as [callback|];
          [destruct (callback res)|]; apply rg_stay. }
      intros _ w5 _. destruct (negb (res_ok res)).
      { intros _ a w6. run. discriminate. }
      destruct (res_body res) as [body|]; [|apply (rg_stay (Throw _))].
      apply rg_bind; [now apply read_loop_returns|].
      intros [result responseMessage] w6 _.
      apply rg_bind.
      { destruct (String.prefix function_call_marker result);
          [|apply (rg_stay (Return _))].
        destruct (JSON_parse result) as [document|];
          [|apply (rg_stay (Throw _))].
        destruct (get_prop document "function_call") as [|parsedFunctionCall];
          [apply (rg_stay (Throw _))|].
        apply rg_mutate, Hreply. }
      intros _ w7 _.
      apply rg_bind; [apply rg_when, rg_emit|].
      intros _ w8 _. apply (rg_stay (Return _)).
    - apply (rg_stay Suspended). }
  intros H. exact (Hrest Hreq r w1 H).
Qed.

End Returns.

(** The writes of the loop under a handler that keeps [good]. *)
Section AllWrites.
Context {U : Type} (decode : U -> string) (opts : UseChatOptions U).
Variable good : list Message -> Prop.
Hypothesis good_reply : forall data m, good data -> good (data ++ [m]).
Hypothesis good_handler : handler_keeps opts good.

Lemma getStreamedResponse_good x req w :
  good (req_messages req) ->
  good (messagesRef w) ->
  writes_good good (getStreamedResponse decode opts x req) w.
Proof.
  intros Hreq Href.
  destruct (getStreamedResponse_writes decode opts good x req w
              Hreq (fun m => good_reply _ m Hreq) Href) as (evs & Htr & Hev & Hc).
  eexists. split; [exact Htr|]. split; [|exact Hc].
  constructor; [exact Hreq|]. constructor; [exact I|exact Hev].
Qed.

(** What follows [await getStreamedResponse(chatRequest)] in a turn of
    the loop, from cells that satisfy [good]. *)
Lemma loop_tail_writes (later : ChatRequest -> M unit) req w :
  good (req_messages req) ->
  good_cells good w ->
  (forall next w1, good (req_messages next) -> good_cells good w1 ->
                   writes_good good (later next) w1) ->
  writes_good good
    (await ;;
     latestMessage <- latest_message ;;
     if loop_breaks latestMessage then ret tt
     else
       match functionCallHandler opts, msg_function_call latestMessage with
       | Some handler, Some functionCall =>
           ref <- gets messagesRef ;;
           let argument :=
             {| req_messages := ref;
                req_functions := req_functions req;
                req_function_call := req_function_call req |} in
           emit (EvHandler functionCall argument) ;;
           await ;;
           match handler functionCall argument with
           | inl err => throw err
           | inr functionCallResponseMessage => later functionCallResponseMessage
           end
       | _, _ => later req
       end) w.
Proof.
  intros Hreq Hc Hlater.
  apply wg_bind; [apply wg_await, Hc|]. intros _ w2 _ Hc2.
  apply wg_bind; [now apply wg_latest_message|]. intros latest w3 _ Hc3.
  destruct (loop_breaks latest); [now apply (wg_stay good (Return tt))|].
  destruct (functionCallHandler opts) as [handler|] eqn:Hh; [|now apply Hlater].
  destruct (msg_function_call latest) as [functionCall|]; [|now apply Hlater].
  apply wg_gets_bind.
  apply wg_bind; [apply wg_emit; [exact I|exact Hc3]|]. intros _ w4 _ Hc4.
  apply wg_bind; [apply wg_await, Hc4|]. intros _ w5 _ Hc5.
  destruct (handler functionCall _) as [err|next] eqn:Hnext;
    [now apply (wg_stay good (Throw err))|].
  apply Hlater; [|exact Hc5].
  apply (good_handler handler functionCall _ next Hh Hnext). apply Hc3.
Qed.

Lemma function_call_loop_writes script : forall req w,
  good (req_messages req) ->
  good_cells good w ->
  writes_good good (function_call_loop decode opts script req) w.
Proof.
  induction script as [|x script IH]; intros req w Hreq Hc; cbn [function_call_loop].
  - apply wg_bind; [apply getStreamedResponse_good; [exact Hreq|apply Hc]|].
    intros _ w1 _ Hc1. now apply (wg_stay good Suspended).
  - apply wg_bind; [apply getStreamedResponse_good; [exact Hreq|apply Hc]|].
    intros _ w1 _ Hc1. now apply loop_tail_writes.
Qed.

End AllWrites.

Lemma writes_good_weaken (good good' : list Message -> Prop) {A} (m : M A) w :
  (forall data, good data -> good' data) ->
  writes_good good m w -> writes_good good' m w.
Proof.
  intros Himp (evs & Htr & Hev & Hs & Hr). exists evs.
  split; [exact Htr|]. split; [|split; auto].
  apply Forall_forall. intros e He.
  apply (proj1 (Forall_forall _ _) Hev) in He. destruct e; cbn in *; auto.
Qed.

(** The submission of [append]: the request is the sequence found and
    the message.  Every cache value written is that sequence, written
    back when the first request fails, or holds the message after it. *)
Section AppendWrites.
Context {U : Type} (decode : U -> string) (opts : UseChatOptions U).
Variables (found : list Message) (m : Message).
Hypothesis good_handler : handler_keeps opts (holds_message found m).

Local Abbreviation holds := (holds_message found m).
Local Abbreviation keeps := (keeps_message found m).

Lemma holds_reply data r : holds data -> holds (data ++ [r]).
Proof. intros (more & ->). exists (more ++ [r]). now rewrite <- app_assoc. Qed.

Lemma holds_keeps data : holds data -> keeps data.
Proof. intros H. now right. Qed.

Lemma append_loop_writes script (req : ChatRequest) w :
  req_messages req = found ++ [m] ->
  messagesRef w = found ->
  writes_good keeps (function_call_loop decode opts script req) w.
Proof.
  intros Hreq Href.
  assert (Hholds : holds (req_messages req)) by (rewrite Hreq; now exists []).
  assert (Hfirst : forall x,
             writes_good keeps (getStreamedResponse decode opts x req) w).
  { intros x.
    destruct (getStreamedResponse_writes decode opts keeps x req w)
      as (evs & Htr & Hev & Hc).
    - now apply holds_keeps.
    - intros r. now apply holds_keeps, holds_reply.
    - now left.
    - eexists. split; [exact Htr|]. split; [|exact Hc].
      constructor; [now apply holds_keeps|]. constructor; [exact I|exact Hev]. }
  destruct script as [|x script]; cbn [function_call_loop].
  - apply wg_bind; [apply Hfirst|]. intros _ w1 _ Hc1.
    now apply (wg_stay keeps Suspended).
  - apply wg_bind; [apply Hfirst|]. intros r w1 Hret _.
    apply (writes_good_weaken holds keeps); [apply holds_keeps|].
    assert (Hstore : holds (swr_data w1)).
    { apply (getStreamedResponse_returns decode opts holds x req w r w1);
        [exact Hholds|intros r'; now apply holds_reply|exact Hret]. }
    match goal with
    | |- writes_good _ ?tail _ =>
        assert (Htail : writes_good holds tail (render w1))
    end.
    { apply (loop_tail_writes opts holds good_handler
               (function_call_loop decode opts script) req (render w1) Hholds).
      - split; exact Hstore.
      - intros next w2 Hnext Hc2.
        now apply (function_call_loop_writes decode opts holds holds_reply
                     good_handler). }
    destruct Htail as (evs & Htr & Hev & Hc). exists evs.
    split; [exact Htr|]. split; [exact Hev|exact Hc].
Qed.

Lemma append_trigger_writes script (req : ChatRequest) w :
  req_messages req = found ++ [m] ->
  messagesRef w = found ->
  exists evs,
    trace (snd (trigger decode opts script req w)) = trace w ++ evs
    /\ Forall (good_event keeps) evs.
Proof.
  intros Hreq Href.
  destruct (trigger_grows decode opts script req w) as (evs' & Htr' & Hev').
  destruct (append_loop_writes script req (with_slot true w) Hreq Href)
    as (evs & Htr & Hev & _).
  exists (evs ++ evs'). rewrite Htr', Htr. cbn [trace with_slot].
  split; [now rewrite app_assoc|].
  apply Forall_app. split; [exact Hev|].
  apply Forall_forall. intros e He. destruct (Hev' e He) as (err & ->). exact I.
Qed.

End AppendWrites.

(* ===================================================================== *)
(** * Properties of the controller *)
(* ===================================================================== *)

Section Claims.
Context {U : Type} (decode : U -> string) (opts : UseChatOptions U).

(** C7.  A reply whose accumulated text never starts with the
    function-call marker: after the k-th chunk the cache holds the
    request's messages followed by one message of role assistant, with no
    name and no function call, whose content is the first k chunks
    decoded and joined; that message carries the same id, the one drawn
    for the reply ([x_nanoid x]), and the same date in every state; the
    submission returns the full text, which is the content of the last
    state. *)
Theorem plain_stream_accumulates
  (x : Exchange U) (res : Response U) (c : U) (chunks : list U)
  (script : list (Exchange U)) (req : ChatRequest) (w : World) :
  x_stop_during_fetch x = false ->
  x_fetch x = FetchResolves res ->
  res_ok res = true ->
  res_body res = Some (map Chunk (c :: chunks)) ->
  response_accepted opts res ->
  (forall k, String.prefix function_call_marker
               (join (map decode (firstn k (c :: chunks)))) = false) ->
  let reply := fun text : string =>
    {| msg_id := x_nanoid x; msg_createdAt := Some (x_now x);
       msg_content := text; msg_role := assistant; msg_name := None;
       msg_function_call := None |} in
  let full := join (map decode (c :: chunks)) in
  exists w',
    trigger decode opts (x :: script) req w = (Return (Some full), w') /\
    swr_data w' = req_messages req ++ [reply full] /\
    trace w' =
      trace w
      ++ EvMutate (req_messages req) false
         :: EvFetch (request_body opts req)
         :: map (fun k => EvMutate
                            (req_messages req
                               ++ [reply (join (map decode (firstn k (c :: chunks))))])
                            false)
              (seq 1 (List.length (c :: chunks)))
      ++ finish_events opts (Some (reply full)).
Proof.
  intros Hstop Hfetch Hok Hbody Hacc Hnever reply full.
  assert (Hplain : forall t, In t (running decode "" (c :: chunks)) ->
                             String.prefix function_call_marker t = false).
  { intros t Ht. rewrite running_firstn in Ht.
    apply in_map_iff in Ht as (k & <- & _). apply Hnever. }
  assert (Hfull : String.prefix function_call_marker full = false).
  { apply Hplain. unfold full. rewrite <- running_joined.
    cbn [running]. apply last_in. }
  pose proof (gsr_content decode opts x res (c :: chunks) req (with_slot true w)
                eq_refl Hstop Hfetch Hok Hbody Hacc) as Hreq.
  rewrite running_joined in Hreq. specialize (Hreq Hfull).
  rewrite streamed_message_nonempty, streamed_store_nonempty in Hreq.
  fold full in Hreq. unfold streaming_message in Hreq. rewrite Hfull in Hreq.
  change (content_message (x_nanoid x) (x_now x) full) with (reply full) in Hreq.
  pose proof (loop_break decode opts x script req _ _ _ (req_messages req)
                (reply full) Hreq eq_refl eq_refl) as Hloop.
  pose proof (trigger_return decode opts _ _ _ _ (req_messages req) (reply full)
                Hloop eq_refl) as Hrun.
  eexists. split; [exact Hrun|]. split; [reflexivity|].
  cbn [trace with_slot render]. f_equal. unfold streaming_events.
  rewrite app_comm_cons. rewrite (app_comm_cons _ _ (EvMutate (req_messages req) false)).
  f_equal. f_equal. f_equal.
  rewrite (map_ext_in _
             (fun t => EvMutate (req_messages req ++ [reply t]) false)).
  - rewrite running_firstn, map_map. reflexivity.
  - intros t Ht. unfold streaming_message. now rewrite (Hplain t Ht).
Qed.

Lemma failed_request x req w err :
  request_fails opts x err ->
  exists w1,
    getStreamedResponse decode opts x req w = (Throw err, w1)
    /\ swr_data w1 = messagesRef w
    /\ trace w1 = trace w
                  ++ ([EvMutate (req_messages req) false;
                       EvFetch (request_body opts req)]
                      ++ (if x_stop_during_fetch x && abortControllerRef w
                          then [EvAbort] else []))
                  ++ [EvMutate (messagesRef w) false].
Proof.
  intros [Hfetch|(res & Hfetch & Hok & Hacc & ->)];
    unfold getStreamedResponse; rewrite Hfetch.
  - destruct (x_stop_during_fetch x), (abortControllerRef w) eqn:Hslot;
      run; rewrite ?Hslot; run; eexists;
      (split; [reflexivity|]); (split; [reflexivity|]); cbn [trace];
      rewrite <- !app_assoc; reflexivity.
  - rewrite Hok. unfold response_accepted in Hacc.
    destruct (onResponse opts) as [cb|]; [rewrite Hacc|];
      destruct (x_stop_during_fetch x), (abortControllerRef w) eqn:Hslot;
      run; rewrite ?Hslot; run; eexists;
      (split; [reflexivity|]); (split; [reflexivity|]); cbn [trace];
      rewrite <- !app_assoc; reflexivity.
Qed.


(** C3 (what the code does).  A response with a success status and no
    body makes the submission throw, but the cache is not written back:
    it keeps the messages of the request, and the only cache write of the
    submission is the optimistic one. *)
Theorem empty_body_is_not_rolled_back
  (x : Exchange U) (res : Response U) (script : list (Exchange U))
  (req : ChatRequest) (w : World) :
  x_fetch x = FetchResolves res ->
  res_ok res = true ->
  res_body res = None ->
  response_accepted opts res ->
  exists w',
    trigger decode opts (x :: script) req w
    = (Throw (new_Error "The response body is empty."), w')
    /\ swr_data w' = req_messages req
    /\ trace w' = trace w
                  ++ [EvMutate (req_messages req) false;
                      EvFetch (request_body opts req)]
                  ++ (if x_stop_during_fetch x then [EvAbort] else [])
                  ++ (if onError opts
                      then [EvOnError (new_Error "The response body is empty.")]
                      else []).
Proof.
  intros Hfetch Hok Hbody Hacc.
  unfold trigger, try_catch. cbn [function_call_loop].
  unfold getStreamedResponse. rewrite Hfetch, Hok, Hbody.
  unfold response_accepted in Hacc.
  destruct (onResponse opts) as [cb|]; [rewrite Hacc|];
    destruct (x_stop_during_fetch x), (onError opts); run;
    eexists; (split; [reflexivity|]); (split; [reflexivity|]);
    cbn [trace]; rewrite <- !app_assoc; reflexivity.
Qed.

(** C10.  A success response whose body reports [done] on the first
    read: the routine returns [undefined], [onFinish] (when there is one)
    is called with [undefined], and the only cache write is the
    optimistic one, so no assistant message enters the cache. *)
Theorem empty_stream_returns_undefined
  (x : Exchange U) (res : Response U) (req : ChatRequest) (w : World) :
  x_fetch x = FetchResolves res ->
  res_ok res = true ->
  res_body res = Some [] ->
  response_accepted opts res ->
  exists w',
    getStreamedResponse decode opts x req w = (Return None, w')
    /\ swr_data w' = req_messages req
    /\ trace w' = trace w
                  ++ [EvMutate (req_messages req) false;
                      EvFetch (request_body opts req)]
                  ++ (if x_stop_during_fetch x && abortControllerRef w
                      then [EvAbort] else [])
                  ++ (if onFinish opts then [EvOnFinish None] else []).
Proof.
  intros Hfetch Hok Hbody Hacc.
  unfold getStreamedResponse. rewrite Hfetch, Hok, Hbody.
  unfold response_accepted in Hacc.
  destruct (onResponse opts) as [cb|]; [rewrite Hacc|];
    destruct (x_stop_during_fetch x), (abortControllerRef w) eqn:Hslot,
      (onFinish opts); run; rewrite ?Hslot; run;
    eexists; (split; [reflexivity|]); (split; [reflexivity|]);
    cbn [trace]; rewrite <- !app_assoc; reflexivity.
Qed.

Lemma prefix_app (p a b : string) :
  String.prefix p a = true -> String.prefix p (a ++ b)%string = true.
Proof.
  revert a. induction p as [|c p IH]; intros a H;
    [now destruct (a ++ b)%string|].
  destruct a as [|d a]; [discriminate|]. cbn in *.
  destruct (ascii_dec c d); [now apply IH|discriminate].
Qed.

Lemma join_firstn_succ (c : U) chunks k :
  join (map decode (firstn (S k) (c :: chunks)))
  = (decode c ++ join (map decode (firstn k chunks)))%string.
Proof. reflexivity. Qed.

(** The turn of the loop after a reply that parsed to a function call
    which is not a string: the handler is called, if there is one. *)
Lemma loop_after_call x res chunks script req w document functionCall :
  abortControllerRef w = true ->
  x_stop_during_fetch x = false ->
  x_fetch x = FetchResolves res ->
  res_ok res = true ->
  res_body res = Some (map Chunk chunks) ->
  response_accepted opts res ->
  String.prefix function_call_marker (join (map decode chunks)) = true ->
  JSON_parse (join (map decode chunks)) = Some document ->
  get_prop document "function_call" = inr (Some functionCall) ->
  is_string functionCall = false ->
  let store := req_messages req
               ++ [parsed_message (x_nanoid x) (x_now x) (Some functionCall)] in
  let w1 := {| swr_data := store; messagesRef := store; abortControllerRef := true;
               trace := trace w ++ streaming_events decode opts x req chunks
                        ++ EvMutate store true
                           :: finish_events opts (streamed_message decode x chunks) |} in
  let argument := {| req_messages := store; req_functions := req_functions req;
                     req_function_call := req_function_call req |} in
  function_call_loop decode opts (x :: script) req w =
  match functionCallHandler opts with
  | Some handler =>
      (emit (EvHandler functionCall argument) ;;
       await ;;
       match handler functionCall argument with
       | inl err => throw err
       | inr next => function_call_loop decode opts script next
       end) w1
  | None => function_call_loop decode opts script req w1
  end.
Proof.
  intros Hslot Hstop Hfetch Hok Hbody Hacc Hmark Hparse Hprop Hobj store w1 argument.
  pose proof (gsr_function_call decode opts x res chunks req w Hslot Hstop Hfetch
                Hok Hbody Hacc document (Some functionCall)) as Hreq.
  rewrite running_joined in Hreq. specialize (Hreq Hmark Hparse Hprop).
  cbn [function_call_loop]. rewrite (bind_return _ _ _ _ _ Hreq).
  unfold await at 1. unfold modify at 1. unfold bind at 1.
  match goal with
  | |- context [bind latest_message ?K ?wr] =>
      rewrite (bind_return latest_message K wr _ _
                 (latest_message_last (req_messages req)
                    (parsed_message (x_nanoid x) (x_now x) (Some functionCall))
                    wr eq_refl))
  end.
  unfold loop_breaks. cbn [msg_function_call parsed_message]. rewrite Hobj.
  destruct (functionCallHandler opts) as [handler|]; reflexivity.
Qed.

Lemma streaming_events_seq (x : Exchange U) req chunks :
  streaming_events decode opts x req chunks =
  EvMutate (req_messages req) false
  :: EvFetch (request_body opts req)
  :: map (fun k => EvMutate
                     (req_messages req
                        ++ [streaming_message (x_nanoid x) (x_now x)
                              (join (map decode (firstn k chunks)))]) false)
       (seq 1 (List.length chunks)).
Proof. unfold streaming_events. now rewrite running_firstn, map_map. Qed.

(** C5.  A reply whose text starts with the function-call marker.  After
    each chunk the cache holds the request's messages and the message in
    progress; whenever the text so far starts with the marker, that
    message has empty content and the raw text as its [function_call]
    (and once a text starts with the marker, every later one does).  At
    the end of the stream the whole text goes through [JSON.parse]: when
    it parses, the cache is written once more with the [function_call]
    member of the document in place of the raw text; when it does not,
    the submission throws the SyntaxError after a single fetch and the
    rest of the script is not used. *)
Theorem function_call_stream
  (x : Exchange U) (res : Response U) (chunks : list U)
  (script : list (Exchange U)) (req : ChatRequest) (w : World) :
  x_stop_during_fetch x = false ->
  x_fetch x = FetchResolves res ->
  res_ok res = true ->
  res_body res = Some (map Chunk chunks) ->
  response_accepted opts res ->
  let text_after k := join (map decode (firstn k chunks)) in
  let text := join (map decode chunks) in
  let progress k := streaming_message (x_nanoid x) (x_now x) (text_after k) in
  let per_chunk :=
    map (fun k => EvMutate (req_messages req ++ [progress k]) false)
      (seq 1 (List.length chunks)) in
  let pending raw :=
    {| msg_id := x_nanoid x; msg_createdAt := Some (x_now x); msg_content := "";
       msg_role := assistant; msg_name := None;
       msg_function_call := Some (JString raw) |} in
  String.prefix function_call_marker text = true ->
  (forall k, String.prefix function_call_marker (text_after k) = true ->
             progress k = pending (text_after k))
  /\ (forall k, 1 <= k ->
                String.prefix function_call_marker (text_after 1) = true ->
                String.prefix function_call_marker (text_after k) = true)
  /\ (forall document parsedFunctionCall,
        JSON_parse text = Some document ->
        get_prop document "function_call" = inr parsedFunctionCall ->
        abortControllerRef w = true ->
        let parsed :=
          {| msg_id := x_nanoid x; msg_createdAt := Some (x_now x);
             msg_content := ""; msg_role := assistant; msg_name := None;
             msg_function_call := parsedFunctionCall |} in
        exists w',
          getStreamedResponse decode opts x req w = (Return (Some (pending text)), w')
          /\ swr_data w' = req_messages req ++ [parsed]
          /\ trace w' = trace w
                        ++ EvMutate (req_messages req) false
                           :: EvFetch (request_body opts req)
                           :: per_chunk
                        ++ EvMutate (req_messages req ++ [parsed]) true
                           :: finish_events opts (Some (pending text)))
  /\ (JSON_parse text = None ->
        exists w',
          trigger decode opts (x :: script) req w = (Throw JSON_SyntaxError, w')
          /\ swr_data w' = req_messages req ++ [pending text]
          /\ trace w' = trace w
                        ++ EvMutate (req_messages req) false
                           :: EvFetch (request_body opts req)
                           :: per_chunk
                        ++ (if onError opts then [EvOnError JSON_SyntaxError]
                            else []))
  /\ (forall name arguments,
        text = envelope name arguments ->
        abortControllerRef w = true ->
        exists w',
          getStreamedResponse decode opts x req w = (Return (Some (pending text)), w')
          /\ swr_data w'
             = req_messages req
               ++ [{| msg_id := x_nanoid x; msg_createdAt := Some (x_now x);
                      msg_content := ""; msg_role := assistant; msg_name := None;
                      msg_function_call :=
                        Some (JObject [("name", JString name);
                                       ("arguments", JString arguments)]) |}]).
Proof.
  intros Hstop Hfetch Hok Hbody Hacc text_after text progress per_chunk pending Hmark.
  destruct chunks as [|c chunks']; [discriminate|].
  set (chunks := c :: chunks') in *.
  assert (Hpending : streaming_message (x_nanoid x) (x_now x) text = pending text).
  { unfold streaming_message. fold text. now rewrite Hmark. }
  assert (Hparsed : forall document parsedFunctionCall,
             JSON_parse text = Some document ->
             get_prop document "function_call" = inr parsedFunctionCall ->
             abortControllerRef w = true ->
             getStreamedResponse decode opts x req w
             = (Return (Some (pending text)),
                {| swr_data := req_messages req
                               ++ [parsed_message (x_nanoid x) (x_now x)
                                     parsedFunctionCall];
                   messagesRef := streamed_store decode x req chunks;
                   abortControllerRef := true;
                   trace := trace w
                            ++ (EvMutate (req_messages req) false
                                :: EvFetch (request_body opts req)
                                :: per_chunk)
                            ++ EvMutate (req_messages req
                                           ++ [parsed_message (x_nanoid x) (x_now x)
                                                 parsedFunctionCall]) true
                               :: finish_events opts (Some (pending text)) |})).
  { intros document parsedFunctionCall Hparse Hprop Hslot.
    pose proof (gsr_function_call decode opts x res chunks req w Hslot Hstop Hfetch
                  Hok Hbody Hacc document parsedFunctionCall) as Hreq.
    rewrite running_joined in Hreq. specialize (Hreq Hmark Hparse Hprop).
    unfold chunks in Hreq. rewrite !streamed_message_nonempty in Hreq.
    fold chunks in Hreq. fold text in Hreq.
    rewrite Hpending, streaming_events_seq in Hreq. exact Hreq. }
  split; [|split; [|split; [|split]]].
  - intros k Hk. unfold progress, streaming_message. now rewrite Hk.
  - intros k Hk H1. destruct k as [|k]; [lia|].
    unfold text_after, chunks in *. rewrite join_firstn_succ in *.
    cbn [firstn map join fold_right] in H1. rewrite append_nil_r in H1.
    now apply prefix_app.
  - intros document parsedFunctionCall Hparse Hprop Hslot parsed.
    eexists. split; [exact (Hparsed _ _ Hparse Hprop Hslot)|].
    split; [reflexivity|]. cbn [trace]. now rewrite <- !app_comm_cons.
  - intros Hparse.
    pose proof (gsr_malformed decode opts x res chunks req (with_slot true w) eq_refl
                  Hstop Hfetch Hok Hbody Hacc) as Hreq.
    rewrite running_joined in Hreq. specialize (Hreq Hmark Hparse).
    unfold chunks in Hreq. rewrite !streamed_store_nonempty in Hreq.
    fold chunks in Hreq. fold text in Hreq.
    rewrite Hpending, streaming_events_seq in Hreq.
    pose proof (trigger_throw decode opts _ _ _ _ _
                  (loop_throw decode opts x script req _ _ _ Hreq) eq_refl) as Hrun.
    eexists. split; [exact Hrun|]. split; [reflexivity|].
    cbn [trace with_slot err_is_Error JSON_SyntaxError]. rewrite andb_true_r.
    now rewrite <- !app_assoc, <- !app_comm_cons.
  - intros name arguments Htext Hslot.
    eexists. split.
    + apply (Hparsed (JObject [("function_call",
                                JObject [("name", JString name);
                                         ("arguments", JString arguments)])]));
        [rewrite Htext; apply JsonFacts.JSON_parse_envelope|reflexivity
        |exact Hslot].
    + reflexivity.
Qed.

Lemma trigger_trace script req w :
  exists evs,
    trace (snd (trigger decode opts script req w))
    = trace (snd (function_call_loop decode opts script req (with_slot true w)))
      ++ evs.
Proof.
  destruct (trigger_grows decode opts script req w) as (evs & H & _). now exists evs.
Qed.

(** C6.  The reply is exactly the text
    [{"function_call":{"name":"get_current_time","arguments":"{}"}}], in
    any division into chunks, and a handler is configured.  The last
    message written for the reply carries the structured value
    [{name: "get_current_time", arguments: "{}"}]; the history of the
    submission then shows one call of the handler, with that value and
    with the request whose messages are the cache, and next the
    optimistic write and the fetch of the request the handler returned. *)
Theorem function_call_round_trip
  (x : Exchange U) (res : Response U) (chunks : list U)
  (script : list (Exchange U)) (req : ChatRequest) (w : World)
  (handler : JValue -> ChatRequest -> Thrown + ChatRequest) (next : ChatRequest) :
  functionCallHandler opts = Some handler ->
  x_stop_during_fetch x = false ->
  x_fetch x = FetchResolves res ->
  res_ok res = true ->
  res_body res = Some (map Chunk chunks) ->
  response_accepted opts res ->
  join (map decode chunks) = Examples.time_call_text ->
  let progress k :=
    streaming_message (x_nanoid x) (x_now x) (join (map decode (firstn k chunks))) in
  let called :=
    {| msg_id := x_nanoid x; msg_createdAt := Some (x_now x); msg_content := "";
       msg_role := assistant; msg_name := None;
       msg_function_call := Some Examples.time_call |} in
  let argument :=
    {| req_messages := req_messages req ++ [called];
       req_functions := req_functions req;
       req_function_call := req_function_call req |} in
  handler Examples.time_call argument = inr next ->
  exists evs,
    trace (snd (trigger decode opts (x :: script) req w))
    = trace w
      ++ EvMutate (req_messages req) false
         :: EvFetch (request_body opts req)
         :: map (fun k => EvMutate (req_messages req ++ [progress k]) false)
              (seq 1 (List.length chunks))
      ++ EvMutate (req_messages req ++ [called]) true
         :: (if onFinish opts
             then [EvOnFinish (Some (pending_message (x_nanoid x) (x_now x)
                                       Examples.time_call_text))]
             else [])
      ++ [EvHandler Examples.time_call argument;
          EvMutate (req_messages next) false;
          EvFetch (request_body opts next)]
      ++ evs.
Proof.
  intros Hhandler Hstop Hfetch Hok Hbody Hacc Htext progress called argument Hnext.
  destruct chunks as [|c chunks']; [discriminate|].
  set (chunks := c :: chunks') in *.
  destruct (trigger_trace (x :: script) req w) as (evs' & Htr').
  rewrite Htr'. clear Htr'.
  rewrite (loop_after_call x res chunks script req (with_slot true w)
             (JObject [("function_call", Examples.time_call)]) Examples.time_call
             eq_refl Hstop Hfetch Hok Hbody Hacc);
    [|now rewrite Htext..|reflexivity|reflexivity].
  rewrite Hhandler, bind_emit.
  unfold await at 1. unfold modify at 1. unfold bind at 1.
  unfold parsed_message. fold called. fold argument. rewrite Hnext.
  match goal with
  | |- context [function_call_loop decode opts script next ?w2] =>
      destruct (function_call_loop_begins decode opts script next w2) as (evs & Htr)
  end.
  exists (evs ++ evs'). rewrite Htr. cbn [trace render with_slot].
  unfold chunks at 2. rewrite streamed_message_nonempty. fold chunks.
  rewrite Htext, streaming_events_seq. unfold finish_events.
  fold progress.
  destruct (onFinish opts); cbn [app];
    rewrite <- ?app_assoc; cbn [app]; rewrite <- ?app_assoc; reflexivity.
Qed.

(** C2 (what the code does).  No handler is configured and the reply
    parses to a function call that is not a string.  The loop does not
    end: after the write of the parsed message it sends the same request
    again, and with no further response the submission stays suspended
    on that second fetch. *)
Theorem no_handler_resubmits
  (x : Exchange U) (res : Response U) (chunks : list U)
  (script : list (Exchange U)) (req : ChatRequest) (w : World)
  (document functionCall : JValue) :
  functionCallHandler opts = None ->
  x_stop_during_fetch x = false ->
  x_fetch x = FetchResolves res ->
  res_ok res = true ->
  res_body res = Some (map Chunk chunks) ->
  response_accepted opts res ->
  String.prefix function_call_marker (join (map decode chunks)) = true ->
  JSON_parse (join (map decode chunks)) = Some document ->
  get_prop document "function_call" = inr (Some functionCall) ->
  is_string functionCall = false ->
  let called := parsed_message (x_nanoid x) (x_now x) (Some functionCall) in
  (exists evs,
      trace (snd (trigger decode opts (x :: script) req w))
      = trace w
        ++ streaming_events decode opts x req chunks
        ++ EvMutate (req_messages req ++ [called]) true
           :: finish_events opts (streamed_message decode x chunks)
        ++ [EvMutate (req_messages req) false;
            EvFetch (request_body opts req)]
        ++ evs)
  /\ fst (trigger decode opts [x] req w) = Suspended.
Proof.
  intros Hhandler Hstop Hfetch Hok Hbody Hacc Hmark Hparse Hprop Hobj called.
  split.
  - destruct (trigger_trace (x :: script) req w) as (evs' & Htr').
    rewrite Htr'. clear Htr'.
    rewrite (loop_after_call x res chunks script req (with_slot true w)
               document functionCall eq_refl Hstop Hfetch Hok Hbody Hacc
               Hmark Hparse Hprop Hobj).
    rewrite Hhandler.
    match goal with
    | |- context [function_call_loop decode opts script req ?w2] =>
        destruct (function_call_loop_begins decode opts script req w2) as (evs & Htr)
    end.
    exists (evs ++ evs'). rewrite Htr. cbn [trace with_slot]. fold called.
    rewrite <- ?app_assoc; cbn [app]; rewrite <- ?app_assoc; reflexivity.
  - unfold trigger, try_catch.
    unfold set_abortControllerRef at 1. unfold modify at 1. unfold bind at 1.
    unfold bind at 1.
    rewrite (loop_after_call x res chunks [] req (with_slot true w)
               document functionCall eq_refl Hstop Hfetch Hok Hbody Hacc
               Hmark Hparse Hprop Hobj).
    rewrite Hhandler. reflexivity.
Qed.

Lemma join_snoc (pre : list U) (c : U) :
  (join (map decode pre) ++ decode c)%string = join (map decode (pre ++ [c])).
Proof.
  induction pre as [|p pre IH].
  - cbn. now rewrite append_nil_r.
  - change (((decode p ++ join (map decode pre)) ++ decode c)%string
            = (decode p ++ join (map decode (pre ++ [c])))%string).
    now rewrite append_assoc, IH.
Qed.

(** C4, as the code has it.  [stop] is called while a read is pending,
    after the chunks [pre].  When that read rejects with an abort error,
    the submission returns [null] without throwing; the cache keeps what
    the chunks before the call put there and nothing is written after
    the call.  When that read still delivers a chunk, the abort slot is
    looked at only after the chunk has been processed: the chunk is added
    to the text and written to the cache, then the reader is cancelled
    and the loop ends, whatever the body holds after that chunk; for a
    plain text the submission then returns the text accumulated so far,
    without throwing and without a rollback. *)
Theorem stop_mid_stream
  (x : Exchange U) (res : Response U) (pre : list U)
  (rest : list (ReadEvent U)) (script : list (Exchange U))
  (req : ChatRequest) (w : World) :
  x_stop_during_fetch x = false ->
  x_fetch x = FetchResolves res ->
  res_ok res = true ->
  response_accepted opts res ->
  let reply := streaming_message (x_nanoid x) (x_now x) in
  (forall err : JsError,
      res_body res = Some (map Chunk pre ++ StopCalled :: ReadRejects err :: rest) ->
      String.eqb (err_name err) "AbortError" = true ->
      exists w',
        trigger decode opts (x :: script) req w = (Return None, w')
        /\ swr_data w' = streamed_store decode x req pre
        /\ abortControllerRef w' = false
        /\ trace w' = trace w ++ streaming_events decode opts x req pre ++ [EvAbort])
  /\ (forall c w0,
      abortControllerRef w0 = true ->
      let text := join (map decode (pre ++ [c])) in
      exists w',
        read_loop decode (req_messages req) (x_nanoid x) (x_now x)
          (map Chunk pre ++ StopCalled :: Chunk c :: rest) "" None w0
        = (Return (text, Some (reply text)), w')
        /\ swr_data w' = req_messages req ++ [reply text]
        /\ trace w' = trace w0
                      ++ map (fun t => EvMutate (req_messages req ++ [reply t]) false)
                           (running decode "" pre)
                      ++ [EvAbort;
                          EvMutate (req_messages req ++ [reply text]) false;
                          EvReaderCancel])
  /\ (forall c,
      res_body res = Some (map Chunk pre ++ StopCalled :: Chunk c :: rest) ->
      let text := join (map decode (pre ++ [c])) in
      String.prefix function_call_marker text = false ->
      exists w',
        trigger decode opts (x :: script) req w = (Return (Some text), w')
        /\ swr_data w'
           = req_messages req ++ [content_message (x_nanoid x) (x_now x) text]
        /\ trace w' = trace w
                      ++ streaming_events decode opts x req pre
                      ++ [EvAbort;
                          EvMutate (req_messages req
                                      ++ [content_message (x_nanoid x) (x_now x) text])
                                   false;
                          EvReaderCancel]
                      ++ finish_events opts
                           (Some (content_message (x_nanoid x) (x_now x) text))).
Proof.
  intros Hstop Hfetch Hok Hacc reply.
  assert (Hread : forall c w0,
      abortControllerRef w0 = true ->
      let text := join (map decode (pre ++ [c])) in
      read_loop decode (req_messages req) (x_nanoid x) (x_now x)
        (map Chunk pre ++ StopCalled :: Chunk c :: rest) "" None w0
      = (Return (text, Some (reply text)),
         {| swr_data := req_messages req ++ [reply text];
            messagesRef := last (map (fun t => req_messages req ++ [reply t])
                                   (running decode "" pre)) (swr_data w0);
            abortControllerRef := false;
            trace := trace w0
                     ++ map (fun t => EvMutate (req_messages req ++ [reply t]) false)
                          (running decode "" pre)
                     ++ [EvAbort;
                         EvMutate (req_messages req ++ [reply text]) false;
                         EvReaderCancel] |})).
  { intros c w0 Hslot text. rewrite read_loop_stop by assumption.
    rewrite running_joined. cbn [read_loop]. run.
    rewrite join_snoc. fold text. fold (reply text).
    rewrite <- !app_assoc. reflexivity. }
  split; [|split].
  - intros err Hbody Hname.
    pose proof (gsr_reads decode opts x res _ req (with_slot true w)
                  Hstop Hfetch Hok Hbody Hacc) as Hreq.
    unfold bind in Hreq at 1. rewrite read_loop_stop in Hreq by reflexivity.
    cbn [read_loop] in Hreq. unfold await, modify, bind, throw in Hreq.
    cbn [render swr_data messagesRef abortControllerRef trace with_slot] in Hreq.
    pose proof (trigger_abort decode opts _ _ _ _ _
                  (loop_throw decode opts x script req _ _ _ Hreq) Hname) as Hrun.
    eexists. split; [exact Hrun|]. split; [reflexivity|]. split; [reflexivity|].
    cbn [trace with_slot]. unfold streaming_events.
    rewrite <- !app_assoc. reflexivity.
  - intros c w0 Hslot text. eexists. split; [now apply Hread|].
    split; reflexivity.
  - intros c Hbody text Hplain.
    pose proof (gsr_reads decode opts x res _ req (with_slot true w)
                  Hstop Hfetch Hok Hbody Hacc) as Hreq.
    unfold bind in Hreq at 1. rewrite Hread in Hreq by reflexivity.
    fold text in Hreq. unfold finish_request in Hreq. rewrite Hplain in Hreq.
    assert (Hreply : reply text = content_message (x_nanoid x) (x_now x) text).
    { unfold reply, streaming_message. now rewrite Hplain. }
    rewrite Hreply in Hreq.
    assert (Hfinish : exists w1,
      getStreamedResponse decode opts x req (with_slot true w)
      = (Return (Some (content_message (x_nanoid x) (x_now x) text)), w1)
      /\ swr_data w1
         = req_messages req ++ [content_message (x_nanoid x) (x_now x) text]
      /\ trace w1 = trace w
                    ++ streaming_events decode opts x req pre
                    ++ [EvAbort;
                        EvMutate (req_messages req
                                    ++ [content_message (x_nanoid x) (x_now x) text])
                                 false;
                        EvReaderCancel]
                    ++ finish_events opts
                         (Some (content_message (x_nanoid x) (x_now x) text))).
    { rewrite Hreq. unfold finish_events, streaming_events. fold reply.
      destruct (onFinish opts); run; eexists;
        (split; [reflexivity|]); (split; [reflexivity|]);
        cbn [trace with_slot]; rewrite <- !app_assoc; cbn [app];
        rewrite ?app_nil_r; reflexivity. }
    destruct Hfinish as (w1 & Hgsr & Hstore & Htrace).
    pose proof (loop_break decode opts x script req _ _ _ (req_messages req)
                  (content_message (x_nanoid x) (x_now x) text) Hgsr Hstore eq_refl)
      as Hloop.
    pose proof (trigger_return decode opts _ _ _ _ (req_messages req)
                  (content_message (x_nanoid x) (x_now x) text) Hloop Hstore)
      as Hrun.
    eexists. split; [exact Hrun|]. split; [exact Hstore|exact Htrace].
Qed.

Lemma Role_eqb_eq (a b : Role) : Role_eqb a b = true <-> a = b.
Proof. destruct a, b; cbn; split; congruence. Qed.

(** C8.  [reload] on a sequence whose last message is [m]: the request
    that is submitted holds the sequence without [m] when the role of
    [m] is assistant, and the whole sequence otherwise; its optimistic
    write and its fetch open the history of the call. *)
Theorem reload_resubmits
  (script : list (Exchange U)) (functions : option (list JValue))
  (function_call : option JValue) (w : World) (l : list Message) (m : Message) :
  messagesRef w = l ++ [m] ->
  let resubmitted := if Role_eqb (msg_role m) assistant then l else l ++ [m] in
  let req := {| req_messages := resubmitted; req_functions := functions;
                req_function_call := function_call |} in
  (msg_role m = assistant -> resubmitted = l)
  /\ (msg_role m <> assistant -> resubmitted = l ++ [m])
  /\ reload decode opts script functions function_call w
     = trigger decode opts script req w
  /\ exists evs,
       trace (snd (reload decode opts script functions function_call w))
       = trace w ++ [EvMutate resubmitted false; EvFetch (request_body opts req)]
         ++ evs.
Proof.
  intros Href resubmitted req.
  assert (Hrun : reload decode opts script functions function_call w
                 = trigger decode opts script req w).
  { unfold reload. rewrite bind_gets, Href, rev_unit, removelast_last.
    unfold req, resubmitted. now destruct (Role_eqb (msg_role m) assistant). }
  split; [|split; [|split]].
  - intros Hrole. unfold resubmitted.
    now rewrite (proj2 (Role_eqb_eq _ _) Hrole).
  - intros Hrole. unfold resubmitted.
    destruct (Role_eqb (msg_role m) assistant) eqn:E; [|reflexivity].
    now apply Role_eqb_eq in E.
  - exact Hrun.
  - rewrite Hrun. apply trigger_begins.
Qed.

(** C9, as the code has it.  [append] gives the message the id that
    [nanoid()] returns when its id is missing or the empty string, and
    leaves any other id as it is.  Nothing compares that id with the
    conversation: the request is free of duplicate ids exactly when the
    id of the message is not the id of a message found.  The request
    that is submitted holds the sequence in [messagesRef] (the cache,
    when the cache is settled) followed by the message.  Every cache
    value written by the submission is the sequence found, written back
    when the first request fails, or starts with that sequence followed
    by the message, id included, provided the same is true of every
    request a function-call handler returns when it is true of the
    request the handler is given. *)
Theorem append_assigns_id_and_submits
  (drawn : string) (script : list (Exchange U)) (message : CreateMessage)
  (functions : option (list JValue)) (function_call : option JValue) (w : World) :
  let found := messagesRef w in
  let m := with_id drawn message in
  let req := {| req_messages := found ++ [m]; req_functions := functions;
                req_function_call := function_call |} in
  let run := append decode opts drawn script message functions function_call w in
  (cm_id message = None \/ cm_id message = Some "" -> msg_id m = drawn)
  /\ (forall i, cm_id message = Some i -> i <> "" -> msg_id m = i)
  /\ (NoDup (map msg_id found) ->
      (NoDup (map msg_id (req_messages req))
       <-> ~ In (msg_id m) (map msg_id found)))
  /\ (swr_data w = found -> req_messages req = swr_data w ++ [m])
  /\ run = trigger decode opts script req w
  /\ (exists evs,
        trace (snd run)
        = trace w ++ [EvMutate (req_messages req) false;
                      EvFetch (request_body opts req)] ++ evs)
  /\ (handler_keeps opts (holds_message found m) ->
      exists evs,
        trace (snd run) = trace w ++ evs
        /\ Forall (good_event (keeps_message found m)) evs).
Proof.
  intros found m req run.
  split; [|split; [|split; [|split; [|split; [|split]]]]].
  - intros [H|H]; unfold m, with_id, id_missing; cbn; now rewrite H.
  - intros i Hi Hne. unfold m, with_id, id_missing. cbn. rewrite Hi.
    destruct i; [congruence|reflexivity].
  - intros Hnodup. cbn [req_messages req]. rewrite map_app. cbn [map]. split.
    + intros H Hin. apply NoDup_remove_2 in H. apply H.
      rewrite app_nil_r. exact Hin.
    + intros Hfresh.
      apply NoDup_app; [exact Hnodup|repeat constructor; intros []|].
      intros i Hi [<-|[]]. now apply Hfresh.
  - intros Hsettled. cbn [req_messages req]. now rewrite Hsettled.
  - reflexivity.
  - apply trigger_begins.
  - intros Hhandler.
    exact (append_trigger_writes decode opts found m Hhandler script req w
             eq_refl eq_refl).
Qed.

End Claims.

(* ===================================================================== *)
(** * How a submission ends *)
(* ===================================================================== *)

Section Submissions.
Context {U : Type} (decode : U -> string) (opts : UseChatOptions U).

(** X1.  [reload] returns [null] with nothing done exactly when there is no
    message. *)
Theorem reload_needs_a_message
  (script : list (Exchange U)) (functions : option (list JValue))
  (function_call : option JValue) (w : World) :
  reload decode opts script functions function_call w = (Return None, w)
  <-> messagesRef w = [].
Proof.
  split.
  - intros Hrun. destruct (messagesRef w) as [|m0 l0] eqn:Href; [reflexivity|].
    exfalso.
    destruct (exists_last (l := m0 :: l0) ltac:(discriminate)) as (l & m & Hlm).
    rewrite Hlm in Href.
    assert (Hreq : exists req,
               reload decode opts script functions function_call w
               = trigger decode opts script req w).
    { unfold reload. rewrite bind_gets, Href, rev_unit.
      destruct (Role_eqb (msg_role m) assistant); eexists; reflexivity. }
    destruct Hreq as (req & Hreq). rewrite Hreq in Hrun.
    destruct (trigger_begins decode opts script req w) as (evs & Htr).
    rewrite Hrun in Htr. cbn [snd] in Htr.
    apply (f_equal (@List.length Event)) in Htr.
    rewrite !length_app in Htr. cbn in Htr. lia.
  - intros Href. unfold reload. now rewrite bind_gets, Href.
Qed.

(** X2.  When the fetcher returns (with the text or with [null]) the abort
    slot is empty, so a [stop] that comes after does nothing. *)
Theorem stop_after_return_is_noop
  (script : list (Exchange U)) (req : ChatRequest) (w : World)
  (r : option string) :
  fst (trigger decode opts script req w) = Return r ->
  let w' := snd (trigger decode opts script req w) in
  abortControllerRef w' = false /\ stop w' = (Return tt, w').
Proof.
  intros Hret w'.
  assert (Hslot : abortControllerRef w' = false).
  { revert Hret. unfold w', trigger, try_catch, latest_message.
    unfold bind, set_abortControllerRef, modify, gets.
    destruct (function_call_loop decode opts script req (with_slot true w))
      as [[[]|[err|]|] w1]; cbn [fst snd].
    - cbn [messagesRef with_slot]. destruct (rev (messagesRef w1)); cbn.
      + destruct (onError opts); cbn; discriminate.
      + reflexivity.
    - destruct (String.eqb (err_name err) "AbortError"); [reflexivity|].
      destruct (onError opts && err_is_Error err); run; discriminate.
    - discriminate.
    - discriminate. }
  split; [exact Hslot|].
  unfold stop. rewrite bind_gets, Hslot. reflexivity.
Qed.

(** X3.  A submission that fails in transport or on the status leaves the
    controller in the abort slot (the catch block clears it for an abort
    only): a [stop] that comes after still calls [abort] on it.  The
    next submission is not affected: it starts by putting its own
    controller in the slot. *)
Theorem failed_submission_keeps_controller
  (x : Exchange U) (script : list (Exchange U)) (req : ChatRequest) (w : World)
  (err : JsError) :
  request_fails opts x err ->
  String.eqb (err_name err) "AbortError" = false ->
  x_stop_during_fetch x = false ->
  exists w',
    trigger decode opts (x :: script) req w = (Throw err, w')
    /\ abortControllerRef w' = true
    /\ trace (snd (stop w')) = trace w' ++ [EvAbort]
    /\ forall script' req',
         trigger decode opts script' req' w'
         = trigger decode opts script' req' (with_slot false w').
Proof.
  intros Hfail Hname Hstop.
  assert (Hreq : exists w1,
             getStreamedResponse decode opts x req (with_slot true w) = (Throw err, w1)
             /\ abortControllerRef w1 = true).
  { destruct Hfail as [Hfetch|(res & Hfetch & Hok & Hacc & ->)];
      unfold getStreamedResponse; rewrite Hfetch, Hstop.
    - run. eexists. split; reflexivity.
    - rewrite Hok. unfold response_accepted in Hacc.
      destruct (onResponse opts) as [cb|]; [rewrite Hacc|];
        run; eexists; split; reflexivity. }
  destruct Hreq as (w1 & Hreq & Hslot).
  pose proof (trigger_throw decode opts _ _ _ _ _
                (loop_throw decode opts x script req _ _ _ Hreq) Hname) as Hrun.
  eexists. split; [exact Hrun|]. cbn [abortControllerRef].
  split; [exact Hslot|]. split; [|reflexivity].
  unfold stop. rewrite bind_gets. cbn [abortControllerRef]. rewrite Hslot.
  reflexivity.
Qed.

(** X4.  A fetch that rejects with an abort error: the cache is rolled back
    to the snapshot, the fetcher returns [null] instead of throwing, the
    slot is cleared and [onError] is not called. *)
Theorem aborted_fetch_returns_null
  (x : Exchange U) (script : list (Exchange U)) (req : ChatRequest) (w : World)
  (err : JsError) :
  x_fetch x = FetchRejects err ->
  String.eqb (err_name err) "AbortError" = true ->
  exists w',
    trigger decode opts (x :: script) req w = (Return None, w')
    /\ swr_data w' = messagesRef w
    /\ abortControllerRef w' = false
    /\ trace w' = trace w
                  ++ [EvMutate (req_messages req) false;
                      EvFetch (request_body opts req)]
                  ++ (if x_stop_during_fetch x then [EvAbort] else [])
                  ++ [EvMutate (messagesRef w) false].
Proof.
  intros Hfetch Hname.
  destruct (failed_request decode opts x req (with_slot true w) err
              (or_introl Hfetch)) as (w1 & Hreq & Hstore & Htrace).
  pose proof (trigger_abort decode opts _ _ _ _ _
                (loop_throw decode opts x script req _ _ _ Hreq) Hname) as Hrun.
  eexists. split; [exact Hrun|]. split; [exact Hstore|]. split; [reflexivity|].
  cbn [trace with_slot]. rewrite Htrace. cbn [trace with_slot abortControllerRef].
  rewrite andb_true_r, <- !app_assoc. reflexivity.
Qed.

(** X5.  An [onResponse] callback that throws.  Whatever it throws and
    whatever the status of the response, the body is not read and the
    cache is not rolled back: it keeps the messages of the request.  A
    thrown object leaves the fetcher (after [onError], when it is an
    [Error]), unless its name is AbortError: then the fetcher returns
    [null] and clears the abort slot.  On [null] or [undefined] the
    catch block itself throws a TypeError and [onError] is not
    called. *)
Theorem onResponse_error_is_not_rolled_back
  (x : Exchange U) (res : Response U) (script : list (Exchange U))
  (req : ChatRequest) (w : World)
  (callback : Response U -> option Thrown) (thrown : Thrown) :
  x_fetch x = FetchResolves res ->
  onResponse opts = Some callback ->
  callback res = Some thrown ->
  let run := trigger decode opts (x :: script) req w in
  let sent := trace w
              ++ [EvMutate (req_messages req) false;
                  EvFetch (request_body opts req)]
              ++ (if x_stop_during_fetch x then [EvAbort] else []) in
  swr_data (snd run) = req_messages req
  /\ match thrown with
     | Object err =>
         if String.eqb (err_name err) "AbortError"
         then fst run = Return None
              /\ trace (snd run) = sent
              /\ abortControllerRef (snd run) = false
         else fst run = Throw err
              /\ trace (snd run)
                 = sent ++ (if onError opts && err_is_Error err
                            then [EvOnError err] else [])
     | Nullish =>
         fst run = Throw TypeError /\ trace (snd run) = sent
     end.
Proof.
  intros Hfetch Hcb Hthrows run sent. unfold run, sent.
  unfold trigger, try_catch. cbn [function_call_loop].
  unfold getStreamedResponse. rewrite Hfetch, Hcb, Hthrows.
  destruct thrown as [err|];
    [destruct (String.eqb (err_name err) "AbortError") eqn:Hname|];
    destruct (x_stop_during_fetch x); run; rewrite ?Hname;
    try destruct (onError opts && err_is_Error err); run;
    repeat split; rewrite <- ?app_assoc; reflexivity.
Qed.

(** X6.  A read that rejects in the middle of the stream with an error
    that is not an abort: the error leaves the fetcher (after
    [onError]) and the cache is not rolled back; it keeps the reply as
    far as it had come. *)
Theorem read_error_keeps_the_partial_reply
  (x : Exchange U) (res : Response U) (pre : list U) (err : JsError)
  (rest : list (ReadEvent U)) (script : list (Exchange U))
  (req : ChatRequest) (w : World) :
  x_stop_during_fetch x = false ->
  x_fetch x = FetchResolves res ->
  res_ok res = true ->
  res_body res = Some (map Chunk pre ++ ReadRejects err :: rest) ->
  response_accepted opts res ->
  String.eqb (err_name err) "AbortError" = false ->
  exists w',
    trigger decode opts (x :: script) req w = (Throw err, w')
    /\ swr_data w' = streamed_store decode x req pre
    /\ trace w' = trace w
                  ++ streaming_events decode opts x req pre
                  ++ (if onError opts && err_is_Error err
                      then [EvOnError err] else []).
Proof.
  intros Hstop Hfetch Hok Hbody Hacc Hname.
  pose proof (gsr_reads decode opts x res _ req (with_slot true w)
                Hstop Hfetch Hok Hbody Hacc) as Hreq.
  unfold bind in Hreq at 1. rewrite read_loop_chunks in Hreq by reflexivity.
  cbn [read_loop] in Hreq. unfold await, modify, bind, throw in Hreq.
  cbn [render swr_data messagesRef abortControllerRef trace with_slot] in Hreq.
  pose proof (trigger_throw decode opts _ _ _ _ _
                (loop_throw decode opts x script req _ _ _ Hreq) Hname) as Hrun.
  eexists. split; [exact Hrun|]. split; [reflexivity|].
  cbn [trace render]. unfold streaming_events.
  rewrite <- ?app_assoc. reflexivity.
Qed.

(** X7.  A success response whose body ends at once, seen from the caller
    of the fetcher.  No message was added, so the last message of the
    request stands in for the reply.  When that message carries no
    function call, or one that is a string, the fetcher returns its
    content.  When it carries a structured function call, the loop
    takes it for the function call of a reply: the handler, if there is
    one, is called with it and with the request, and without a handler
    the same request is sent again.  On a request without messages
    there is no last message and the fetcher throws a TypeError. *)
Theorem empty_stream_echoes_the_request
  (x : Exchange U) (res : Response U) (script : list (Exchange U))
  (req : ChatRequest) (w : World) :
  x_stop_during_fetch x = false ->
  x_fetch x = FetchResolves res ->
  res_ok res = true ->
  res_body res = Some [] ->
  response_accepted opts res ->
  (forall l m,
      req_messages req = l ++ [m] ->
      loop_breaks m = true ->
      exists w',
        trigger decode opts (x :: script) req w = (Return (Some (msg_content m)), w')
        /\ swr_data w' = req_messages req
        /\ trace w' = trace w
                      ++ [EvMutate (req_messages req) false;
                          EvFetch (request_body opts req)]
                      ++ finish_events opts None)
  /\ (forall l m functionCall,
        req_messages req = l ++ [m] ->
        msg_function_call m = Some functionCall ->
        is_string functionCall = false ->
        exists evs,
          trace (snd (trigger decode opts (x :: script) req w))
          = trace w
            ++ [EvMutate (req_messages req) false;
                EvFetch (request_body opts req)]
            ++ finish_events opts None
            ++ match functionCallHandler opts with
               | Some _ =>
                   [EvHandler functionCall
                      {| req_messages := req_messages req;
                         req_functions := req_functions req;
                         req_function_call := req_function_call req |}]
               | None =>
                   [EvMutate (req_messages req) false;
                    EvFetch (request_body opts req)]
               end
            ++ evs)
  /\ (req_messages req = [] ->
      exists w',
        trigger decode opts (x :: script) req w = (Throw TypeError, w')
        /\ swr_data w' = []
        /\ trace w' = trace w
                      ++ [EvMutate [] false; EvFetch (request_body opts req)]
                      ++ finish_events opts None
                      ++ (if onError opts then [EvOnError TypeError] else [])).
Proof.
  intros Hstop Hfetch Hok Hbody Hacc.
  pose proof (gsr_content decode opts x res [] req (with_slot true w)
                eq_refl Hstop Hfetch Hok Hbody Hacc eq_refl) as Hreq.
  unfold streamed_message, streamed_store, streaming_events in Hreq.
  cbn [running map last] in Hreq.
  split; [|split].
  - intros l m Hlast Hbreak.
    pose proof (loop_break decode opts x script req _ _ _ l m Hreq Hlast Hbreak)
      as Hloop.
    pose proof (trigger_return decode opts _ _ _ _ l m Hloop Hlast) as Hrun.
    eexists. split; [exact Hrun|]. split; [reflexivity|].
    cbn [trace with_slot render]. reflexivity.
  - intros l m functionCall Hlast Hfc Hobj.
    destruct (trigger_trace decode opts (x :: script) req w) as (evs' & Htr).
    rewrite Htr. clear Htr. cbn [function_call_loop].
    rewrite (bind_return _ _ _ _ _ Hreq).
    unfold await at 1. unfold modify at 1. unfold bind at 1.
    match goal with
    | |- context [bind latest_message _ ?w0] =>
        rewrite (bind_return _ _ _ _ _ (latest_message_last l m w0 Hlast))
    end.
    unfold loop_breaks. rewrite Hfc, Hobj.
    destruct (functionCallHandler opts) as [handler|].
    + rewrite bind_gets, bind_emit.
      match goal with
      | |- context [snd (?m ?w0)] => assert (Hg : grows m w0)
      end.
      { apply wg_bind; [apply wg_await; exact I|]. intros _ w3 _ _.
        destruct (handler _ _) as [err|next];
          [apply (wg_stay anything (Throw err)); split; exact I
          |apply function_call_loop_grows]. }
      destruct Hg as (evs & Htr & _). exists (evs ++ evs'). rewrite Htr.
      cbn [trace render with_slot messagesRef swr_data].
      rewrite <- ?app_assoc. cbn [app]. rewrite <- ?app_assoc. reflexivity.
    + destruct (function_call_loop_begins decode opts script req
                  (render
                     {| swr_data := req_messages req;
                        messagesRef := req_messages req;
                        abortControllerRef := true;
                        trace := trace (with_slot true w)
                                 ++ [EvMutate (req_messages req) false;
                                     EvFetch (request_body opts req)]
                                 ++ finish_events opts None |}))
        as (evs & Htr).
      exists (evs ++ evs'). rewrite Htr.
      cbn [trace render with_slot messagesRef swr_data].
      rewrite <- ?app_assoc. cbn [app]. rewrite <- ?app_assoc. reflexivity.
  - intros Hnone.
    assert (Hloop : function_call_loop decode opts (x :: script) req (with_slot true w)
                    = (Throw TypeError,
                       render
                         {| swr_data := req_messages req;
                            messagesRef := req_messages req;
                            abortControllerRef := true;
                            trace := trace (with_slot true w)
                                     ++ [EvMutate (req_messages req) false;
                                         EvFetch (request_body opts req)]
                                     ++ finish_events opts None |})).
    { cbn [function_call_loop]. rewrite (bind_return _ _ _ _ _ Hreq).
      unfold await at 1. unfold modify at 1. unfold bind at 1.
      unfold latest_message, bind, gets. cbn [render messagesRef swr_data].
      rewrite Hnone. reflexivity. }
    pose proof (trigger_throw decode opts _ _ _ _ _ Hloop eq_refl) as Hrun.
    eexists. split; [exact Hrun|]. cbn [swr_data render trace with_slot].
    split; [exact Hnone|].
    rewrite Hnone. cbn [err_is_Error TypeError]. rewrite andb_true_r.
    rewrite <- ?app_assoc. reflexivity.
Qed.

(** X8.  [setMessages] writes the mirror along with the cache, so a [reload]
    called right after it, before any render, works on the new
    messages. *)
Theorem setMessages_then_reload
  (script : list (Exchange U)) (functions : option (list JValue))
  (function_call : option JValue) (w : World) (messages : list Message) :
  let w1 := {| swr_data := messages; messagesRef := messages;
               abortControllerRef := abortControllerRef w;
               trace := trace w ++ [EvMutate messages false] |} in
  setMessages messages w = (Return tt, w1)
  /\ (setMessages messages ;; reload decode opts script functions function_call) w
     = reload decode opts script functions function_call w1
  /\ (messages = [] ->
      (setMessages messages ;; reload decode opts script functions function_call) w
      = (Return None, w1))
  /\ (forall l m,
      messages = l ++ [m] ->
      (setMessages messages ;; reload decode opts script functions function_call) w
      = trigger decode opts script
          {| req_messages := if Role_eqb (msg_role m) assistant then l else l ++ [m];
             req_functions := functions; req_function_call := function_call |}
          w1).
Proof.
  intros w1.
  assert (Hset : setMessages messages w = (Return tt, w1)) by reflexivity.
  split; [exact Hset|]. split; [exact (bind_return _ _ _ _ _ Hset)|]. split.
  - intros ->. rewrite (bind_return _ _ _ _ _ Hset). reflexivity.
  - intros l m ->. rewrite (bind_return _ _ _ _ _ Hset).
    unfold reload. cbv beta. rewrite bind_gets. cbn [messagesRef w1].
    rewrite rev_unit, removelast_last.
    now destruct (Role_eqb (msg_role m) assistant).
Qed.

(** A submission answered by a plain reply, with the cells it leaves. *)
Lemma plain_reply_run
  (x : Exchange U) (res : Response U) (c : U) (chunks : list U)
  (script : list (Exchange U)) (req : ChatRequest) (w : World) :
  x_stop_during_fetch x = false ->
  x_fetch x = FetchResolves res ->
  res_ok res = true ->
  res_body res = Some (map Chunk (c :: chunks)) ->
  response_accepted opts res ->
  let full := join (map decode (c :: chunks)) in
  let reply := content_message (x_nanoid x) (x_now x) full in
  String.prefix function_call_marker full = false ->
  trigger decode opts (x :: script) req w
  = (Return (Some full),
     {| swr_data := req_messages req ++ [reply];
        messagesRef := req_messages req ++ [reply];
        abortControllerRef := false;
        trace := trace w ++ streaming_events decode opts x req (c :: chunks)
                 ++ finish_events opts (Some reply) |}).
Proof.
  intros Hstop Hfetch Hok Hbody Hacc full reply Hfull.
  pose proof (gsr_content decode opts x res (c :: chunks) req (with_slot true w)
                eq_refl Hstop Hfetch Hok Hbody Hacc) as Hreq.
  rewrite running_joined in Hreq. specialize (Hreq Hfull).
  rewrite streamed_message_nonempty, streamed_store_nonempty in Hreq.
  fold full in Hreq. unfold streaming_message in Hreq. rewrite Hfull in Hreq.
  fold reply in Hreq.
  pose proof (loop_break decode opts x script req _ _ _ (req_messages req)
                reply Hreq eq_refl eq_refl) as Hloop.
  exact (trigger_return decode opts _ _ _ _ (req_messages req) reply
           Hloop eq_refl).
Qed.

(** X9.  After a submission that a plain reply answered, the mirror holds
    the conversation with the reply: the next [append] submits the
    messages of the request, the reply and the new message, in that
    order. *)
Theorem next_append_builds_on_the_reply
  (x : Exchange U) (res : Response U) (c : U) (chunks : list U)
  (script : list (Exchange U)) (req : ChatRequest) (w : World)
  (drawn : string) (script2 : list (Exchange U)) (message : CreateMessage)
  (functions : option (list JValue)) (function_call : option JValue) :
  x_stop_during_fetch x = false ->
  x_fetch x = FetchResolves res ->
  res_ok res = true ->
  res_body res = Some (map Chunk (c :: chunks)) ->
  response_accepted opts res ->
  let full := join (map decode (c :: chunks)) in
  let reply := content_message (x_nanoid x) (x_now x) full in
  String.prefix function_call_marker full = false ->
  let w' := snd (trigger decode opts (x :: script) req w) in
  append decode opts drawn script2 message functions function_call w'
  = trigger decode opts script2
      {| req_messages := req_messages req ++ [reply; with_id drawn message];
         req_functions := functions; req_function_call := function_call |} w'.
Proof.
  intros Hstop Hfetch Hok Hbody Hacc full reply Hfull w'.
  unfold w'.
  rewrite (plain_reply_run x res c chunks script req w Hstop Hfetch Hok Hbody
             Hacc Hfull).
  cbn [snd]. unfold append. rewrite bind_gets. cbn [messagesRef].
  fold full. fold reply. now rewrite <- app_assoc.
Qed.

(** X10.  After a submission that a plain reply answered, [reload] takes
    the reply off and submits the messages of that request again (with
    the function definitions [reload] itself is given). *)
Theorem reload_after_reply_repeats_the_request
  (x : Exchange U) (res : Response U) (c : U) (chunks : list U)
  (script : list (Exchange U)) (req : ChatRequest) (w : World)
  (script2 : list (Exchange U))
  (functions : option (list JValue)) (function_call : option JValue) :
  x_stop_during_fetch x = false ->
  x_fetch x = FetchResolves res ->
  res_ok res = true ->
  res_body res = Some (map Chunk (c :: chunks)) ->
  response_accepted opts res ->
  String.prefix function_call_marker (join (map decode (c :: chunks))) = false ->
  let w' := snd (trigger decode opts (x :: script) req w) in
  reload decode opts script2 functions function_call w'
  = trigger decode opts script2
      {| req_messages := req_messages req;
         req_functions := functions; req_function_call := function_call |} w'.
Proof.
  intros Hstop Hfetch Hok Hbody Hacc Hfull w'.
  unfold w'.
  rewrite (plain_reply_run x res c chunks script req w Hstop Hfetch Hok Hbody
             Hacc Hfull).
  cbn [snd]. unfold reload. rewrite bind_gets. cbn [messagesRef].
  now rewrite rev_unit, removelast_last.
Qed.

(** The fields of a message that go into the body of a request. *)
Lemma plain_messages_agree (l1 l2 : list Message) :
  Forall2 same_fields l1 l2 -> map plain_message l1 = map plain_message l2.
Proof.
  induction 1 as [|a b l1 l2 (Hrole & Hcontent & Hname & Hcall) _ IH];
    [reflexivity|].
  cbn [map]. rewrite IH. unfold plain_message.
  now rewrite Hrole, Hcontent, Hname, Hcall.
Qed.

(** X11.  Unless [sendExtraMessageFields] is set, the [messages] entry that
    the fetcher builds for the body of the request holds the role, the
    content, the name and the function call of each message and nothing
    else: ids and dates do not reach it.  Requests whose messages agree
    on these four fields get the same entry, and the same [functions]
    and [function_call] entries as well when they agree on those. *)
Theorem request_body_hides_ids (r1 r2 : ChatRequest) :
  sendExtraMessageFields opts = false ->
  Forall2 same_fields (req_messages r1) (req_messages r2) ->
  body_messages (request_body opts r1)
  = PlainMessages (map plain_message (req_messages r1))
  /\ body_messages (request_body opts r1) = body_messages (request_body opts r2)
  /\ (req_functions r1 = req_functions r2 ->
      req_function_call r1 = req_function_call r2 ->
      request_body opts r1 = request_body opts r2).
Proof.
  intros Hoff Hsame. unfold request_body. cbn [body_messages].
  rewrite Hoff, (plain_messages_agree _ _ Hsame).
  repeat split. now intros -> ->.
Qed.

Lemma prefix_length (p s : string) :
  String.prefix p s = true -> String.length p <= String.length s.
Proof.
  revert s. induction p as [|c p IH]; intros s H; [cbn; lia|].
  destruct s as [|d s]; [discriminate|]. cbn in H.
  destruct (ascii_dec c d); [|discriminate]. cbn. apply IH in H. lia.
Qed.

Lemma finish_request_grows (x : Exchange U) (req : ChatRequest)
  (r : string * option Message) (w : World) :
  grows (finish_request opts x req r) w.
Proof.
  destruct r as [result responseMessage]. unfold finish_request.
  apply wg_bind.
  - destruct (String.prefix function_call_marker result);
      [|apply (wg_stay anything (Return tt)); auto].
    destruct (JSON_parse result) as [document|];
      [|apply (wg_stay anything (Throw _)); auto].
    destruct (get_prop document "function_call") as [|parsedFunctionCall];
      [apply (wg_stay anything (Throw _)); auto|].
    apply wg_mutate; exact I.
  - intros _ w1 _ _. apply wg_bind.
    + apply wg_when; [auto|]. intros _. apply wg_emit; [exact I|auto].
    + intros _ w2 _ _. apply (wg_stay anything (Return _)); auto.
Qed.

(** X12.  The marker is looked for in the text so far.  A first chunk
    shorter than the marker cannot show it: whatever the rest of the
    reply, function call or not, the first message written for the reply
    carries that chunk as plain content. *)
Theorem short_first_chunk_is_written_as_content
  (x : Exchange U) (res : Response U) (c : U) (chunks : list U)
  (req : ChatRequest) (w : World) :
  abortControllerRef w = true ->
  x_stop_during_fetch x = false ->
  x_fetch x = FetchResolves res ->
  res_ok res = true ->
  res_body res = Some (map Chunk (c :: chunks)) ->
  response_accepted opts res ->
  String.length (decode c) < String.length function_call_marker ->
  exists evs,
    trace (snd (getStreamedResponse decode opts x req w))
    = trace w
      ++ [EvMutate (req_messages req) false;
          EvFetch (request_body opts req);
          EvMutate (req_messages req
                      ++ [content_message (x_nanoid x) (x_now x) (decode c)])
                   false]
      ++ evs.
Proof.
  intros Hslot Hstop Hfetch Hok Hbody Hacc Hshort.
  rewrite (gsr_reads decode opts x res _ req w Hstop Hfetch Hok Hbody Hacc).
  assert (Hplain : streaming_message (x_nanoid x) (x_now x) (decode c)
                   = content_message (x_nanoid x) (x_now x) (decode c)).
  { unfold streaming_message.
    destruct (String.prefix function_call_marker (decode c)) eqn:E; [|reflexivity].
    apply prefix_length in E. lia. }
  unfold bind at 1.
  change (map Chunk (c :: chunks)) with (map Chunk [c] ++ map Chunk chunks).
  rewrite read_loop_chunks by exact Hslot.
  cbn [running map last String.append]. rewrite Hplain.
  match goal with
  | |- context [read_loop decode ?ms ?i ?d ?b ?acc ?rm ?w1] =>
      assert (Hrest : grows (bind (read_loop decode ms i d b acc rm)
                               (finish_request opts x req)) w1)
  end.
  { apply wg_bind.
    - apply read_loop_writes; [intros; exact I|auto].
    - intros r w2 _ _. apply finish_request_grows. }
  destruct Hrest as (evs & Htr & _). exists evs.
  unfold bind in Htr. rewrite Htr. cbn [trace].
  rewrite <- ?app_assoc. reflexivity.
Qed.

End Submissions.

(* ===================================================================== *)
(** * Function calls *)
(* ===================================================================== *)

(** The members of the object a text that starts with the function-call
    marker parses to. *)
Lemma prefix_split (p s : string) :
  String.prefix p s = true -> exists r, s = (p ++ r)%string.
Proof.
  revert s. induction p as [|c p IH]; intros s H; [now exists s|].
  destruct s as [|d s]; [discriminate|]. cbn in H.
  destruct (ascii_dec c d) as [->|]; [|discriminate].
  destruct (IH s H) as (r & ->). now exists r.
Qed.

Lemma parse_members_keeps fuel : forall s acc d rest,
  parse_members fuel s acc = Parsed d rest ->
  exists more, d = JObject (rev acc ++ more).
Proof.
  induction fuel as [|fuel IH]; intros s acc d rest H; [discriminate|].
  cbn [parse_members] in H.
  destruct (skip_ws s) as [|q r0]; [discriminate|].
  destruct (Ascii.eqb q dquote); [|discriminate].
  destruct (parse_string_chars r0) as [[key r1]|]; [|discriminate].
  destruct (skip_ws r1) as [|colon r2]; [discriminate|].
  destruct (Ascii.eqb colon ":"); [|discriminate].
  destruct (parse_value fuel r2) as [v r3| |]; try discriminate.
  destruct (skip_ws r3) as [|c r4]; [discriminate|].
  destruct (Ascii.eqb c ",").
  - apply IH in H as (more & ->). exists ((key, v) :: more).
    cbn [rev]. now rewrite <- app_assoc.
  - destruct (Ascii.eqb c "}"); [|discriminate].
    injection H as <- _. now exists [(key, v)].
Qed.

Lemma marker_member (text : string) (document : JValue) :
  String.prefix function_call_marker text = true ->
  JSON_parse text = Some document ->
  exists v more, document = JObject (("function_call", v) :: more).
Proof.
  intros Hmark Hparse. apply prefix_split in Hmark as (rest & ->).
  unfold JSON_parse in Hparse.
  assert (Hfuel : exists k, parse_fuel (function_call_marker ++ rest) = S (S k)).
  { exists (2 * String.length (function_call_marker ++ rest)%string - 1).
    unfold parse_fuel, function_call_marker. cbn [String.append String.length]. lia. }
  destruct Hfuel as (k & Hfuel). rewrite Hfuel in Hparse. clear Hfuel.
  unfold function_call_marker in Hparse. cbn in Hparse.
  destruct (parse_value k rest) as [v r3| |]; try discriminate.
  destruct (skip_ws r3) as [|c r4]; [discriminate|].
  destruct (Ascii.eqb c ",").
  - destruct (parse_members k r4 [("function_call", v)]) as [d r5| |] eqn:E;
      try discriminate.
    apply parse_members_keeps in E as (more & ->).
    destruct (skip_ws r5); [|discriminate]. injection Hparse as <-.
    now exists v, more.
  - destruct (Ascii.eqb c "}"); [|discriminate].
    destruct (skip_ws r4); [|discriminate]. injection Hparse as <-.
    now exists v, [].
Qed.

Lemma assoc_last_head (k : string) (v : JValue) (more : list (string * JValue)) :
  exists v', assoc_last k ((k, v) :: more) = Some v'.
Proof.
  cbn [assoc_last]. destruct (assoc_last k more) as [v'|]; [now exists v'|].
  rewrite String.eqb_refl. now exists v.
Qed.

Section FunctionCalls.
Context {U : Type} (decode : U -> string) (opts : UseChatOptions U).

(** X13.  A reply that starts with the function-call marker and parses
    always has a [function_call] to show: the property access after
    [JSON.parse] neither throws nor gives [undefined], and the message
    written last carries the parsed value. *)
Theorem parsed_function_call_is_present
  (x : Exchange U) (res : Response U) (chunks : list U)
  (req : ChatRequest) (w : World) (document : JValue) :
  abortControllerRef w = true ->
  x_stop_during_fetch x = false ->
  x_fetch x = FetchResolves res ->
  res_ok res = true ->
  res_body res = Some (map Chunk chunks) ->
  response_accepted opts res ->
  String.prefix function_call_marker (join (map decode chunks)) = true ->
  JSON_parse (join (map decode chunks)) = Some document ->
  exists functionCall w',
    get_prop document "function_call" = inr (Some functionCall)
    /\ getStreamedResponse decode opts x req w
       = (Return (streamed_message decode x chunks), w')
    /\ swr_data w'
       = req_messages req
         ++ [parsed_message (x_nanoid x) (x_now x) (Some functionCall)].
Proof.
  intros Hslot Hstop Hfetch Hok Hbody Hacc Hmark Hparse.
  destruct (marker_member _ _ Hmark Hparse) as (v & more & ->).
  destruct (assoc_last_head "function_call" v more) as (functionCall & Hlast).
  assert (Hprop : get_prop (JObject (("function_call", v) :: more)) "function_call"
                  = inr (Some functionCall)).
  { unfold get_prop. now rewrite Hlast. }
  pose proof (gsr_function_call decode opts x res chunks req w Hslot Hstop Hfetch
                Hok Hbody Hacc (JObject (("function_call", v) :: more))
                (Some functionCall)) as Hreq.
  rewrite running_joined in Hreq. specialize (Hreq Hmark Hparse Hprop).
  exists functionCall. eexists. split; [exact Hprop|].
  split; [exact Hreq|reflexivity].
Qed.

(** X14.  A reply that parses to a document whose [function_call] is a
    string ends the loop like a plain reply, handler or not: the handler
    is not called, no second request is made, and the fetcher returns the
    empty content of the function-call message. *)
Theorem string_function_call_ends_the_loop
  (x : Exchange U) (res : Response U) (chunks : list U)
  (script : list (Exchange U)) (req : ChatRequest) (w : World)
  (document : JValue) (s : string) :
  x_stop_during_fetch x = false ->
  x_fetch x = FetchResolves res ->
  res_ok res = true ->
  res_body res = Some (map Chunk chunks) ->
  response_accepted opts res ->
  String.prefix function_call_marker (join (map decode chunks)) = true ->
  JSON_parse (join (map decode chunks)) = Some document ->
  get_prop document "function_call" = inr (Some (JString s)) ->
  let called := parsed_message (x_nanoid x) (x_now x) (Some (JString s)) in
  exists w',
    trigger decode opts (x :: script) req w = (Return (Some ""), w')
    /\ swr_data w' = req_messages req ++ [called]
    /\ trace w' = trace w
                  ++ streaming_events decode opts x req chunks
                  ++ EvMutate (req_messages req ++ [called]) true
                     :: finish_events opts (streamed_message decode x chunks).
Proof.
  intros Hstop Hfetch Hok Hbody Hacc Hmark Hparse Hprop called.
  pose proof (gsr_function_call decode opts x res chunks req (with_slot true w)
                eq_refl Hstop Hfetch Hok Hbody Hacc document (Some (JString s)))
    as Hreq.
  rewrite running_joined in Hreq. specialize (Hreq Hmark Hparse Hprop).
  fold called in Hreq.
  pose proof (loop_break decode opts x script req _ _ _ (req_messages req) called
                Hreq eq_refl eq_refl) as Hloop.
  pose proof (trigger_return decode opts _ _ _ _ (req_messages req) called
                Hloop eq_refl) as Hrun.
  eexists. split; [exact Hrun|]. split; reflexivity.
Qed.

(** X15.  A function-call handler that throws.  Whatever it throws, no
    further request is made and the cache keeps the function-call
    message the handler was called for.  A thrown object leaves the
    fetcher (after [onError], when it is an [Error]), unless its name is
    AbortError: then the fetcher returns [null] and clears the abort
    slot.  On [null] or [undefined] the catch block itself throws a
    TypeError and [onError] is not called. *)
Theorem handler_error_propagates
  (x : Exchange U) (res : Response U) (chunks : list U)
  (script : list (Exchange U)) (req : ChatRequest) (w : World)
  (document functionCall : JValue)
  (handler : JValue -> ChatRequest -> Thrown + ChatRequest) (thrown : Thrown) :
  functionCallHandler opts = Some handler ->
  x_stop_during_fetch x = false ->
  x_fetch x = FetchResolves res ->
  res_ok res = true ->
  res_body res = Some (map Chunk chunks) ->
  response_accepted opts res ->
  String.prefix function_call_marker (join (map decode chunks)) = true ->
  JSON_parse (join (map decode chunks)) = Some document ->
  get_prop document "function_call" = inr (Some functionCall) ->
  is_string functionCall = false ->
  let called := parsed_message (x_nanoid x) (x_now x) (Some functionCall) in
  let argument :=
    {| req_messages := req_messages req ++ [called];
       req_functions := req_functions req;
       req_function_call := req_function_call req |} in
  handler functionCall argument = inl thrown ->
  let run := trigger decode opts (x :: script) req w in
  let handled := trace w
                 ++ streaming_events decode opts x req chunks
                 ++ EvMutate (req_messages req ++ [called]) true
                    :: finish_events opts (streamed_message decode x chunks)
                 ++ [EvHandler functionCall argument] in
  swr_data (snd run) = req_messages req ++ [called]
  /\ match thrown with
     | Object err =>
         if String.eqb (err_name err) "AbortError"
         then fst run = Return None
              /\ trace (snd run) = handled
              /\ abortControllerRef (snd run) = false
         else fst run = Throw err
              /\ trace (snd run)
                 = handled ++ (if onError opts && err_is_Error err
                               then [EvOnError err] else [])
     | Nullish =>
         fst run = Throw TypeError /\ trace (snd run) = handled
     end.
Proof.
  intros Hhandler Hstop Hfetch Hok Hbody Hacc Hmark Hparse Hprop Hobj
    called argument Hthrows run handled.
  pose proof (loop_after_call decode opts x res chunks script req (with_slot true w)
                document functionCall eq_refl Hstop Hfetch Hok Hbody Hacc
                Hmark Hparse Hprop Hobj) as Hloop.
  cbv zeta in Hloop. rewrite Hhandler, bind_emit in Hloop.
  unfold await at 1 in Hloop. unfold modify at 1 in Hloop.
  unfold bind at 1 in Hloop.
  fold called in Hloop. fold argument in Hloop. rewrite Hthrows in Hloop.
  unfold throw in Hloop.
  assert (Htrace : forall tail,
             (trace w ++ streaming_events decode opts x req chunks
              ++ EvMutate (req_messages req ++ [called]) true
                 :: finish_events opts (streamed_message decode x chunks))
             ++ EvHandler functionCall argument :: tail
             = handled ++ tail).
  { intros tail. unfold handled.
    rewrite <- ?app_assoc. cbn [app]. rewrite <- ?app_assoc. reflexivity. }
  unfold run.
  destruct thrown as [err|];
    [destruct (String.eqb (err_name err) "AbortError") eqn:Hname|].
  - rewrite (trigger_abort decode opts _ _ _ _ _ Hloop Hname).
    cbn [fst snd swr_data trace abortControllerRef render with_slot].
    repeat split. rewrite <- (app_nil_r handled), <- Htrace.
    rewrite <- ?app_assoc. reflexivity.
  - rewrite (trigger_throw decode opts _ _ _ _ _ Hloop Hname).
    cbn [fst snd swr_data trace render with_slot].
    repeat split. rewrite <- Htrace.
    rewrite <- ?app_assoc. cbn [app]. rewrite <- ?app_assoc. reflexivity.
  - rewrite (trigger_nullish decode opts _ _ _ _ Hloop).
    cbn [fst snd swr_data trace render with_slot].
    repeat split. rewrite <- (app_nil_r handled), <- Htrace.
    rewrite <- ?app_assoc. reflexivity.
Qed.

(** The turn of the loop in which the handler answers a function call:
    the loop goes on with the request the handler returned. *)
Lemma loop_after_handler
  (x : Exchange U) (res : Response U) (chunks : list U)
  (script : list (Exchange U)) (req : ChatRequest) (w : World)
  (document functionCall : JValue)
  (handler : JValue -> ChatRequest -> Thrown + ChatRequest) (next : ChatRequest) :
  abortControllerRef w = true ->
  functionCallHandler opts = Some handler ->
  x_stop_during_fetch x = false ->
  x_fetch x = FetchResolves res ->
  res_ok res = true ->
  res_body res = Some (map Chunk chunks) ->
  response_accepted opts res ->
  String.prefix function_call_marker (join (map decode chunks)) = true ->
  JSON_parse (join (map decode chunks)) = Some document ->
  get_prop document "function_call" = inr (Some functionCall) ->
  is_string functionCall = false ->
  let store := req_messages req
               ++ [parsed_message (x_nanoid x) (x_now x) (Some functionCall)] in
  let argument := {| req_messages := store; req_functions := req_functions req;
                     req_function_call := req_function_call req |} in
  handler functionCall argument = inr next ->
  function_call_loop decode opts (x :: script) req w =
  function_call_loop decode opts script next
    {| swr_data := store; messagesRef := store; abortControllerRef := true;
       trace := trace w ++ streaming_events decode opts x req chunks
                ++ EvMutate store true
                   :: finish_events opts (streamed_message decode x chunks)
                ++ [EvHandler functionCall argument] |}.
Proof.
  intros Hslot Hhandler Hstop Hfetch Hok Hbody Hacc Hmark Hparse Hprop Hobj
    store argument Hnext.
  rewrite (loop_after_call decode opts x res chunks script req w
             document functionCall Hslot Hstop Hfetch Hok Hbody Hacc
             Hmark Hparse Hprop Hobj).
  rewrite Hhandler, bind_emit.
  unfold await at 1. unfold modify at 1. unfold bind at 1.
  fold store. fold argument. rewrite Hnext.
  unfold render. cbn [swr_data messagesRef abortControllerRef trace].
  rewrite <- ?app_assoc. cbn [app]. rewrite <- ?app_assoc. reflexivity.
Qed.

(** X16.  The request made with the handler's answer fails: the cache is
    rolled back to what it held when that request began, the
    conversation with the function-call message, and not to what it held
    before the submission. *)
Theorem failed_follow_up_rolls_back_to_the_call
  (x : Exchange U) (res : Response U) (chunks : list U)
  (x2 : Exchange U) (script : list (Exchange U)) (req : ChatRequest) (w : World)
  (document functionCall : JValue)
  (handler : JValue -> ChatRequest -> Thrown + ChatRequest)
  (next : ChatRequest) (err : JsError) :
  functionCallHandler opts = Some handler ->
  x_stop_during_fetch x = false ->
  x_fetch x = FetchResolves res ->
  res_ok res = true ->
  res_body res = Some (map Chunk chunks) ->
  response_accepted opts res ->
  String.prefix function_call_marker (join (map decode chunks)) = true ->
  JSON_parse (join (map decode chunks)) = Some document ->
  get_prop document "function_call" = inr (Some functionCall) ->
  is_string functionCall = false ->
  let called := parsed_message (x_nanoid x) (x_now x) (Some functionCall) in
  let argument :=
    {| req_messages := req_messages req ++ [called];
       req_functions := req_functions req;
       req_function_call := req_function_call req |} in
  handler functionCall argument = inr next ->
  request_fails opts x2 err ->
  String.eqb (err_name err) "AbortError" = false ->
  exists w' pre,
    trigger decode opts (x :: x2 :: script) req w = (Throw err, w')
    /\ swr_data w' = req_messages req ++ [called]
    /\ trace w' = trace w ++ pre
                  ++ [EvHandler functionCall argument;
                      EvMutate (req_messages next) false;
                      EvFetch (request_body opts next)]
                  ++ (if x_stop_during_fetch x2 then [EvAbort] else [])
                  ++ EvMutate (req_messages req ++ [called]) false
                     :: (if onError opts && err_is_Error err
                         then [EvOnError err] else []).
Proof.
  intros Hhandler Hstop Hfetch Hok Hbody Hacc Hmark Hparse Hprop Hobj
    called argument Hnext Hfail Hname.
  pose proof (loop_after_handler x res chunks (x2 :: script) req (with_slot true w)
                document functionCall handler next eq_refl Hhandler Hstop Hfetch
                Hok Hbody Hacc Hmark Hparse Hprop Hobj Hnext) as Hloop.
  match type of Hloop with
  | _ = function_call_loop _ _ _ _ ?w2 =>
      destruct (failed_request decode opts x2 next w2 err Hfail)
        as (w3 & Hreq & Hstore & Htrace)
  end.
  rewrite (loop_throw decode opts x2 script next _ _ _ Hreq) in Hloop.
  pose proof (trigger_throw decode opts _ _ _ _ _ Hloop Hname) as Hrun.
  eexists.
  exists (streaming_events decode opts x req chunks
          ++ EvMutate (req_messages req ++ [called]) true
             :: finish_events opts (streamed_message decode x chunks)).
  split; [exact Hrun|]. split; [exact Hstore|].
  cbn [trace]. rewrite Htrace.
  cbn [trace with_slot abortControllerRef messagesRef].
  rewrite andb_true_r. fold called. fold argument.
  rewrite <- ?app_assoc. cbn [app]. rewrite <- ?app_assoc. reflexivity.
Qed.

(** X17.  A function call answered by the handler, then a plain reply: the
    fetcher makes two requests, the second with the request the handler
    returned, and returns the text of the second reply; the cache ends as
    the messages of the handler's request followed by that reply. *)
Theorem function_call_then_answer
  (x : Exchange U) (res : Response U) (chunks : list U)
  (x2 : Exchange U) (res2 : Response U) (c2 : U) (chunks2 : list U)
  (script : list (Exchange U)) (req : ChatRequest) (w : World)
  (document functionCall : JValue)
  (handler : JValue -> ChatRequest -> Thrown + ChatRequest)
  (next : ChatRequest) :
  functionCallHandler opts = Some handler ->
  x_stop_during_fetch x = false ->
  x_fetch x = FetchResolves res ->
  res_ok res = true ->
  res_body res = Some (map Chunk chunks) ->
  response_accepted opts res ->
  String.prefix function_call_marker (join (map decode chunks)) = true ->
  JSON_parse (join (map decode chunks)) = Some document ->
  get_prop document "function_call" = inr (Some functionCall) ->
  is_string functionCall = false ->
  let called := parsed_message (x_nanoid x) (x_now x) (Some functionCall) in
  let argument :=
    {| req_messages := req_messages req ++ [called];
       req_functions := req_functions req;
       req_function_call := req_function_call req |} in
  handler functionCall argument = inr next ->
  x_stop_during_fetch x2 = false ->
  x_fetch x2 = FetchResolves res2 ->
  res_ok res2 = true ->
  res_body res2 = Some (map Chunk (c2 :: chunks2)) ->
  response_accepted opts res2 ->
  let full := join (map decode (c2 :: chunks2)) in
  let reply := content_message (x_nanoid x2) (x_now x2) full in
  String.prefix function_call_marker full = false ->
  exists w',
    trigger decode opts (x :: x2 :: script) req w = (Return (Some full), w')
    /\ swr_data w' = req_messages next ++ [reply]
    /\ trace w' = trace w
                  ++ streaming_events decode opts x req chunks
                  ++ EvMutate (req_messages req ++ [called]) true
                     :: finish_events opts (streamed_message decode x chunks)
                  ++ EvHandler functionCall argument
                     :: streaming_events decode opts x2 next (c2 :: chunks2)
                  ++ finish_events opts (Some reply).
Proof.
  intros Hhandler Hstop Hfetch Hok Hbody Hacc Hmark Hparse Hprop Hobj
    called argument Hnext Hstop2 Hfetch2 Hok2 Hbody2 Hacc2 full reply Hfull.
  pose proof (loop_after_handler x res chunks (x2 :: script) req (with_slot true w)
                document functionCall handler next eq_refl Hhandler Hstop Hfetch
                Hok Hbody Hacc Hmark Hparse Hprop Hobj Hnext) as Hloop.
  match type of Hloop with
  | _ = function_call_loop _ _ _ _ ?w2 =>
      pose proof (gsr_content decode opts x2 res2 (c2 :: chunks2) next w2
                    eq_refl Hstop2 Hfetch2 Hok2 Hbody2 Hacc2) as Hreq
  end.
  rewrite running_joined in Hreq. specialize (Hreq Hfull).
  rewrite streamed_message_nonempty, streamed_store_nonempty in Hreq.
  fold full in Hreq. unfold streaming_message in Hreq. rewrite Hfull in Hreq.
  fold reply in Hreq.
  rewrite (loop_break decode opts x2 script next _ _ _ (req_messages next) reply
             Hreq eq_refl eq_refl) in Hloop.
  pose proof (trigger_return decode opts _ _ _ _ (req_messages next) reply
                Hloop eq_refl) as Hrun.
  eexists. split; [exact Hrun|]. split; [reflexivity|].
  cbn [trace with_slot render]. fold called. fold argument.
  rewrite <- ?app_assoc. cbn [app]. rewrite <- ?app_assoc. reflexivity.
Qed.

(** [stop] is called while a read is pending and that read still
    delivers a chunk. *)
Lemma read_loop_stop_chunk (messages : list Message) (replyId : string)
  (createdAt : Z) (pre : list U) (c : U) (rest : list (ReadEvent U)) (w0 : World) :
  abortControllerRef w0 = true ->
  let text := join (map decode (pre ++ [c])) in
  let reply := streaming_message replyId createdAt in
  read_loop decode messages replyId createdAt
    (map Chunk pre ++ StopCalled :: Chunk c :: rest) "" None w0
  = (Return (text, Some (reply text)),
     {| swr_data := messages ++ [reply text];
        messagesRef := last (map (fun t => messages ++ [reply t])
                               (running decode "" pre)) (swr_data w0);
        abortControllerRef := false;
        trace := trace w0
                 ++ map (fun t => EvMutate (messages ++ [reply t]) false)
                      (running decode "" pre)
                 ++ [EvAbort; EvMutate (messages ++ [reply text]) false;
                     EvReaderCancel] |}).
Proof.
  intros Hslot text reply. rewrite read_loop_stop by assumption.
  rewrite running_joined. cbn [read_loop]. run.
  rewrite (join_snoc decode). fold text. fold (reply text).
  rewrite <- !app_assoc. reflexivity.
Qed.

(** X18.  [stop] is called while a function call streams and the read in
    flight still delivers a chunk.  The loop ends after that chunk, and
    the text so far goes through [JSON.parse] all the same: when it does
    not parse, the submission throws the SyntaxError (it does not return
    [null]), and the cache keeps the message with the raw text. *)
Theorem stop_during_function_call_throws
  (x : Exchange U) (res : Response U) (pre : list U) (c : U)
  (rest : list (ReadEvent U)) (script : list (Exchange U))
  (req : ChatRequest) (w : World) :
  x_stop_during_fetch x = false ->
  x_fetch x = FetchResolves res ->
  res_ok res = true ->
  res_body res = Some (map Chunk pre ++ StopCalled :: Chunk c :: rest) ->
  response_accepted opts res ->
  let text := join (map decode (pre ++ [c])) in
  let pending := pending_message (x_nanoid x) (x_now x) text in
  String.prefix function_call_marker text = true ->
  JSON_parse text = None ->
  exists w',
    trigger decode opts (x :: script) req w = (Throw JSON_SyntaxError, w')
    /\ swr_data w' = req_messages req ++ [pending]
    /\ abortControllerRef w' = false
    /\ trace w' = trace w
                  ++ streaming_events decode opts x req pre
                  ++ [EvAbort; EvMutate (req_messages req ++ [pending]) false;
                      EvReaderCancel]
                  ++ (if onError opts then [EvOnError JSON_SyntaxError] else []).
Proof.
  intros Hstop Hfetch Hok Hbody Hacc text pending Hmark Hparse.
  pose proof (gsr_reads decode opts x res _ req (with_slot true w)
                Hstop Hfetch Hok Hbody Hacc) as Hreq.
  unfold bind in Hreq at 1. rewrite read_loop_stop_chunk in Hreq by reflexivity.
  fold text in Hreq. unfold finish_request in Hreq.
  rewrite Hmark, Hparse in Hreq.
  assert (Hpending : streaming_message (x_nanoid x) (x_now x) text = pending).
  { unfold streaming_message. now rewrite Hmark. }
  rewrite Hpending in Hreq.
  rewrite (bind_throw (throw JSON_SyntaxError) _ _ JSON_SyntaxError _ eq_refl)
    in Hreq.
  pose proof (trigger_throw decode opts _ _ _ _ _
                (loop_throw decode opts x script req _ _ _ Hreq) eq_refl) as Hrun.
  eexists. split; [exact Hrun|]. split; [reflexivity|]. split; [reflexivity|].
  cbn [trace with_slot err_is_Error JSON_SyntaxError]. rewrite andb_true_r.
  unfold streaming_events. rewrite <- ?app_assoc. cbn [app].
  rewrite <- ?app_assoc. reflexivity.
Qed.

(** X19.  [stop] does not end the function-call loop.  It is called while a
    function call streams and the read in flight delivers the rest of
    the text: the text parses, the handler is called all the same, and
    the request it returns is sent, with the abort slot empty. *)
Theorem stop_does_not_skip_the_handler
  (x : Exchange U) (res : Response U) (pre : list U) (c : U)
  (rest : list (ReadEvent U)) (script : list (Exchange U))
  (req : ChatRequest) (w : World) (document functionCall : JValue)
  (handler : JValue -> ChatRequest -> Thrown + ChatRequest) (next : ChatRequest) :
  functionCallHandler opts = Some handler ->
  x_stop_during_fetch x = false ->
  x_fetch x = FetchResolves res ->
  res_ok res = true ->
  res_body res = Some (map Chunk pre ++ StopCalled :: Chunk c :: rest) ->
  response_accepted opts res ->
  let text := join (map decode (pre ++ [c])) in
  let pending := pending_message (x_nanoid x) (x_now x) text in
  String.prefix function_call_marker text = true ->
  JSON_parse text = Some document ->
  get_prop document "function_call" = inr (Some functionCall) ->
  is_string functionCall = false ->
  let called := parsed_message (x_nanoid x) (x_now x) (Some functionCall) in
  let argument :=
    {| req_messages := req_messages req ++ [called];
       req_functions := req_functions req;
       req_function_call := req_function_call req |} in
  handler functionCall argument = inr next ->
  exists evs,
    trace (snd (trigger decode opts (x :: script) req w))
    = trace w
      ++ streaming_events decode opts x req pre
      ++ [EvAbort; EvMutate (req_messages req ++ [pending]) false; EvReaderCancel;
          EvMutate (req_messages req ++ [called]) true]
      ++ finish_events opts (Some pending)
      ++ [EvHandler functionCall argument;
          EvMutate (req_messages next) false;
          EvFetch (request_body opts next)]
      ++ evs.
Proof.
  intros Hhandler Hstop Hfetch Hok Hbody Hacc text pending Hmark Hparse Hprop
    Hobj called argument Hnext.
  pose proof (gsr_reads decode opts x res _ req (with_slot true w)
                Hstop Hfetch Hok Hbody Hacc) as Hreq.
  unfold bind in Hreq at 1. rewrite read_loop_stop_chunk in Hreq by reflexivity.
  fold text in Hreq. unfold finish_request in Hreq.
  rewrite Hmark, Hparse, Hprop in Hreq.
  assert (Hpending : streaming_message (x_nanoid x) (x_now x) text = pending).
  { unfold streaming_message. now rewrite Hmark. }
  rewrite Hpending in Hreq. fold called in Hreq.
  rewrite bind_mutate in Hreq.
  assert (Hfinish : exists w1,
             getStreamedResponse decode opts x req (with_slot true w)
             = (Return (Some pending), w1)
             /\ swr_data w1 = req_messages req ++ [called]
             /\ trace w1 = trace w
                           ++ streaming_events decode opts x req pre
                           ++ [EvAbort;
                               EvMutate (req_messages req ++ [pending]) false;
                               EvReaderCancel;
                               EvMutate (req_messages req ++ [called]) true]
                           ++ finish_events opts (Some pending)).
  { rewrite Hreq. unfold finish_events, streaming_events.
    destruct (onFinish opts); run; eexists;
      (split; [reflexivity|]); (split; [reflexivity|]);
      cbn [trace with_slot]; rewrite <- ?app_assoc; cbn [app];
      rewrite ?app_nil_r; reflexivity. }
  clear Hreq. destruct Hfinish as (w1 & Hreq & Hstore & Htrace).
  destruct (trigger_trace decode opts (x :: script) req w) as (evs' & Htr').
  rewrite Htr'. clear Htr'.
  cbn [function_call_loop]. rewrite (bind_return _ _ _ _ _ Hreq).
  unfold await at 1. unfold modify at 1. unfold bind at 1.
  match goal with
  | |- context [bind latest_message ?K ?wr] =>
      rewrite (bind_return latest_message K wr _ _
                 (latest_message_last (req_messages req) called wr Hstore))
  end.
  unfold loop_breaks. cbn [msg_function_call parsed_message called].
  rewrite Hobj, Hhandler, bind_gets.
  cbn [messagesRef render]. rewrite Hstore. fold argument.
  rewrite bind_emit.
  unfold await at 1. unfold modify at 1. unfold bind at 1. rewrite Hnext.
  match goal with
  | |- context [function_call_loop decode opts script next ?w2] =>
      destruct (function_call_loop_begins decode opts script next w2) as (evs & Htr)
  end.
  exists (evs ++ evs'). rewrite Htr. cbn [trace render]. rewrite Htrace.
  rewrite <- ?app_assoc. cbn [app]. rewrite <- ?app_assoc. reflexivity.
Qed.

End FunctionCalls.

(* ===================================================================== *)
(** * Every submission *)
(* ===================================================================== *)

(** What holds of a submission whatever the outside world does.  First,
    the events a routine can add to the history. *)

Section Emits.
Context {U : Type} (decode : U -> string) (opts : UseChatOptions U).
Variable P : Event -> Prop.
Hypothesis P_request : forall e, request_event e -> P e.
Hypothesis P_handler : forall functionCall chatRequest,
  for_the_last_message functionCall chatRequest ->
  P (EvHandler functionCall chatRequest).

Lemma emits_stay {A} (c : Completion A) w : only_emits P (fun w => (c, w)) w.
Proof. exists []. cbn. now rewrite app_nil_r. Qed.

Lemma emits_bind {A B} (m : M A) (k : A -> M B) w :
  only_emits P m w ->
  (forall a w1, m w = (Return a, w1) -> only_emits P (k a) w1) ->
  only_emits P (bind m k) w.
Proof.
  intros (evs & Htr & Hev) Hk. unfold only_emits, bind.
  destruct (m w) as [[a|e|] w1]; cbn [snd] in *; [|now exists evs..].
  destruct (Hk a w1 eq_refl) as (evs' & Htr' & Hev').
  exists (evs ++ evs'). rewrite Htr', Htr, app_assoc.
  split; [reflexivity|now apply Forall_app].
Qed.

Lemma emits_modify (f : World -> World) w :
  trace (f w) = trace w -> only_emits P (modify f) w.
Proof. intros Htr. exists []. cbn. now rewrite app_nil_r. Qed.

Lemma emits_emit e w : P e -> only_emits P (emit e) w.
Proof. intros He. exists [e]. cbn. split; [reflexivity|now constructor]. Qed.

Lemma emits_mutate data revalidate w : only_emits P (mutate data revalidate) w.
Proof.
  exists [EvMutate data revalidate]. cbn. split; [reflexivity|].
  constructor; [now apply P_request|constructor].
Qed.

Lemma emits_stop w : only_emits P stop w.
Proof.
  unfold stop. apply emits_bind; [apply (emits_stay (Return _))|].
  intros [] w1 _; [|apply (emits_stay (Return tt))].
  apply emits_bind; [now apply emits_emit, P_request|].
  intros _ w2 _. now apply emits_modify.
Qed.

Lemma emits_when (b : bool) (m : M unit) w :
  (b = true -> only_emits P m w) -> only_emits P (when b m) w.
Proof. destruct b; intros H; [now apply H|apply (emits_stay (Return tt))]. Qed.

Lemma emits_read_loop messages replyId createdAt body : forall acc rm w,
  only_emits P (read_loop decode messages replyId createdAt body acc rm) w.
Proof.
  induction body as [|[value|err|] body IH]; intros acc rm w; cbn [read_loop];
    (apply emits_bind; [now apply emits_modify|]); intros _ w1 _.
  - apply (emits_stay (Return _)).
  - apply emits_bind; [apply emits_mutate|]. intros _ w2 _.
    apply emits_bind; [apply (emits_stay (Return _))|].
    intros [] w3 _; [apply IH|].
    apply emits_bind; [now apply emits_emit, P_request|]. intros _ w4 _.
    apply (emits_stay (Return _)).
  - apply (emits_stay (Throw _)).
  - apply emits_bind; [apply emits_stop|]. intros _ w2 _. apply IH.
Qed.

Lemma emits_getStreamedResponse x req w :
  only_emits P (getStreamedResponse decode opts x req) w.
Proof.
  unfold getStreamedResponse.
  apply emits_bind; [apply (emits_stay (Return _))|]. intros previousMessages w1 _.
  apply emits_bind; [apply emits_mutate|]. intros _ w2 _.
  apply emits_bind; [now apply emits_emit, P_request|]. intros _ w3 _.
  apply emits_bind; [now apply emits_modify|]. intros _ w4 _.
  apply emits_bind; [apply emits_when; intros _; apply emits_stop|]. intros _ w5 _.
  destruct (x_fetch x) as [err|res|].
  - apply emits_bind; [apply emits_mutate|]. intros _ w6 _.
    apply emits_bind; [now apply emits_modify|]. intros _ w7 _.
    apply (emits_stay (Throw _)).
  - apply emits_bind.
    { destruct (onResponse opts) as [callback|];
        [destruct (callback res)|]; apply emits_stay. }
    intros _ w6 _. destruct (negb (res_ok res)).
    { apply emits_bind; [apply emits_mutate|]. intros _ w7 _.
      apply emits_bind; [now apply emits_modify|]. intros _ w8 _.
      apply (emits_stay (Throw _)). }
    destruct (res_body res) as [body|]; [|apply (emits_stay (Throw _))].
    apply emits_bind; [apply emits_read_loop|].
    intros [result responseMessage] w7 _.
    apply emits_bind.
    { destruct (String.prefix function_call_marker result);
        [|apply (emits_stay (Return _))].
      destruct (JSON_parse result) as [document|];
        [|apply (emits_stay (Throw _))].
      destruct (get_prop document "function_call") as [|parsedFunctionCall];
        [apply (emits_stay (Throw _))|apply emits_mutate]. }
    intros _ w8 _.
    apply emits_bind;
      [apply emits_when; intros _; now apply emits_emit, P_request|].
    intros _ w9 _. apply (emits_stay (Return _)).
  - apply (emits_stay Suspended).
Qed.

Lemma emits_latest_message w : only_emits P latest_message w.
Proof.
  unfold latest_message.
  apply emits_bind; [apply (emits_stay (Return _))|]. intros ref w1 _.
  destruct (rev ref); apply emits_stay.
Qed.

Lemma latest_message_returns w m w1 :
  latest_message w = (Return m, w1) ->
  w1 = w /\ exists l, messagesRef w = l ++ [m].
Proof.
  unfold latest_message. rewrite bind_gets.
  destruct (rev (messagesRef w)) as [|m' l] eqn:Hrev; [discriminate|].
  intros [= <- <-]. split; [reflexivity|]. exists (rev l).
  now rewrite <- (rev_involutive (messagesRef w)), Hrev.
Qed.

Lemma emits_function_call_loop script : forall req w,
  only_emits P (function_call_loop decode opts script req) w.
Proof.
  induction script as [|x script IH]; intros req w; cbn [function_call_loop];
    (apply emits_bind; [apply emits_getStreamedResponse|]); intros _ w1 _.
  - apply (emits_stay Suspended).
  - apply emits_bind; [now apply emits_modify|]. intros _ w2 _.
    apply emits_bind; [apply emits_latest_message|]. intros latest w3 Hlatest.
    apply latest_message_returns in Hlatest as (-> & l & Href).
    destruct (loop_breaks latest) eqn:Hbreak; [apply (emits_stay (Return tt))|].
    destruct (functionCallHandler opts) as [handler|]; [|apply IH].
    destruct (msg_function_call latest) as [functionCall|] eqn:Hcall; [|apply IH].
    apply emits_bind; [apply (emits_stay (Return _))|]. intros ref w4 [= <- <-].
    apply emits_bind.
    { apply emits_emit, P_handler. split.
      - unfold loop_breaks in Hbreak. now rewrite Hcall in Hbreak.
      - exists l, latest. split; [exact Href|exact Hcall]. }
    intros _ w5 _.
    apply emits_bind; [now apply emits_modify|]. intros _ w6 _.
    destruct (handler functionCall _) as [err|next];
      [apply (emits_stay (Throw err))|apply IH].
Qed.

(** The body of the fetcher, before its catch block. *)
Lemma emits_fetcher_body script req w :
  only_emits P
    (set_abortControllerRef true ;;
     function_call_loop decode opts script req ;;
     set_abortControllerRef false ;;
     latestMessage <- latest_message ;;
     ret (Some (msg_content latestMessage))) w.
Proof.
  apply emits_bind; [now apply emits_modify|]. intros _ w1 _.
  apply emits_bind; [apply emits_function_call_loop|]. intros _ w2 _.
  apply emits_bind; [now apply emits_modify|]. intros _ w3 _.
  apply emits_bind; [apply emits_latest_message|]. intros latest w4 _.
  apply (emits_stay (Return _)).
Qed.

End Emits.

Section EverySubmission.
Context {U : Type} (decode : U -> string) (opts : UseChatOptions U).

(** X20.  [onError] is called by the catch block of the fetcher and nowhere
    else.  Whatever the outside world does and whatever is thrown
    ([null] and [undefined] included), a submission calls it at most
    once, as the last thing it does, with an [Error], and then throws
    that very value.  The fetcher never throws [null] or [undefined] nor
    an object named AbortError (an abort makes it return [null] and is
    not reported), and an [Error] it throws under another name than
    TypeError has been reported, when [onError] is configured.  (A
    TypeError may be the one the catch block itself throws on reading
    the name of [null] or [undefined], which skips [onError].) *)
Theorem onError_is_called_once_and_last
  (script : list (Exchange U)) (req : ChatRequest) (w : World) :
  let run := trigger decode opts script req w in
  exists evs tail,
    trace (snd run) = trace w ++ evs ++ tail
    /\ Forall quiet evs
    /\ (tail = []
        \/ exists err : JsError,
             tail = [EvOnError err] /\ fst run = Throw err
             /\ onError opts = true /\ err_is_Error err = true)
    /\ (forall err : JsError, fst run = Throw err ->
          String.eqb (err_name err) "AbortError" = false
          /\ (onError opts = true -> err_is_Error err = true ->
              String.eqb (err_name err) "TypeError" = false ->
              tail = [EvOnError err]))
    /\ fst run <> Throw Nullish.
Proof.
  intros run. unfold run.
  assert (Hbody : only_emits quiet
                    (set_abortControllerRef true ;;
                     function_call_loop decode opts script req ;;
                     set_abortControllerRef false ;;
                     latestMessage <- latest_message ;;
                     ret (Some (msg_content latestMessage))) w).
  { apply emits_fetcher_body; [now intros []|intros; exact I]. }
  destruct Hbody as (evs & Htr & Hev). exists evs.
  unfold trigger, try_catch.
  destruct ((set_abortControllerRef true ;;
             function_call_loop decode opts script req ;;
             set_abortControllerRef false ;;
             latestMessage <- latest_message ;;
             ret (Some (msg_content latestMessage))) w) as [[r|[err|]|] w1];
    cbn [fst snd] in *.
  - exists []. rewrite app_nil_r.
    repeat split; [exact Htr|exact Hev|now left|discriminate..].
  - destruct (String.eqb (err_name err) "AbortError") eqn:Hname.
    + exists []. cbn. rewrite app_nil_r.
      repeat split; [exact Htr|exact Hev|now left|discriminate..].
    + destruct (onError opts) eqn:Hon, (err_is_Error err) eqn:Herr; run;
        rewrite ?Hon, ?Herr; cbn [andb];
        [exists [EvOnError err]|exists []..];
        rewrite ?app_nil_r, ?Htr, <- ?app_assoc;
        (split; [reflexivity|]); (split; [exact Hev|]);
        (split; [first [now left | right; exists err; now repeat split]|]);
        (split; [|discriminate]);
        intros err' [= <-]; (split; [exact Hname|]);
        intros; congruence.
  - exists []. cbn. rewrite app_nil_r.
    repeat split; [exact Htr|exact Hev|now left|now injection H as <-|
                   |discriminate].
    intros _ _ Hno. injection H as <-. discriminate Hno.
  - exists []. rewrite app_nil_r.
    repeat split; [exact Htr|exact Hev|now left|discriminate..].
Qed.


(** The loop returns from a suspension point: the mirror is in step with
    the cache. *)
Lemma loop_returns_settled script : forall req w w1,
  function_call_loop decode opts script req w = (Return tt, w1) ->
  messagesRef w1 = swr_data w1.
Proof.
  induction script as [|x script IH]; intros req w w1 H;
    cbn [function_call_loop] in H; unfold bind at 1 in H.
  { destruct (getStreamedResponse decode opts unanswered req w) as [[r|e|] w2];
      discriminate. }
  destruct (getStreamedResponse decode opts x req w) as [[r|e|] w2];
    try discriminate.
  unfold await, latest_message, modify, gets, bind, ret, throw, emit in H.
  cbn [render messagesRef swr_data] in H.
  destruct (rev (swr_data w2)) as [|m l]; [discriminate|].
  destruct (loop_breaks m).
  { injection H as <-. reflexivity. }
  destruct (functionCallHandler opts) as [handler|]; [|exact (IH _ _ _ H)].
  destruct (msg_function_call m) as [functionCall|]; [|exact (IH _ _ _ H)].
  cbn [render messagesRef swr_data abortControllerRef trace] in H.
  destruct (handler functionCall _) as [err|next]; [discriminate|].
  exact (IH _ _ _ H).
Qed.

(** X21.  Whatever the outside world does, when the fetcher returns a text
    the mirror is in step with the cache, the cache is not empty, and
    the text is the content of its last message. *)
Theorem returned_text_is_the_last_message
  (script : list (Exchange U)) (req : ChatRequest) (w : World) (text : string) :
  fst (trigger decode opts script req w) = Return (Some text) ->
  let w' := snd (trigger decode opts script req w) in
  messagesRef w' = swr_data w'
  /\ exists l m, swr_data w' = l ++ [m] /\ msg_content m = text.
Proof.
  intros Hret w'. revert Hret. unfold w', trigger, try_catch, latest_message.
  unfold bind, set_abortControllerRef, modify, gets, ret, throw.
  destruct (function_call_loop decode opts script req (with_slot true w))
    as [[[]|[err|]|] w1] eqn:Hloop.
  - apply loop_returns_settled in Hloop.
    cbn [messagesRef with_slot].
    destruct (rev (messagesRef w1)) as [|m l] eqn:Hrev.
    + cbn. destruct (onError opts); cbn; discriminate.
    + cbn [fst snd swr_data messagesRef]. intros [= <-].
      split; [exact Hloop|].
      exists (rev l), m. split; [|reflexivity].
      cbn [swr_data with_slot].
      rewrite <- Hloop, <- (rev_involutive (messagesRef w1)), Hrev.
      reflexivity.
  - destruct (String.eqb (err_name err) "AbortError"); [discriminate|].
    destruct (onError opts && err_is_Error err); run; discriminate.
  - discriminate.
  - discriminate.
Qed.


(** X22.  Whatever the outside world does, the handler is only called for a
    function call that is not a string, and the request it is given ends
    with the message that carries this function call. *)
Theorem handler_is_called_for_the_last_message
  (script : list (Exchange U)) (req : ChatRequest) (w : World) :
  exists evs,
    trace (snd (trigger decode opts script req w)) = trace w ++ evs
    /\ forall functionCall chatRequest,
         In (EvHandler functionCall chatRequest) evs ->
         is_string functionCall = false
         /\ exists l m, req_messages chatRequest = l ++ [m]
                        /\ msg_function_call m = Some functionCall.
Proof.
  destruct (emits_fetcher_body decode opts handler_call_ok
              ltac:(now intros []) ltac:(intros ? ? H; exact H) script req w)
    as (evs & Htr & Hev).
  destruct (trigger_grows decode opts script req w) as (evs' & Htr' & Hev').
  assert (Hloop : trace (snd (function_call_loop decode opts script req
                                (with_slot true w))) = trace w ++ evs).
  { revert Htr. unfold set_abortControllerRef at 1. unfold modify at 1.
    unfold bind at 1. unfold bind at 1.
    destruct (function_call_loop decode opts script req (with_slot true w))
      as [[[]|err|] w1]; cbn [snd]; try (intros H; exact H).
    unfold set_abortControllerRef, modify, latest_message, gets, bind, ret, throw.
    cbn [messagesRef with_slot]. destruct (rev (messagesRef w1)); cbn;
      intros H; exact H. }
  exists (evs ++ evs'). rewrite Htr', Hloop, app_assoc. split; [reflexivity|].
  intros functionCall chatRequest Hin. apply in_app_or in Hin as [Hin|Hin].
  - rewrite Forall_forall in Hev. exact (Hev _ Hin).
  - destruct (Hev' _ Hin) as (err & Herr). discriminate.
Qed.

End EverySubmission.


(* ===================================================================== *)
(** * The form handlers and the chat panel *)
(* ===================================================================== *)

Section Components.
Context {U : Type} (decode : U -> string) (opts : UseChatOptions U).

(** The fetcher keeps or restores the cache of a request that fails,
    whether the error is an abort or not. *)
Lemma failed_trigger_store (x : Exchange U) (script : list (Exchange U))
  (req : ChatRequest) (w : World) (err : JsError) :
  request_fails opts x err ->
  swr_data (snd (trigger decode opts (x :: script) req w)) = messagesRef w.
Proof.
  intros Hfail.
  destruct (failed_request decode opts x req (with_slot true w) err Hfail)
    as (w1 & Hreq & Hstore & _).
  pose proof (loop_throw decode opts x script req _ _ _ Hreq) as Hloop.
  destruct (String.eqb (err_name err) "AbortError") eqn:Hname.
  - now rewrite (trigger_abort decode opts _ _ _ _ _ Hloop Hname).
  - now rewrite (trigger_throw decode opts _ _ _ _ _ Hloop Hname).
Qed.

(** X23.  [handleSubmit]: the default action of the form is prevented in
    every case; with an empty input nothing else happens; otherwise the
    input, as a user message dated now, is appended and submitted, and
    the input is cleared. *)
Theorem handleSubmit_submits_the_input
  (now : Z) (drawn : string) (script : list (Exchange U)) (e : FormEvent)
  (functions : option (list JValue)) (h : Hook) :
  let message :=
    {| msg_id := drawn; msg_createdAt := Some now; msg_content := input h;
       msg_role := user; msg_name := None; msg_function_call := None |} in
  let req := {| req_messages := messagesRef (cells h) ++ [message];
                req_functions := functions; req_function_call := None |} in
  let e' := fst (handleSubmit decode opts now drawn script e functions h) in
  let h' := snd (handleSubmit decode opts now drawn script e functions h) in
  defaultPrevented e' = true
  /\ (input h = "" -> h' = h)
  /\ (input h <> "" ->
      input h' = ""
      /\ cells h' = snd (trigger decode opts script req (cells h))
      /\ exists evs,
           trace (cells h')
           = trace (cells h)
             ++ [EvMutate (req_messages req) false;
                 EvFetch (request_body opts req)] ++ evs).
Proof.
  intros message req e' h'. unfold e', h', handleSubmit.
  destruct (input h) as [|c s] eqn:Hinput; cbn [fst snd].
  - split; [reflexivity|]. split; [reflexivity|]. congruence.
  - split; [reflexivity|]. split; [discriminate|]. intros _.
    cbn [setInput input cells]. split; [reflexivity|].
    assert (Hrun : floating
                     (append decode opts drawn script
                        {| cm_id := None; cm_createdAt := Some now;
                           cm_content := String c s; cm_role := user;
                           cm_name := None; cm_function_call := None |}
                        functions None) (cells h)
                   = snd (trigger decode opts script req (cells h))).
    { unfold floating, append. now rewrite bind_gets. }
    rewrite Hrun. split; [reflexivity|]. apply trigger_begins.
Qed.

(** X24.  [handleSubmit] does not wait for the submission: when the request
    fails, the input has been cleared all the same and the cache is
    rolled back, so the text is in neither. *)
Theorem handleSubmit_drops_the_text_on_failure
  (now : Z) (drawn : string) (x : Exchange U) (script : list (Exchange U))
  (e : FormEvent) (functions : option (list JValue)) (h : Hook) (err : JsError) :
  input h <> "" ->
  request_fails opts x err ->
  swr_data (cells h) = messagesRef (cells h) ->
  let h' := snd (handleSubmit decode opts now drawn (x :: script) e functions h) in
  input h' = "" /\ swr_data (cells h') = swr_data (cells h).
Proof.
  intros Hinput Hfail Hsettled h'. unfold h', handleSubmit.
  destruct (input h) as [|c s]; [congruence|].
  cbn [fst snd setInput input cells]. split; [reflexivity|].
  unfold floating, append. rewrite bind_gets.
  rewrite (failed_trigger_store x script _ _ err Hfail). now symmetry.
Qed.

(** X25.  The panel gives every message it submits the id of the chat.  In
    a chat that has an id, the request holds the sequence followed by a
    user message under that id, with the panel's function definitions;
    once a message of the chat is in the sequence, the ids of the
    request are not distinct. *)
Theorem panel_messages_share_the_chat_id
  (i : string) (drawn : string) (script : list (Exchange U)) (value : string)
  (w : World) :
  i <> "" ->
  let m := {| msg_id := i; msg_createdAt := None; msg_content := value;
              msg_role := user; msg_name := None; msg_function_call := None |} in
  let req := {| req_messages := messagesRef w ++ [m];
                req_functions := Some ChatPanel.functions;
                req_function_call := None |} in
  (exists evs,
      trace (snd (ChatPanel.onSubmit decode opts (Some i) drawn script value w))
      = trace w ++ [EvMutate (req_messages req) false;
                    EvFetch (request_body opts req)] ++ evs)
  /\ (In i (map msg_id (messagesRef w)) ->
      ~ NoDup (map msg_id (req_messages req))).
Proof.
  intros Hi m req. split.
  - assert (Hrun : snd (ChatPanel.onSubmit decode opts (Some i) drawn script value w)
                   = snd (trigger decode opts script req w)).
    { unfold ChatPanel.onSubmit, append. unfold bind at 1. rewrite bind_gets.
      unfold with_id, id_missing. cbn [cm_id cm_createdAt cm_content cm_role
        cm_name cm_function_call].
      assert (Hm : (if match i with EmptyString => true | String _ _ => false end
                    then drawn else i) = i) by now destruct i.
      rewrite Hm. fold m. fold req.
      now destruct (trigger decode opts script req w) as [[r|err|] w']. }
    rewrite Hrun. apply trigger_begins.
  - intros Hin Hnodup. cbn [req_messages req] in Hnodup.
    rewrite map_app in Hnodup. cbn [map msg_id m] in Hnodup.
    apply NoDup_remove_2 in Hnodup. apply Hnodup.
    now rewrite app_nil_r.
Qed.

(** X26.  The panel offers to regenerate only when there is a message, so
    on a settled cache the click always makes a request; and it calls
    [reload] without arguments, so that request carries no function
    definitions. *)
Theorem regenerate_sends_no_functions
  (isLoading : bool) (script : list (Exchange U)) (w : World) :
  ChatPanel.button isLoading (swr_data w) = Some ChatPanel.RegenerateResponse ->
  messagesRef w = swr_data w ->
  exists req evs,
    trace (ChatPanel.onClick decode opts ChatPanel.RegenerateResponse script w)
    = trace w ++ [EvMutate (req_messages req) false;
                  EvFetch (request_body opts req)] ++ evs
    /\ body_functions (request_body opts req) = None
    /\ (req_messages req = swr_data w
        \/ req_messages req = removelast (swr_data w)).
Proof.
  intros Hbutton Hsettled. unfold ChatPanel.button in Hbutton.
  destruct isLoading; [discriminate|].
  destruct (swr_data w) as [|m0 l0] eqn:Hdata; [discriminate|].
  destruct (exists_last (l := m0 :: l0) ltac:(discriminate)) as (l & m & Hlm).
  rewrite Hlm in *. clear Hlm Hbutton.
  cbn [ChatPanel.onClick]. unfold floating, reload.
  rewrite bind_gets, Hsettled, rev_unit, removelast_last.
  destruct (Role_eqb (msg_role m) assistant).
  - destruct (trigger_begins decode opts script
                {| req_messages := l; req_functions := None;
                   req_function_call := None |} w) as (evs & Htr).
    eexists. exists evs. split; [exact Htr|]. split; [reflexivity|now right].
  - destruct (trigger_begins decode opts script
                {| req_messages := l ++ [m]; req_functions := None;
                   req_function_call := None |} w) as (evs & Htr).
    eexists. exists evs. split; [exact Htr|]. split; [reflexivity|now left].
Qed.

End Components.

(* ===================================================================== *)
(** * The properties on the example data *)
(* ===================================================================== *)

Module Witnesses.
Import Examples.


Lemma no_handler_resubmits_witness :
  fst (trigger decode_text no_options [streams [Chunk time_call_text]]
         hello_request idle)
  = Suspended.
Proof.
  apply (no_handler_resubmits decode_text no_options
           (streams [Chunk time_call_text]) (streamed [Chunk time_call_text])
           [time_call_text] []
           hello_request idle (JObject [("function_call", time_call)]) time_call);
    reflexivity.
Defined.

Lemma empty_body_is_not_rolled_back_witness :
  exists w',
    trigger decode_text no_options [responds no_body] hello_request idle
    = (Throw (new_Error "The response body is empty."), w')
    /\ swr_data w' = [hello].
Proof.
  destruct (empty_body_is_not_rolled_back decode_text no_options
              (responds no_body) no_body [] hello_request idle
              eq_refl eq_refl eq_refl I) as (w' & Hrun & Hstore & _).
  exists w'. split; [exact Hrun|exact Hstore].
Defined.

Lemma stop_mid_stream_witness :
  exists w',
    trigger decode_text no_options
      [streams [Chunk "Hel"; StopCalled; Chunk "lo"; Chunk "!"]] hello_request idle
    = (Return (Some "Hello"), w')
    /\ swr_data w' = [hello; content_message "r1" 2000 "Hello"].
Proof.
  destruct (stop_mid_stream decode_text no_options
              (streams [Chunk "Hel"; StopCalled; Chunk "lo"; Chunk "!"])
              (streamed [Chunk "Hel"; StopCalled; Chunk "lo"; Chunk "!"])
              ["Hel"] [Chunk "!"] [] hello_request idle
              eq_refl eq_refl eq_refl I) as (_ & _ & Hchunk).
  destruct (Hchunk "lo" eq_refl eq_refl) as (w' & Hrun & Hstore & _).
  exists w'. split; [exact Hrun|exact Hstore].
Defined.

Lemma function_call_stream_witness :
  exists w',
    getStreamedResponse decode_text no_options
      (streams (map Chunk time_call_chunks)) hello_request
      (with_slot true idle)
    = (Return (Some (pending_message "r1" 2000 time_call_text)), w')
    /\ swr_data w' = [hello; parsed_message "r1" 2000 (Some time_call)].
Proof.
  destruct (function_call_stream decode_text no_options
              (streams (map Chunk time_call_chunks))
              (streamed (map Chunk time_call_chunks)) time_call_chunks []
              hello_request (with_slot true idle)
              eq_refl eq_refl eq_refl eq_refl I eq_refl) as (_ & _ & Hparsed & _).
  destruct (Hparsed (JObject [("function_call", time_call)]) (Some time_call)
              eq_refl eq_refl eq_refl) as (w' & Hrun & Hstore & _).
  exists w'. split; [exact Hrun|exact Hstore].
Defined.

Lemma function_call_round_trip_witness :
  exists evs,
    trace (snd (trigger decode_text with_clock
                  [streams (map Chunk time_call_chunks);
                   streams [Chunk "It is noon."]]
                  hello_request idle))
    = [EvMutate [hello] false;
       EvFetch (request_body with_clock hello_request);
       EvMutate [hello; pending_message "r1" 2000 (hd "" time_call_chunks)] false;
       EvMutate [hello; pending_message "r1" 2000 time_call_text] false;
       EvMutate [hello; parsed_message "r1" 2000 (Some time_call)] true;
       EvHandler time_call
         {| req_messages := [hello; parsed_message "r1" 2000 (Some time_call)];
            req_functions := None; req_function_call := None |};
       EvMutate [hello; parsed_message "r1" 2000 (Some time_call); clock_message]
         false;
       EvFetch (request_body with_clock
                  {| req_messages := [hello;
                                      parsed_message "r1" 2000 (Some time_call);
                                      clock_message];
                     req_functions := None; req_function_call := None |})]
      ++ evs.
Proof.
  exact (function_call_round_trip decode_text with_clock
           (streams (map Chunk time_call_chunks))
           (streamed (map Chunk time_call_chunks)) time_call_chunks
           [streams [Chunk "It is noon."]] hello_request idle clock_handler _
           eq_refl eq_refl eq_refl eq_refl eq_refl I eq_refl eq_refl).
Defined.

Lemma plain_stream_accumulates_witness :
  let reply := fun text : string =>
    {| msg_id := "r1"; msg_createdAt := Some 2000%Z; msg_content := text;
       msg_role := assistant; msg_name := None; msg_function_call := None |} in
  exists w',
    trigger decode_text no_options
      [streams [Chunk "Hel"; Chunk "lo wor"; Chunk "ld"]] hello_request idle
    = (Return (Some "Hello world"), w')
    /\ swr_data w' = [hello; reply "Hello world"]
    /\ trace w'
       = [EvMutate [hello] false;
          EvFetch (request_body no_options hello_request);
          EvMutate [hello; reply "Hel"] false;
          EvMutate [hello; reply "Hello wor"] false;
          EvMutate [hello; reply "Hello world"] false].
Proof.
  apply (plain_stream_accumulates decode_text no_options
           (streams [Chunk "Hel"; Chunk "lo wor"; Chunk "ld"])
           (streamed [Chunk "Hel"; Chunk "lo wor"; Chunk "ld"])
           "Hel" ["lo wor"; "ld"] [] hello_request idle
           eq_refl eq_refl eq_refl eq_refl I).
  intros [|[|[|k]]]; reflexivity.
Defined.

Lemma reload_resubmits_witness :
  reload decode_text no_options [streams [Chunk "It is one."]] None None chatting
  = trigger decode_text no_options [streams [Chunk "It is one."]]
      hello_request chatting.
Proof.
  apply (reload_resubmits decode_text no_options [streams [Chunk "It is one."]]
           None None chatting [hello] answer eq_refl).
Defined.

Lemma append_assigns_id_and_submits_witness :
  msg_id (with_id "u2" question) = "u2"
  /\ msg_id (with_id "u2" (question_with_id "mine")) = "mine"
  /\ append decode_text no_options "u2" [] question None None chatting
     = trigger decode_text no_options []
         {| req_messages := [hello; answer; with_id "u2" question];
            req_functions := None; req_function_call := None |} chatting
  /\ exists evs,
       trace (snd (append decode_text with_clock "u2"
                     [streams (map Chunk time_call_chunks);
                      streams [Chunk "It is noon."]]
                     (question_with_id "mine") None None chatting))
       = evs
       /\ Forall (good_event
                    (keeps_message [hello; answer]
                       (with_id "u2" (question_with_id "mine")))) evs.
Proof.
  destruct (append_assigns_id_and_submits decode_text no_options "u2" []
              question None None chatting) as (Hid & _ & _ & _ & Hrun & _).
  destruct (append_assigns_id_and_submits decode_text with_clock "u2"
              [streams (map Chunk time_call_chunks);
               streams [Chunk "It is noon."]]
              (question_with_id "mine") None None chatting)
    as (_ & Hkeep & _ & _ & _ & _ & Hwrites).
  split; [exact (Hid (or_introl eq_refl))|].
  split; [apply (Hkeep "mine" eq_refl); discriminate|].
  split; [exact Hrun|].
  apply Hwrites.
  intros handler functionCall given next Hhandler Hnext (more & Hgiven).
  injection Hhandler as <-. injection Hnext as <-.
  exists (more ++ [clock_message]). cbn [req_messages].
  rewrite Hgiven, <- app_assoc. reflexivity.
Defined.

Lemma empty_stream_returns_undefined_witness :
  exists w',
    getStreamedResponse decode_text no_options (streams []) hello_request idle
    = (Return None, w')
    /\ swr_data w' = [hello].
Proof.
  destruct (empty_stream_returns_undefined decode_text no_options
              (streams []) (streamed []) hello_request idle
              eq_refl eq_refl eq_refl I)
    as (w' & Hrun & Hstore & _).
  exists w'. split; [exact Hrun|exact Hstore].
Defined.

End Witnesses.

(* ===================================================================== *)
(** * Where the code departs from the specification *)
(* ===================================================================== *)

Module Counterexamples.
Import Examples Sessions.

(** C4 as stated fails.  [stop] is called after the first chunk and the
    pending read still delivers a second one: that chunk is written to
    the cache after the abort, and the submission returns the text, not
    [null]. *)
Lemma stop_is_checked_after_the_chunk :
  let run :=
    trigger decode_text no_options
      [streams [Chunk "Hel"; StopCalled; Chunk "lo"; Chunk "!"]] hello_request idle in
  fst run = Return (Some "Hello")
  /\ fst run <> Return None
  /\ ~ no_replace_after_stop (trace (snd run)).
Proof.
  split; [reflexivity|]. split; [discriminate|].
  intros H.
  apply (H [EvMutate [hello] false;
            EvFetch (request_body no_options hello_request);
            EvMutate [hello; content_message "r1" 2000 "Hel"] false]
           [EvMutate [hello; content_message "r1" 2000 "Hello"] false;
            EvReaderCancel]
           eq_refl
           [hello; content_message "r1" 2000 "Hello"] false).
  now left.
Qed.

(** C9 as stated fails, in five ways.

    An id given as the empty string is not kept: the message goes under
    the drawn id.

    [nanoid()] is called without a look at the conversation: when it
    returns an id in use, here the id the caller gave an earlier message,
    the id assigned is not unique and the request holds two messages
    under it.

    A function-call handler may return any request: here it returns
    copies of the messages under other ids, and the cache written next
    holds no message under the id that was given.

    When the request fails the cache is written back to the sequence
    found, which does not hold the message.

    The request is built from [messagesRef], not from the cache: called
    from [onFinish] after a function-call reply, [append] submits the
    streamed message of the last render where the cache holds the parsed
    one. *)
Lemma append_as_stated_fails :
  (cm_id (question_with_id "") = Some ""
   /\ msg_id (with_id "u2" (question_with_id "")) = "u2")
  /\ (let m := with_id "Vx3kQ9a" question in
      cm_id question = None
      /\ In (msg_id m) (map msg_id (messagesRef resumed))
      /\ append decode_text no_options "Vx3kQ9a" [] question None None resumed
         = trigger decode_text no_options []
             {| req_messages := [sent_before; answer; m];
                req_functions := None; req_function_call := None |} resumed
      /\ ~ NoDup (map msg_id [sent_before; answer; m]))
  /\ (let run := append decode_text with_copying_clock "u2"
                   [streams (map Chunk time_call_chunks)]
                   (question_with_id "mine") None None chatting in
      let next := map copied [hello; answer; with_id "u2" (question_with_id "mine");
                              called]
                  ++ [clock_message] in
      In (EvMutate next false) (trace (snd run))
      /\ ~ In "mine" (map msg_id next))
  /\ (let run := append decode_text no_options "u2" [responds server_error]
                   (question_with_id "mine") None None chatting in
      swr_data (snd run) = [hello; answer]
      /\ ~ In "mine" (map msg_id (swr_data (snd run))))
  /\ (let streamed_call := pending_message "r1" 2000 time_call_text in
      let m := with_id "u2" question in
      swr_data at_onFinish = [hello; called]
      /\ messagesRef at_onFinish = [hello; streamed_call]
      /\ append decode_text no_options "u2" [] question None None at_onFinish
         = trigger decode_text no_options []
             {| req_messages := [hello; streamed_call; m];
                req_functions := None; req_function_call := None |} at_onFinish
      /\ [hello; streamed_call; m] <> swr_data at_onFinish ++ [m]).
Proof.
  split; [now split|]. split; [|split; [|split]].
  - repeat split; [now left|]. intros H. apply NoDup_cons_iff in H.
    apply (proj1 H). right. now left.
  - split.
    + vm_compute. repeat (first [left; reflexivity|right]).
    + cbn. intros [H|[H|[H|[H|[H|[]]]]]]; discriminate.
  - split; [reflexivity|]. cbn. intros [H|[H|[]]]; discriminate.
  - repeat split. discriminate.
Qed.

End Counterexamples.

(* ===================================================================== *)
(** * The further properties on the example data *)
(* ===================================================================== *)

Module Instances.
Import Examples Sessions.

Lemma reload_needs_a_message_witness :
  reload decode_text no_options [streams [Chunk "Hello"]] None None idle
  = (Return None, idle).
Proof.
  exact (proj2 (reload_needs_a_message decode_text no_options
                  [streams [Chunk "Hello"]] None None idle) eq_refl).
Defined.

Lemma stop_after_return_is_noop_witness :
  let w' := snd (trigger decode_text no_options [streams [Chunk "Hello"]]
                   hello_request idle) in
  abortControllerRef w' = false /\ stop w' = (Return tt, w').
Proof.
  exact (stop_after_return_is_noop decode_text no_options
           [streams [Chunk "Hello"]] hello_request idle (Some "Hello") eq_refl).
Defined.

Lemma failed_submission_keeps_controller_witness :
  exists w',
    trigger decode_text no_options [responds server_error] hello_request idle
    = (Throw (new_Error "Internal Server Error"), w')
    /\ abortControllerRef w' = true
    /\ trace (snd (stop w')) = trace w' ++ [EvAbort].
Proof.
  destruct (failed_submission_keeps_controller decode_text no_options
              (responds server_error) [] hello_request idle
              (new_Error "Internal Server Error")
              (or_intror (ex_intro _ server_error
                            (conj eq_refl (conj eq_refl (conj I eq_refl)))))
              eq_refl eq_refl) as (w' & Hrun & Hslot & Hstop & _).
  exists w'. split; [exact Hrun|]. split; [exact Hslot|exact Hstop].
Defined.

Lemma aborted_fetch_returns_null_witness :
  exists w',
    trigger decode_text no_options [aborted] hello_request chatting
    = (Return None, w')
    /\ swr_data w' = [hello; answer]
    /\ abortControllerRef w' = false
    /\ trace w' = [EvMutate [hello] false;
                   EvFetch (request_body no_options hello_request);
                   EvAbort;
                   EvMutate [hello; answer] false].
Proof.
  exact (aborted_fetch_returns_null decode_text no_options aborted []
           hello_request chatting AbortError eq_refl eq_refl).
Defined.

Lemma onResponse_error_is_not_rolled_back_witness :
  let run := trigger decode_text guarded [streams [Chunk "Hello"]]
               hello_request idle in
  swr_data (snd run) = [hello]
  /\ fst run = Throw unauthorized
  /\ trace (snd run) = [EvMutate [hello] false;
                        EvFetch (request_body guarded hello_request);
                        EvOnError unauthorized].
Proof.
  exact (onResponse_error_is_not_rolled_back decode_text guarded
           (streams [Chunk "Hello"]) (streamed [Chunk "Hello"]) []
           hello_request idle (fun _ => Some (Object unauthorized)) unauthorized
           eq_refl eq_refl eq_refl).
Defined.

Lemma read_error_keeps_the_partial_reply_witness :
  exists w',
    trigger decode_text no_options
      [streams [Chunk "Hel"; ReadRejects connection_lost; Chunk "lo"]]
      hello_request idle
    = (Throw connection_lost, w')
    /\ swr_data w' = [hello; content_message "r1" 2000 "Hel"].
Proof.
  destruct (read_error_keeps_the_partial_reply decode_text no_options
              (streams [Chunk "Hel"; ReadRejects connection_lost; Chunk "lo"])
              (streamed [Chunk "Hel"; ReadRejects connection_lost; Chunk "lo"])
              ["Hel"] connection_lost [Chunk "lo"] [] hello_request idle
              eq_refl eq_refl eq_refl eq_refl I eq_refl)
    as (w' & Hrun & Hstore & _).
  exists w'. split; [exact Hrun|exact Hstore].
Defined.

Lemma empty_stream_echoes_the_request_witness :
  (exists w',
      trigger decode_text no_options [streams []] hello_request idle
      = (Return (Some "What time is it?"), w')
      /\ swr_data w' = [hello])
  /\ (exists w',
        trigger decode_text no_options [streams []]
          {| req_messages := []; req_functions := None;
             req_function_call := None |} idle
        = (Throw TypeError, w')).
Proof.
  split.
  - destruct (empty_stream_echoes_the_request decode_text no_options
                (streams []) (streamed []) [] hello_request idle
                eq_refl eq_refl eq_refl eq_refl I) as (Hecho & _).
    destruct (Hecho [] hello eq_refl eq_refl) as (w' & Hrun & Hstore & _).
    exists w'. split; [exact Hrun|exact Hstore].
  - destruct (empty_stream_echoes_the_request decode_text no_options
                (streams []) (streamed []) []
                {| req_messages := []; req_functions := None;
                   req_function_call := None |} idle
                eq_refl eq_refl eq_refl eq_refl I) as (_ & _ & Hnone).
    destruct (Hnone eq_refl) as (w' & Hrun & _).
    exists w'. exact Hrun.
Defined.

Lemma setMessages_then_reload_witness :
  (setMessages [hello; answer] ;;
   reload decode_text no_options [streams [Chunk "It is one."]] None None) idle
  = trigger decode_text no_options [streams [Chunk "It is one."]] hello_request
      {| swr_data := [hello; answer]; messagesRef := [hello; answer];
         abortControllerRef := false;
         trace := [EvMutate [hello; answer] false] |}.
Proof.
  destruct (setMessages_then_reload decode_text no_options
              [streams [Chunk "It is one."]] None None idle [hello; answer])
    as (_ & _ & _ & Hrun).
  exact (Hrun [hello] answer eq_refl).
Defined.

Lemma next_append_builds_on_the_reply_witness :
  let w' := snd (trigger decode_text no_options [streams [Chunk "It is noon."]]
                   hello_request idle) in
  append decode_text no_options "u2" [] question None None w'
  = trigger decode_text no_options []
      {| req_messages := [hello; content_message "r1" 2000 "It is noon.";
                          with_id "u2" question];
         req_functions := None; req_function_call := None |} w'.
Proof.
  exact (next_append_builds_on_the_reply decode_text no_options
           (streams [Chunk "It is noon."]) (streamed [Chunk "It is noon."])
           "It is noon." [] [] hello_request idle "u2" [] question None None
           eq_refl eq_refl eq_refl eq_refl I eq_refl).
Defined.

Lemma reload_after_reply_repeats_the_request_witness :
  let w' := snd (trigger decode_text no_options [streams [Chunk "It is noon."]]
                   hello_request idle) in
  reload decode_text no_options [] None None w'
  = trigger decode_text no_options [] hello_request w'.
Proof.
  exact (reload_after_reply_repeats_the_request decode_text no_options
           (streams [Chunk "It is noon."]) (streamed [Chunk "It is noon."])
           "It is noon." [] [] hello_request idle [] None None
           eq_refl eq_refl eq_refl eq_refl I eq_refl).
Defined.

Lemma request_body_hides_ids_witness :
  request_body no_options hello_request
  = request_body no_options
      {| req_messages := [hello_again]; req_functions := None;
         req_function_call := None |}.
Proof.
  destruct (request_body_hides_ids no_options hello_request
              {| req_messages := [hello_again]; req_functions := None;
                 req_function_call := None |} eq_refl) as (_ & _ & Hsame).
  - constructor; [|constructor]. repeat split.
  - apply Hsame; reflexivity.
Defined.

Lemma short_first_chunk_is_written_as_content_witness :
  exists evs,
    trace (snd (getStreamedResponse decode_text no_options
                  (streams [Chunk "{"; Chunk none_call_rest]) hello_request
                  (with_slot true idle)))
    = [EvMutate [hello] false;
       EvFetch (request_body no_options hello_request);
       EvMutate [hello; content_message "r1" 2000 "{"] false]
      ++ evs.
Proof.
  apply (short_first_chunk_is_written_as_content decode_text no_options
           (streams [Chunk "{"; Chunk none_call_rest])
           (streamed [Chunk "{"; Chunk none_call_rest])
           "{" [none_call_rest] hello_request (with_slot true idle)
           eq_refl eq_refl eq_refl eq_refl eq_refl I).
  cbn. lia.
Defined.

Lemma parsed_function_call_is_present_witness :
  exists functionCall w',
    get_prop (JObject [("function_call", time_call)]) "function_call"
    = inr (Some functionCall)
    /\ getStreamedResponse decode_text no_options
         (streams (map Chunk time_call_chunks)) hello_request (with_slot true idle)
       = (Return (streamed_message decode_text
                    (streams (map Chunk time_call_chunks)) time_call_chunks), w')
    /\ swr_data w' = [hello; parsed_message "r1" 2000 (Some functionCall)].
Proof.
  exact (parsed_function_call_is_present decode_text no_options
           (streams (map Chunk time_call_chunks))
           (streamed (map Chunk time_call_chunks)) time_call_chunks
           hello_request (with_slot true idle)
           (JObject [("function_call", time_call)])
           eq_refl eq_refl eq_refl eq_refl eq_refl I eq_refl eq_refl).
Defined.

Lemma string_function_call_ends_the_loop_witness :
  exists w',
    trigger decode_text with_clock [streams [Chunk none_call_text]]
      hello_request idle
    = (Return (Some ""), w')
    /\ swr_data w' = [hello; parsed_message "r1" 2000 (Some (JString "none"))].
Proof.
  destruct (string_function_call_ends_the_loop decode_text with_clock
              (streams [Chunk none_call_text]) (streamed [Chunk none_call_text])
              [none_call_text] [] hello_request idle
              (JObject [("function_call", JString "none")]) "none"
              eq_refl eq_refl eq_refl eq_refl I eq_refl eq_refl eq_refl)
    as (w' & Hrun & Hstore & _).
  exists w'. split; [exact Hrun|exact Hstore].
Defined.

Lemma handler_error_propagates_witness :
  let run := trigger decode_text with_broken_clock
               [streams (map Chunk time_call_chunks)] hello_request idle in
  swr_data (snd run) = [hello; called]
  /\ fst run = Throw no_clock.
Proof.
  destruct (handler_error_propagates decode_text with_broken_clock
              (streams (map Chunk time_call_chunks))
              (streamed (map Chunk time_call_chunks)) time_call_chunks []
              hello_request idle (JObject [("function_call", time_call)])
              time_call broken_clock_handler no_clock
              eq_refl eq_refl eq_refl eq_refl eq_refl I eq_refl eq_refl
              eq_refl eq_refl eq_refl) as (Hstore & Hrun & _).
  split; [exact Hstore|exact Hrun].
Defined.

Lemma failed_follow_up_rolls_back_to_the_call_witness :
  exists w',
    trigger decode_text with_clock
      [streams (map Chunk time_call_chunks); responds server_error]
      hello_request idle
    = (Throw (new_Error "Internal Server Error"), w')
    /\ swr_data w' = [hello; called].
Proof.
  destruct (failed_follow_up_rolls_back_to_the_call decode_text with_clock
              (streams (map Chunk time_call_chunks))
              (streamed (map Chunk time_call_chunks)) time_call_chunks
              (responds server_error) [] hello_request idle
              (JObject [("function_call", time_call)]) time_call
              clock_handler clock_request (new_Error "Internal Server Error")
              eq_refl eq_refl eq_refl eq_refl eq_refl I eq_refl eq_refl
              eq_refl eq_refl eq_refl
              (or_intror (ex_intro _ server_error
                            (conj eq_refl (conj eq_refl (conj I eq_refl)))))
              eq_refl) as (w' & pre & Hrun & Hstore & _).
  exists w'. split; [exact Hrun|exact Hstore].
Defined.

Lemma function_call_then_answer_witness :
  exists w',
    trigger decode_text with_clock
      [streams (map Chunk time_call_chunks); streams [Chunk "It is "; Chunk "noon."]]
      hello_request idle
    = (Return (Some "It is noon."), w')
    /\ swr_data w'
       = [hello; called; clock_message; content_message "r1" 2000 "It is noon."].
Proof.
  destruct (function_call_then_answer decode_text with_clock
              (streams (map Chunk time_call_chunks))
              (streamed (map Chunk time_call_chunks)) time_call_chunks
              (streams [Chunk "It is "; Chunk "noon."])
              (streamed [Chunk "It is "; Chunk "noon."]) "It is " ["noon."]
              [] hello_request idle
              (JObject [("function_call", time_call)]) time_call
              clock_handler clock_request
              eq_refl eq_refl eq_refl eq_refl eq_refl I eq_refl eq_refl
              eq_refl eq_refl eq_refl
              eq_refl eq_refl eq_refl eq_refl I eq_refl)
    as (w' & Hrun & Hstore & _).
  exists w'. split; [exact Hrun|exact Hstore].
Defined.

Lemma stop_during_function_call_throws_witness :
  exists w',
    trigger decode_text no_options
      [streams [Chunk (hd "" time_call_chunks); StopCalled; Chunk cut_off;
                Chunk "ments"]]
      hello_request idle
    = (Throw JSON_SyntaxError, w')
    /\ swr_data w'
       = [hello; pending_message "r1" 2000 (hd "" time_call_chunks ++ cut_off)]
    /\ abortControllerRef w' = false.
Proof.
  destruct (stop_during_function_call_throws decode_text no_options
              (streams [Chunk (hd "" time_call_chunks); StopCalled; Chunk cut_off;
                        Chunk "ments"])
              (streamed [Chunk (hd "" time_call_chunks); StopCalled; Chunk cut_off;
                         Chunk "ments"])
              [hd "" time_call_chunks] cut_off [Chunk "ments"] []
              hello_request idle
              eq_refl eq_refl eq_refl eq_refl I eq_refl eq_refl)
    as (w' & Hrun & Hstore & Hslot & _).
  exists w'. split; [exact Hrun|]. split; [exact Hstore|exact Hslot].
Defined.

Lemma stop_does_not_skip_the_handler_witness :
  exists evs,
    trace (snd (trigger decode_text with_clock
                  [streams [Chunk (hd "" time_call_chunks); StopCalled;
                            Chunk (hd "" (tl time_call_chunks))]]
                  hello_request idle))
    = [EvMutate [hello] false;
       EvFetch (request_body with_clock hello_request);
       EvMutate [hello; pending_message "r1" 2000 (hd "" time_call_chunks)] false;
       EvAbort;
       EvMutate [hello; pending_message "r1" 2000 time_call_text] false;
       EvReaderCancel;
       EvMutate [hello; called] true;
       EvHandler time_call
         {| req_messages := [hello; called];
            req_functions := None; req_function_call := None |};
       EvMutate [hello; called; clock_message] false;
       EvFetch (request_body with_clock clock_request)]
      ++ evs.
Proof.
  exact (stop_does_not_skip_the_handler decode_text with_clock
           (streams [Chunk (hd "" time_call_chunks); StopCalled;
                     Chunk (hd "" (tl time_call_chunks))])
           (streamed [Chunk (hd "" time_call_chunks); StopCalled;
                      Chunk (hd "" (tl time_call_chunks))])
           [hd "" time_call_chunks] (hd "" (tl time_call_chunks)) [] []
           hello_request idle (JObject [("function_call", time_call)]) time_call
           clock_handler clock_request
           eq_refl eq_refl eq_refl eq_refl eq_refl I eq_refl eq_refl eq_refl
           eq_refl eq_refl).
Defined.

Lemma onError_is_called_once_and_last_witness :
  exists evs,
    trace (snd (trigger decode_text guarded [streams [Chunk "Hello"]]
                  hello_request idle))
    = evs ++ [EvOnError unauthorized]
    /\ Forall quiet evs.
Proof.
  destruct (onError_is_called_once_and_last decode_text guarded
              [streams [Chunk "Hello"]] hello_request idle)
    as (evs & tail & Htr & Hquiet & _ & Hthrown & _).
  destruct (Hthrown unauthorized eq_refl) as (_ & Hreported).
  rewrite (Hreported eq_refl eq_refl eq_refl) in Htr.
  exists evs. split; [exact Htr|exact Hquiet].
Defined.

Lemma returned_text_is_the_last_message_witness :
  let w' := snd (trigger decode_text no_options [streams [Chunk "Hello"]]
                   hello_request idle) in
  messagesRef w' = swr_data w'
  /\ exists l m, swr_data w' = l ++ [m] /\ msg_content m = "Hello".
Proof.
  exact (returned_text_is_the_last_message decode_text no_options
           [streams [Chunk "Hello"]] hello_request idle "Hello" eq_refl).
Defined.

Lemma handler_is_called_for_the_last_message_witness :
  exists evs,
    trace (snd (trigger decode_text with_clock
                  [streams (map Chunk time_call_chunks);
                   streams [Chunk "It is noon."]]
                  hello_request idle))
    = evs
    /\ forall functionCall chatRequest,
         In (EvHandler functionCall chatRequest) evs ->
         is_string functionCall = false
         /\ exists l m, req_messages chatRequest = l ++ [m]
                        /\ msg_function_call m = Some functionCall.
Proof.
  exact (handler_is_called_for_the_last_message decode_text with_clock
           [streams (map Chunk time_call_chunks); streams [Chunk "It is noon."]]
           hello_request idle).
Defined.

Lemma handleSubmit_submits_the_input_witness :
  snd (handleSubmit decode_text no_options 3000 "u2" [] submit None (typing ""))
  = typing ""
  /\ input (snd (handleSubmit decode_text no_options 3000 "u2" [] submit None
                   (handleInputChange "And now?" (typing "")))) = ""
  /\ cells (snd (handleSubmit decode_text no_options 3000 "u2" [] submit None
                   (handleInputChange "And now?" (typing ""))))
     = snd (trigger decode_text no_options []
              {| req_messages := [hello; answer; with_id "u2" question];
                 req_functions := None; req_function_call := None |} chatting).
Proof.
  destruct (handleSubmit_submits_the_input decode_text no_options 3000 "u2" []
              submit None (typing "")) as (_ & Hempty & _).
  destruct (handleSubmit_submits_the_input decode_text no_options 3000 "u2" []
              submit None (handleInputChange "And now?" (typing "")))
    as (_ & _ & Hfull).
  split; [exact (Hempty eq_refl)|].
  destruct (Hfull ltac:(discriminate)) as (Hinput & Hcells & _).
  split; [exact Hinput|exact Hcells].
Defined.

Lemma handleSubmit_drops_the_text_on_failure_witness :
  let h' := snd (handleSubmit decode_text no_options 3000 "u2"
                   [responds server_error] submit None (typing "And now?")) in
  input h' = "" /\ swr_data (cells h') = [hello; answer].
Proof.
  apply (handleSubmit_drops_the_text_on_failure decode_text no_options 3000 "u2"
           (responds server_error) [] submit None (typing "And now?")
           (new_Error "Internal Server Error")).
  - discriminate.
  - right. exists server_error. repeat split; reflexivity.
  - reflexivity.
Defined.

Lemma panel_messages_share_the_chat_id_witness :
  ~ NoDup (map msg_id
             (swr_data
                (snd (ChatPanel.onSubmit decode_text no_options (Some "c1") "n1" []
                        "And now?" in_panel)))).
Proof.
  destruct (panel_messages_share_the_chat_id decode_text no_options "c1" "n1" []
              "And now?" in_panel ltac:(discriminate)) as (_ & Hdup).
  exact (Hdup (or_introl eq_refl)).
Defined.

Lemma regenerate_sends_no_functions_witness :
  exists req evs,
    trace (ChatPanel.onClick decode_text no_options ChatPanel.RegenerateResponse
             [streams [Chunk "It is one."]] chatting)
    = [EvMutate (req_messages req) false; EvFetch (request_body no_options req)]
      ++ evs
    /\ body_functions (request_body no_options req) = None
    /\ (req_messages req = [hello; answer]
        \/ req_messages req = removelast [hello; answer]).
Proof.
  exact (regenerate_sends_no_functions decode_text no_options false
           [streams [Chunk "It is one."]] chatting eq_refl eq_refl).
Defined.

End Instances.
